(** * The noname lobby broker: sessions, rooms, liveness sweep and relay

    A shallow embedding of the lobby Durable Object ([src/index.js], class
    [LobbyDurableObject]) and of the session-rehydrating iteration of the
    same class.  JavaScript objects that are shared by reference (client
    and room objects) live in an object store indexed by addresses; the
    registry [clients] is the insertion-ordered [Map] from connection ids to
    client objects; everything written to a socket is recorded in an
    effect trace. *)

From Stdlib Require Import ZArith Lia Ascii String.
From stdpp Require Import base list strings numbers pretty.

Set Warnings "-register-all".
Local Open Scope Z_scope.
Local Open Scope string_scope.
Local Open Scope list_scope.

(** ** JavaScript values

    The values that [JSON.parse] produces, together with [undefined] and
    [NaN], which the handlers create themselves.  Numbers are integers. *)

Inductive value : Type :=
  | VUndef
  | VNull
  | VBool (b : bool)
  | VNum (n : Z)
  | VNaN
  | VStr (s : string)
  | VArr (items : list value)
  | VObj (fields : list (string * value)).

(** [!!v] *)
Definition truthy (v : value) : bool :=
  match v with
  | VUndef | VNull | VNaN => false
  | VBool b => b
  | VNum n => negb (Z.eqb n 0)
  | VStr s => negb (String.eqb s "")
  | VArr _ | VObj _ => true
  end.

(** [a === b] where at least one side was parsed from the current message:
    primitives compare by value, two objects are never the same object. *)
Definition strict_eq (a b : value) : bool :=
  match a, b with
  | VUndef, VUndef => true
  | VNull, VNull => true
  | VBool x, VBool y => Bool.eqb x y
  | VNum x, VNum y => Z.eqb x y
  | VStr x, VStr y => String.eqb x y
  | _, _ => false
  end.

(** [typeof v === "string"] and [typeof v === "object"] *)
Definition is_string (v : value) : bool :=
  match v with VStr _ => true | _ => false end.

Definition typeof_object (v : value) : bool :=
  match v with VNull | VArr _ | VObj _ => true | _ => false end.

(** [ToString], used when a value becomes a property key. *)
Fixpoint to_string (v : value) : string :=
  match v with
  | VUndef => "undefined"
  | VNull => "null"
  | VBool true => "true"
  | VBool false => "false"
  | VNum n => pretty n
  | VNaN => "NaN"
  | VStr s => s
  | VArr items =>
      let elt x := match x with VUndef | VNull => "" | _ => to_string x end in
      (fix join (l : list value) : string :=
         match l with
         | [] => ""
         | [x] => elt x
         | x :: l' => elt x +:+ "," +:+ join l'
         end) items
  | VObj _ => "[object Object]"
  end.

Fixpoint assoc {A : Type} (k : string) (l : list (string * A)) : option A :=
  match l with
  | [] => None
  | (k', x) :: l' => if String.eqb k k' then Some x else assoc k l'
  end.

Fixpoint string_nth (i : nat) (s : string) : option Ascii.ascii :=
  match s, i with
  | EmptyString, _ => None
  | String c _, O => Some c
  | String _ s', S i' => string_nth i' s'
  end.

(** Own data property [v[name]] for a name that is not an array index. *)
Definition prop_field (v : value) (name : string) : value :=
  match v with
  | VObj fields => default VUndef (assoc name fields)
  | _ => VUndef
  end.

(** Own indexed property [v[i]]. *)
Definition prop_idx (v : value) (i : nat) : value :=
  match v with
  | VArr items => default VUndef (items !! i)
  | VObj fields => default VUndef (assoc (pretty i) fields)
  | VStr s => match string_nth i s with
              | Some c => VStr (String c EmptyString)
              | None => VUndef
              end
  | _ => VUndef
  end.

(** [o.name = x] on a plain object: an existing property keeps its place. *)
Fixpoint assoc_set {A : Type} (k : string) (x : A) (l : list (string * A))
  : list (string * A) :=
  match l with
  | [] => [(k, x)]
  | (k', y) :: l' =>
      if String.eqb k k' then (k', x) :: l' else (k', y) :: assoc_set k x l'
  end.

Definition obj_set (name : string) (x : value) (v : value) : value :=
  match v with
  | VObj fields => VObj (assoc_set name x fields)
  | _ => v
  end.

Definition has_own (v : value) (name : string) : bool :=
  match v with
  | VObj fields => bool_decide (is_Some (assoc name fields))
  | _ => false
  end.

(** A property key that is an array index: the canonical decimal form of a
    natural number. *)
Fixpoint digits_value (acc : nat) (s : string) : option nat :=
  match s with
  | EmptyString => Some acc
  | String c s' =>
      match Ascii.is_nat c with
      | Some d => digits_value (10 * acc + d)%nat s'
      | None => None
      end
  end.

Definition array_index (k : string) : option nat :=
  match k with
  | EmptyString => None
  | _ => match digits_value 0 k with
         | Some n => if String.eqb (pretty n) k then Some n else None
         | None => None
         end
  end.

(** [arr[i] = x] on an array: a write past the end leaves holes, which read
    as [undefined]. *)
Definition array_set (i : nat) (x : value) (arr : list value) : list value :=
  if bool_decide (i < length arr)%nat then <[i := x]> arr
  else arr ++ replicate (i - length arr) VUndef ++ [x].

(** [ToNumber] on the values compared with a clock reading; [None] is [NaN].
    Strings are read as optionally signed decimal integers. *)
Definition string_to_number (s : string) : option Z :=
  match s with
  | EmptyString => Some 0
  | String "-"%char s' =>
      match s' with
      | EmptyString => None
      | _ => Z.opp <$> (Z.of_nat <$> digits_value 0 s')
      end
  | _ => Z.of_nat <$> digits_value 0 s
  end.

Definition to_number (v : value) : option Z :=
  match v with
  | VUndef | VNaN | VObj _ => None
  | VNull => Some 0
  | VBool b => Some (if b then 1 else 0)
  | VNum n => Some n
  | VStr _ | VArr _ => string_to_number (to_string v)
  end.

(** [v <= t] for a number [t] *)
Definition js_le_num (v : value) (t : Z) : bool :=
  match to_number v with
  | Some n => Z.leb n t
  | None => false
  end.

(** [getNickname(str)] *)
Definition default_nickname : string := "无名玩家".

Definition getNickname (str : value) : string :=
  match str with
  | VStr s => substring 0 12 s
  | _ => default_nickname
  end.


(** ** Object store, sockets and effects *)

(** Addresses of client objects and of room objects in the store. *)
Abbreviation caddr := nat (only parsing).
Abbreviation raddr := nat (only parsing).

(** The client object built by [onConnect].  [banned] is absent until the
    sweep sets it, and an absent flag reads as false. *)
Module Client.
Record t : Type := mk {
  ws : nat;
  wsid : string;
  nickname : string;
  avatar : value;
  room : option raddr;
  owner : option caddr;
  status : value;
  onlineKey : value;
  servermode : bool;
  _onconfig : option caddr;
  clientIp : string;
  connectTime : Z;
  lastActivity : Z;
  beatWaiting : bool;
  banned : bool
}.

Definition set_nickname (x : string) (c : t) : t :=
  mk (ws c) (wsid c) x (avatar c) (room c) (owner c) (status c)
     (onlineKey c) (servermode c) (_onconfig c) (clientIp c)
     (connectTime c) (lastActivity c) (beatWaiting c) (banned c).
Definition set_avatar (x : value) (c : t) : t :=
  mk (ws c) (wsid c) (nickname c) x (room c) (owner c) (status c)
     (onlineKey c) (servermode c) (_onconfig c) (clientIp c)
     (connectTime c) (lastActivity c) (beatWaiting c) (banned c).
Definition set_room (x : option raddr) (c : t) : t :=
  mk (ws c) (wsid c) (nickname c) (avatar c) x (owner c) (status c)
     (onlineKey c) (servermode c) (_onconfig c) (clientIp c)
     (connectTime c) (lastActivity c) (beatWaiting c) (banned c).
Definition set_owner (x : option caddr) (c : t) : t :=
  mk (ws c) (wsid c) (nickname c) (avatar c) (room c) x (status c)
     (onlineKey c) (servermode c) (_onconfig c) (clientIp c)
     (connectTime c) (lastActivity c) (beatWaiting c) (banned c).
Definition set_status (x : value) (c : t) : t :=
  mk (ws c) (wsid c) (nickname c) (avatar c) (room c) (owner c) x
     (onlineKey c) (servermode c) (_onconfig c) (clientIp c)
     (connectTime c) (lastActivity c) (beatWaiting c) (banned c).
Definition set_onlineKey (x : value) (c : t) : t :=
  mk (ws c) (wsid c) (nickname c) (avatar c) (room c) (owner c) (status c)
     x (servermode c) (_onconfig c) (clientIp c)
     (connectTime c) (lastActivity c) (beatWaiting c) (banned c).
Definition set_servermode (x : bool) (c : t) : t :=
  mk (ws c) (wsid c) (nickname c) (avatar c) (room c) (owner c) (status c)
     (onlineKey c) x (_onconfig c) (clientIp c)
     (connectTime c) (lastActivity c) (beatWaiting c) (banned c).
Definition set_onconfig (x : option caddr) (c : t) : t :=
  mk (ws c) (wsid c) (nickname c) (avatar c) (room c) (owner c) (status c)
     (onlineKey c) (servermode c) x (clientIp c)
     (connectTime c) (lastActivity c) (beatWaiting c) (banned c).
Definition set_lastActivity (x : Z) (c : t) : t :=
  mk (ws c) (wsid c) (nickname c) (avatar c) (room c) (owner c) (status c)
     (onlineKey c) (servermode c) (_onconfig c) (clientIp c)
     (connectTime c) x (beatWaiting c) (banned c).
Definition set_beatWaiting (x : bool) (c : t) : t :=
  mk (ws c) (wsid c) (nickname c) (avatar c) (room c) (owner c) (status c)
     (onlineKey c) (servermode c) (_onconfig c) (clientIp c)
     (connectTime c) (lastActivity c) x (banned c).
Definition set_banned (x : bool) (c : t) : t :=
  mk (ws c) (wsid c) (nickname c) (avatar c) (room c) (owner c) (status c)
     (onlineKey c) (servermode c) (_onconfig c) (clientIp c)
     (connectTime c) (lastActivity c) (beatWaiting c) x.
End Client.

(** A room object.  [_num] is the scratch counter that [getroomlist] puts on
    the object and deletes again; [VUndef] stands for the absent property. *)
Module Room.
Record t : Type := mk {
  owner : option caddr;
  key : value;
  config : value;
  servermode : bool;
  _num : value
}.

(** [{}] *)
Definition empty : t := mk None VUndef VUndef false VUndef.

Definition set_owner (x : option caddr) (r : t) : t :=
  mk x (key r) (config r) (servermode r) (_num r).
Definition set_key (x : value) (r : t) : t :=
  mk (owner r) x (config r) (servermode r) (_num r).
Definition set_config (x : value) (r : t) : t :=
  mk (owner r) (key r) x (servermode r) (_num r).
Definition set_servermode (x : bool) (r : t) : t :=
  mk (owner r) (key r) (config r) x (_num r).
Definition set_num (x : value) (r : t) : t :=
  mk (owner r) (key r) (config r) (servermode r) x.

(** [room._num++] *)
Definition incr_num (r : t) : t :=
  set_num (match _num r with VNum n => VNum (n + 1) | _ => VNaN end) r.
End Room.

(** What [ws.deserializeAttachment()] does on a socket: throw, return
    nothing, or return the object [{ wsid }]. *)
Inductive attachment : Type :=
  | AttThrows
  | AttNull
  | AttWsid (wsid : string).

(** A server-side socket handed to a handler by the host. *)
Record Ws : Type := mkWs {
  ws_id : nat;
  ws_attachment : attachment
}.

(** A frame passed to [ws.send]: [JSON.stringify(args)] of [sendl], a
    literal text, or the value that [messages.send] forwards as it is. *)
Inductive frame : Type :=
  | FJson (args : list value)
  | FText (text : string)
  | FRaw (message : value).

Inductive effect : Type :=
  | Send (ws : nat) (f : frame)
  | Close (ws : nat)
  | CloseWith (ws : nat) (code : Z) (reason : string)
  | Attach (ws : nat) (wsid : string)
  | ScheduleAlarm (at_ : Z)
  | SetAlarm (at_ : Z).

(** The fields of the Durable Object, the object store and the trace of
    effects on the host. *)
Record State : Type := mkState {
  rooms : list raddr;
  events : list value;
  clients : list (string * caddr);
  bannedKeys : list value;
  bannedIps : list string;
  bannedKeyWords : list string;
  cheap : list Client.t;
  rheap : list Room.t;
  out : list effect
}.

Definition set_rooms (x : list raddr) (st : State) : State :=
  mkState x (events st) (clients st) (bannedKeys st) (bannedIps st)
          (bannedKeyWords st) (cheap st) (rheap st) (out st).
Definition set_events (x : list value) (st : State) : State :=
  mkState (rooms st) x (clients st) (bannedKeys st) (bannedIps st)
          (bannedKeyWords st) (cheap st) (rheap st) (out st).
Definition set_clients (x : list (string * caddr)) (st : State) : State :=
  mkState (rooms st) (events st) x (bannedKeys st) (bannedIps st)
          (bannedKeyWords st) (cheap st) (rheap st) (out st).
Definition set_bannedIps (x : list string) (st : State) : State :=
  mkState (rooms st) (events st) (clients st) (bannedKeys st) x
          (bannedKeyWords st) (cheap st) (rheap st) (out st).
Definition set_cheap (x : list Client.t) (st : State) : State :=
  mkState (rooms st) (events st) (clients st) (bannedKeys st) (bannedIps st)
          (bannedKeyWords st) x (rheap st) (out st).
Definition set_rheap (x : list Room.t) (st : State) : State :=
  mkState (rooms st) (events st) (clients st) (bannedKeys st) (bannedIps st)
          (bannedKeyWords st) (cheap st) x (out st).
Definition set_out (x : list effect) (st : State) : State :=
  mkState (rooms st) (events st) (clients st) (bannedKeys st) (bannedIps st)
          (bannedKeyWords st) (cheap st) (rheap st) x.

(** The state built by the constructor. *)
Definition initial : State := mkState [] [] [] [] [] [] [] [] [].

(** Writes to a field of a stored object. *)
Definition upd_client (a : caddr) (f : Client.t -> Client.t) (st : State)
  : State :=
  set_cheap (alter f a (cheap st)) st.

Definition upd_room (r : raddr) (f : Room.t -> Room.t) (st : State) : State :=
  set_rheap (alter f r (rheap st)) st.

Definition emit (e : effect) (st : State) : State :=
  set_out (out st ++ [e]) st.

(** ** The registry: an insertion-ordered [Map] *)

Fixpoint map_get (k : string) (m : list (string * caddr)) : option caddr :=
  match m with
  | [] => None
  | (k', a) :: m' => if String.eqb k k' then Some a else map_get k m'
  end.

Definition map_has (k : string) (m : list (string * caddr)) : bool :=
  bool_decide (is_Some (map_get k m)).

Fixpoint map_set (k : string) (a : caddr) (m : list (string * caddr))
  : list (string * caddr) :=
  match m with
  | [] => [(k, a)]
  | (k', b) :: m' =>
      if String.eqb k k' then (k', a) :: m' else (k', b) :: map_set k a m'
  end.

Fixpoint map_delete (k : string) (m : list (string * caddr))
  : list (string * caddr) :=
  match m with
  | [] => []
  | (k', b) :: m' =>
      if String.eqb k k' then m' else (k', b) :: map_delete k m'
  end.

(** ** The rehydrating iteration of the lobby object

    The iteration of the class that keeps [{ wsid, ip, joinedAt, verified }]
    on the socket and rebuilds the client object from it
    ([createClientWrapper] and the head of its [webSocketMessage]). *)

Module Hibernation.

(** The metadata attached to the socket by [fetch]. *)
Record metadata : Type := mkMeta {
  meta_wsid : string;
  meta_ip : string;
  meta_joinedAt : Z;
  meta_verified : bool
}.

(** The client object of this iteration: it has no timer or liveness
    fields. *)
Record client : Type := mkClient {
  ws : nat;
  wsid : string;
  clientIp : string;
  nickname : string;
  avatar : value;
  room : option raddr;
  owner : option caddr;
  status : value;
  onlineKey : value;
  servermode : bool;
  _onconfig : option caddr
}.

(** The registry [this.clients] and the store of client objects. *)
Record registry : Type := mkRegistry {
  clients : list (string * caddr);
  cheap : list client
}.

(** The object literal of [createClientWrapper]. *)
Definition wrapper (ws : nat) (m : metadata) : client :=
  mkClient ws (meta_wsid m) (meta_ip m) "" (VStr "") None None VNull VNull
           false None.

(** [createClientWrapper(ws, metadata)]: the client it returns and the
    registry afterwards. *)
Definition createClientWrapper (ws : nat) (m : metadata) (reg : registry)
  : caddr * registry :=
  match map_get (meta_wsid m) (clients reg) with
  | Some a => (a, reg)
  | None =>
      let a := length (cheap reg) in
      (a, mkRegistry (map_set (meta_wsid m) a (clients reg))
                     (cheap reg ++ [wrapper ws m]))
  end.

(** The head of [webSocketMessage(ws, message)], up to the point where
    [client] is bound; the rest of the handler runs on this client and
    this registry. *)
Definition webSocketMessage_client (ws : nat) (meta : metadata)
           (reg : registry) : caddr * registry :=
  match map_get (meta_wsid meta) (clients reg) with
  | Some a => (a, reg)
  | None => createClientWrapper ws meta reg
  end.

End Hibernation.

(** ** The lobby object of [src/index.js]

    The host is represented by two parameters: whether [ws.send] throws on
    a given socket, and [JSON.parse].  [ws.close()] is taken to return
    normally.  A handler that reads the clock or draws an id receives the
    reading as an argument. *)

Section Lobby.

Variable send_throws : nat -> frame -> bool.
Variable JSON_parse : string -> option value.

(** The constructor: an empty lobby; the sockets left over from an
    execution whose memory was lost are closed, so that their clients
    connect and register again. *)
Definition construct (lingering : list Ws) : State :=
  foldl (fun s ws => emit (CloseWith (ws_id ws) 1011 "Server restarted") s)
        initial lingering.

(** [closeClient(client)]: the call [client.ws.close()]. *)
Definition closeClient (a : caddr) (st : State) : State :=
  match cheap st !! a with
  | Some c => emit (Close (Client.ws c)) st
  | None => st
  end.

(** [cleanupClient(client)] *)
Definition cleanupClient (a : caddr) (st : State) : State :=
  match cheap st !! a with
  | Some c => set_clients (map_delete (Client.wsid c) (clients st)) st
  | None => st
  end.

(** [try { ws.send(f) } catch { handler }] *)
Definition try_send (w : nat) (f : frame) (handler : State -> State)
           (st : State) : State :=
  let st1 := emit (Send w f) st in
  if send_throws w f then handler st1 else st1.

(** [sendl(client, ...args)] *)
Definition sendl (a : caddr) (args : list value) (st : State) : State :=
  match cheap st !! a with
  | Some c => try_send (Client.ws c) (FJson args) (closeClient a) st
  | None => st
  end.

(** [isBanned(str)] *)
Definition isBanned (str : value) (st : State) : bool :=
  match str with
  | VStr s =>
      existsb (fun kw => bool_decide (is_Some (String.index 0 kw s)))
              (bannedKeyWords st)
  | _ => false
  end.

(** *** Snapshots *)

(** First loop of [getroomlist]: [this.rooms[i]._num = 0]. *)
Definition reset_nums (st : State) : State :=
  foldl (fun s r => upd_room r (Room.set_num (VNum 0)) s) st (rooms st).

(** Second loop: every registered client that has a room and is not in
    servermode increments the counter on its room object. *)
Definition count_step (s : State) (entry : string * caddr) : State :=
  match cheap s !! entry.2 with
  | Some c =>
      match Client.room c with
      | Some r => if Client.servermode c then s
                  else upd_room r Room.incr_num s
      | None => s
      end
  | None => s
  end.

Definition count_members (st : State) : State :=
  foldl count_step st (clients st).

(** The tuple pushed for a listed room. *)
Definition room_entry (st : State) (R : Room.t) (o : caddr) : value :=
  match cheap st !! o with
  | Some oc =>
      VArr [VStr (Client.nickname oc); Client.avatar oc; Room.config R;
            Room._num R; Room.key R]
  | None => VArr [VUndef; VUndef; Room.config R; Room._num R; Room.key R]
  end.

(** Third loop, from index [i] on, with the list built so far. *)
Fixpoint roomlist_loop (i : nat) (rs : list raddr) (roomlist : list value)
         (st : State) : list value * State :=
  match rs with
  | [] => (roomlist, st)
  | r :: rs' =>
      match rheap st !! r with
      | Some R =>
          let '(roomlist1, st1) :=
            if Room.servermode R then
              (array_set i (VStr "server") roomlist, st)
            else
              match Room.owner R with
              | Some o =>
                  if truthy (Room.config R) then
                    let st' := if strict_eq (Room._num R) (VNum 0)
                               then sendl o [VStr "reloadroom"] st else st in
                    (roomlist ++ [room_entry st' R o], st')
                  else (roomlist, st)
              | None => (roomlist, st)
              end in
          roomlist_loop (S i) rs' roomlist1
                        (upd_room r (Room.set_num VUndef) st1)
      | None => roomlist_loop (S i) rs' roomlist st
      end
  end.

(** [getroomlist()] *)
Definition getroomlist (st : State) : list value * State :=
  let st1 := count_members (reset_nums st) in
  roomlist_loop 0 (rooms st1) [] st1.

Definition client_entry (c : Client.t) : value :=
  VArr [VStr (Client.nickname c); Client.avatar c;
        VBool (bool_decide (Client.room c = None)); Client.status c;
        VStr (Client.wsid c); Client.onlineKey c].

(** [getclientlist()] *)
Definition getclientlist (st : State) : list value :=
  omap (fun entry : string * caddr => client_entry <$> cheap st !! entry.2)
       (clients st).

(** [for (const [, client] of this.clients) if (!client.room) sendl(...)] *)
Definition lobby_step (args : list value) (s : State)
           (entry : string * caddr) : State :=
  match cheap s !! entry.2 with
  | Some c => match Client.room c with
              | None => sendl entry.2 args s
              | Some _ => s
              end
  | None => s
  end.

Definition broadcast_lobby (args : list value) (st : State) : State :=
  foldl (lobby_step args) st (clients st).

(** [updaterooms()] *)
Definition updaterooms (st : State) : State :=
  let '(roomlist, st1) := getroomlist st in
  let clientlist := getclientlist st1 in
  broadcast_lobby [VStr "updaterooms"; VArr roomlist; VArr clientlist] st1.

(** [updateclients()] *)
Definition updateclients (st : State) : State :=
  broadcast_lobby [VStr "updateclients"; VArr (getclientlist st)] st.

(** [checkevents()] at clock reading [time]: the expired events are
    spliced out; the result is [this.events]. *)
Definition checkevents (time : Z) (st : State) : State :=
  set_events
    (List.filter (fun e => negb (js_le_num (prop_field e "utc") time))
                 (events st)) st.

(** [updateevents()] *)
Definition updateevents (time : Z) (st : State) : State :=
  let st1 := checkevents time st in
  broadcast_lobby [VStr "updateevents"; VArr (events st1)] st1.

(** *** The command table [messages] *)

Definition set_identity (nickname avatar : value) : Client.t -> Client.t :=
  Client.set_avatar avatar ∘ Client.set_nickname (getNickname nickname).

(** [messages.create] *)
Definition messages_create (a : caddr) (key nickname avatar config mode : value)
           (st : State) : State :=
  match cheap st !! a with
  | Some c =>
      if negb (strict_eq (Client.onlineKey c) key) then st
      else
        let r := length (rheap st) in
        let st1 := upd_client a (set_identity nickname avatar) st in
        let st2 := set_rheap (rheap st1 ++ [Room.empty]) st1 in
        let st3 := set_rooms (rooms st2 ++ [r]) st2 in
        let st4 := upd_client a (Client.set_room (Some r)) st3 in
        let st5 := upd_client a (Client.set_status VUndef) st4 in
        let st6 := upd_room r (Room.set_owner (Some a)) st5 in
        let st7 := upd_room r (Room.set_key key) st6 in
        sendl a [VStr "createroom"; key] st7
  | None => st
  end.

(** The loop [for (const i of this.rooms) if (i.key === key) ...]. *)
Definition find_room (key : value) (st : State) : option raddr :=
  List.find (fun r => match rheap st !! r with
                      | Some R => strict_eq (Room.key R) key
                      | None => false
                      end) (rooms st).

(** [!room.config || (room.config.gameStarted &&
     (!room.config.observe || !room.config.observeReady))] *)
Definition not_enterable (config : value) : bool :=
  negb (truthy config)
  || (truthy (prop_field config "gameStarted")
      && (negb (truthy (prop_field config "observe"))
          || negb (truthy (prop_field config "observeReady")))).

(** [room.servermode && !room.owner._onconfig && config && mode] *)
Definition is_claim (st : State) (R : Room.t) (o : caddr)
           (config mode : value) : bool :=
  Room.servermode R
  && match cheap st !! o with
     | Some oc => bool_decide (Client._onconfig oc = None)
     | None => true
     end
  && truthy config && truthy mode.

(** [messages.enter] *)
Definition messages_enter (a : caddr) (key nickname avatar config mode : value)
           (st : State) : State :=
  let st1 := upd_client a (set_identity nickname avatar) st in
  match find_room key st1 with
  | None => sendl a [VStr "enterroomfailed"] st1
  | Some r =>
      let st2 := upd_client a (Client.set_room (Some r)) st1 in
      let st3 := upd_client a (Client.set_status VUndef) st2 in
      match rheap st3 !! r with
      | Some R =>
          match Room.owner R with
          | Some o =>
              let st4 :=
                if is_claim st3 R o config mode then
                  let s1 := sendl o [VStr "createroom"; Room.key R; config; mode]
                                  st3 in
                  let s2 := upd_client o (Client.set_onconfig (Some a)) s1 in
                  upd_client o (set_identity nickname avatar) s2
                else if not_enterable (Room.config R) then
                  sendl a [VStr "enterroomfailed"] st3
                else
                  let s1 := upd_client a (Client.set_owner (Some o)) st3 in
                  match cheap s1 !! a with
                  | Some c =>
                      sendl o [VStr "onconnection"; VStr (Client.wsid c)] s1
                  | None => s1
                  end in
              updaterooms st4
          | None => st3
          end
      | None => st3
      end
  end.

(** [messages.changeAvatar] *)
Definition messages_changeAvatar (a : caddr) (nickname avatar : value)
           (st : State) : State :=
  updateclients (upd_client a (set_identity nickname avatar) st).

(** [this.rooms[k]] for a key [k] that is an array index; a key that is
    not an index reads as [undefined]. *)
Definition rooms_at (k : value) (st : State) : option raddr :=
  match array_index (to_string k) with
  | Some i => rooms st !! i
  | None => None
  end.

(** The scan of [messages.server] without [cfg]: the first room that has
    no owner. *)
Definition first_unowned (st : State) : option raddr :=
  List.find (fun r => match rheap st !! r with
                      | Some R => bool_decide (Room.owner R = None)
                      | None => false
                      end) (rooms st).

(** [messages.server] *)
Definition messages_server (a : caddr) (cfg : value) (st : State) : State :=
  if truthy cfg then
    let st1 := upd_client a (Client.set_servermode true) st in
    let free :=
      match rooms_at (prop_idx cfg 0) st1 with
      | Some r =>
          match rheap st1 !! r with
          | Some R => if bool_decide (Room.owner R = None) then Some r
                      else None
          | None => None
          end
      | None => None
      end in
    match free with
    | None => sendl a [VStr "reloadroom"; VBool true] st1
    | Some r =>
        let st2 := upd_room r (Room.set_owner (Some a)) st1 in
        let st3 := upd_client a (Client.set_room (Some r)) st2 in
        let st4 := upd_client a
                     (set_identity (prop_idx cfg 1) (prop_idx cfg 2)) st3 in
        sendl a [VStr "createroom"; prop_idx cfg 0; VObj []; VStr "auto"] st4
    end
  else
    let st1 :=
      match first_unowned st with
      | Some r =>
          let s1 := upd_room r (Room.set_owner (Some a)) st in
          let s2 := upd_room r (Room.set_servermode true) s1 in
          let s3 := upd_client a (Client.set_room (Some r)) s2 in
          upd_client a (Client.set_servermode true) s3
      | None => st
      end in
    updaterooms st1.

(** [messages.key] *)
Definition messages_key (a : caddr) (id : value) (st : State) : State :=
  if negb (truthy id) || negb (typeof_object id) then
    closeClient a (sendl a [VStr "denied"; VStr "key"] st)
  else if existsb (fun k => strict_eq k (prop_idx id 0)) (bannedKeys st) then
    match cheap st !! a with
    | Some c =>
        closeClient a
          (set_bannedIps (bannedIps st ++ [Client.clientIp c]) st)
    | None => st
    end
  else upd_client a (Client.set_onlineKey (prop_idx id 0)) st.

(** [array.indexOf(x) === -1] *)
Definition not_member (x : value) (l : list value) : bool :=
  negb (existsb (fun y => strict_eq y x) l).

(** [array.splice(array.indexOf(x), 1)] when [x] occurs. *)
Fixpoint remove_first (x : value) (l : list value) : list value :=
  match l with
  | [] => []
  | y :: l' => if strict_eq y x then l' else y :: remove_first x l'
  end.

(** The join/leave loop of [messages.events] over the events from the
    current index on; the result carries the flag [changed]. *)
Fixpoint events_member_loop (cfg id type : value) (evs : list value)
  : bool * list value :=
  match evs with
  | [] => (false, [])
  | e :: evs' =>
      let '(changed', rest) := events_member_loop cfg id type evs' in
      if strict_eq (prop_field e "id") cfg then
        match prop_field e "members" with
        | VArr members =>
            if strict_eq type (VStr "join") then
              let members' := if not_member id members
                              then members ++ [id] else members in
              (true, obj_set "members" (VArr members') e :: rest)
            else if strict_eq type (VStr "leave") then
              if not_member id members then (true, e :: rest)
              else
                match remove_first id members with
                | [] => (true, rest)
                | members' =>
                    (true, obj_set "members" (VArr members') e :: rest)
                end
            else (changed', e :: rest)
        | _ => (changed', e :: rest)
        end
      else (changed', e :: rest)
  end.

(** The record that [messages.events] completes and puts first. *)
Definition new_event (cfg id : value) (fresh_id : string) : value :=
  let nickname := VStr (getNickname (prop_field cfg "nickname")) in
  let e1 := obj_set "nickname" nickname cfg in
  let e2 := obj_set "avatar"
              (if truthy nickname then nickname else VStr "caocao") e1 in
  let e3 := obj_set "creator" id e2 in
  let e4 := obj_set "id" (VStr fresh_id) e3 in
  obj_set "members" (VArr [id]) e4.

(** [messages.events]; [time] is the clock reading and [fresh_id] the id
    drawn by [getid()]. *)
Definition messages_events (time : Z) (fresh_id : string) (a : caddr)
           (cfg id type : value) (st : State) : State :=
  match cheap st !! a with
  | Some c =>
      if existsb (fun k => strict_eq k id) (bannedKeys st)
         || negb (is_string id)
         || negb (strict_eq (Client.onlineKey c) id)
      then
        closeClient a (set_bannedIps (bannedIps st ++ [Client.clientIp c]) st)
      else
        let '(changed, st1) :=
          if truthy cfg && truthy id then
            if is_string cfg then
              let '(changed, evs) :=
                events_member_loop cfg id type (events st) in
              (changed, set_events evs st)
            else if has_own cfg "utc" && has_own cfg "day"
                    && has_own cfg "hour" && has_own cfg "content" then
              if bool_decide (20 <= length (events st))%nat then
                (false, sendl a [VStr "eventsdenied"; VStr "total"] st)
              else if js_le_num (prop_field cfg "utc") time then
                (false, sendl a [VStr "eventsdenied"; VStr "time"] st)
              else if isBanned (prop_field cfg "content") st then
                (false, sendl a [VStr "eventsdenied"; VStr "ban"] st)
              else
                (true, set_events (new_event cfg id fresh_id :: events st) st)
            else (false, st)
          else (false, st) in
        if changed then updateevents time st1 else st1
  | None => st
  end.

(** [messages.config] *)
Definition messages_config (a : caddr) (config : value) (st : State) : State :=
  let st1 :=
    match cheap st !! a with
    | Some c =>
        match Client.room c with
        | Some r =>
            match rheap st !! r with
            | Some R =>
                if bool_decide (Room.owner R = Some a) then
                  let s1 :=
                    if Room.servermode R then
                      let s1 := upd_room r (Room.set_servermode false) st in
                      match Client._onconfig c with
                      | Some g =>
                          let s2 :=
                            match cheap s1 !! g with
                            | Some gc =>
                                if map_has (Client.wsid gc) (clients s1) then
                                  sendl a [VStr "onconnection";
                                           VStr (Client.wsid gc)]
                                    (upd_client g (Client.set_owner (Some a))
                                                s1)
                                else s1
                            | None => s1
                            end in
                          upd_client a (Client.set_onconfig None) s2
                      | None => s1
                      end
                    else st in
                  upd_room r (Room.set_config config) s1
                else st
            | None => st
            end
        | None => st
        end
    | None => st
    end in
  updaterooms st1.

(** [messages.status] *)
Definition messages_status (a : caddr) (str : value) (st : State) : State :=
  updateclients
    (upd_client a (Client.set_status
                     (if is_string str then str else VUndef)) st).

(** [this.clients.get(id)] for a key taken from a message. *)
Definition clients_get (id : value) (st : State) : option caddr :=
  match id with
  | VStr k => map_get k (clients st)
  | _ => None
  end.

(** [target && target.owner === client] *)
Definition owned_target (a : caddr) (id : value) (st : State)
  : option (caddr * Client.t) :=
  match clients_get id st with
  | Some t =>
      match cheap st !! t with
      | Some tc => if bool_decide (Client.owner tc = Some a)
                   then Some (t, tc) else None
      | None => None
      end
  | None => None
  end.

(** [messages.send] *)
Definition messages_send (a : caddr) (id message : value) (st : State)
  : State :=
  match owned_target a id st with
  | Some (t, tc) => try_send (Client.ws tc) (FRaw message) (closeClient t) st
  | None => st
  end.

(** [messages.close] *)
Definition messages_close (a : caddr) (id : value) (st : State) : State :=
  match owned_target a id st with
  | Some (t, _) => closeClient t st
  | None => st
  end.

(** [args[i]] of a call made with the spread [...arr] *)
Definition arg (i : nat) (args : list value) : value :=
  default VUndef (args !! i).

(** [this.messages[type].call(this, client, ...arr)] when the entry is one
    of the handlers; any other name changes nothing. *)
Definition dispatch (time : Z) (fresh_id : string) (a : caddr)
           (type : value) (args : list value) (st : State) : State :=
  let name := to_string type in
  if String.eqb name "create" then
    messages_create a (arg 0 args) (arg 1 args) (arg 2 args) (arg 3 args)
                    (arg 4 args) st
  else if String.eqb name "enter" then
    messages_enter a (arg 0 args) (arg 1 args) (arg 2 args) (arg 3 args)
                   (arg 4 args) st
  else if String.eqb name "changeAvatar" then
    messages_changeAvatar a (arg 0 args) (arg 1 args) st
  else if String.eqb name "server" then messages_server a (arg 0 args) st
  else if String.eqb name "key" then messages_key a (arg 0 args) st
  else if String.eqb name "events" then
    messages_events time fresh_id a (arg 0 args) (arg 1 args) (arg 2 args) st
  else if String.eqb name "config" then messages_config a (arg 0 args) st
  else if String.eqb name "status" then messages_status a (arg 0 args) st
  else if String.eqb name "send" then
    messages_send a (arg 0 args) (arg 1 args) st
  else if String.eqb name "close" then messages_close a (arg 0 args) st
  else st.

(** The session addressed by a socket: the attachment must deserialize to
    an object with a non-empty [wsid] that the registry knows. *)
Definition resolve (ws : Ws) (st : State) : option caddr :=
  match ws_attachment ws with
  | AttWsid wsid => if String.eqb wsid "" then None
                    else map_get wsid (clients st)
  | AttThrows | AttNull => None
  end.

(** The two assignments under [// Update activity]. *)
Definition touch (now : Z) (a : caddr) (st : State) : State :=
  upd_client a (Client.set_beatWaiting false)
             (upd_client a (Client.set_lastActivity now) st).

(** [webSocketMessage(ws, message)]; [message] is the text of the frame
    (a binary frame is decoded by the host's decoder first). *)
Definition webSocketMessage (now : Z) (fresh_id : string) (ws : Ws)
           (message : string) (st : State) : State :=
  match resolve ws st with
  | None => st
  | Some a =>
      match cheap st !! a with
      | None => st
      | Some c =>
          let st1 := touch now a st in
          if String.eqb message "heartbeat" then st1
          else
            match Client.owner c with
            | Some o =>
                sendl o [VStr "onmessage"; VStr (Client.wsid c); VStr message]
                      st1
            | None =>
                match JSON_parse message with
                | Some (VArr arr) =>
                    if strict_eq (arg 0 arr) (VStr "server") then
                      dispatch now fresh_id a (arg 1 arr) (drop 2 arr) st1
                    else st1
                | _ => sendl a [VStr "denied"; VStr "banned"] st1
                end
            end
      end
  end.

(** The inner loop of [handleClose] for one owned room: every other
    registered client whose room is this one is sent [selfclose]. *)
Definition selfclose_step (a : caddr) (r : raddr) (s : State)
           (entry : string * caddr) : State :=
  match cheap s !! entry.2 with
  | Some oc =>
      if bool_decide (Client.room oc = Some r)
         && negb (bool_decide (entry.2 = a))
      then sendl entry.2 [VStr "selfclose"] s else s
  | None => s
  end.

(** [room.owner === client] *)
Definition owned_by (st : State) (a : caddr) (r : raddr) : bool :=
  match rheap st !! r with
  | Some R => bool_decide (Room.owner R = Some a)
  | None => false
  end.

(** The loop of [handleClose] over [this.rooms]: the rooms owned by the
    closing client are notified and spliced out, the others are kept. *)
Fixpoint close_rooms (a : caddr) (rs : list raddr) (st : State)
  : list raddr * State :=
  match rs with
  | [] => ([], st)
  | r :: rs' =>
      if owned_by st a r then
        close_rooms a rs' (foldl (selfclose_step a r) st (clients st))
      else
        let '(kept, st') := close_rooms a rs' st in (r :: kept, st')
  end.

(** [handleClose(ws)], reached from [webSocketClose] and
    [webSocketError]. *)
Definition handleClose (ws : Ws) (st : State) : State :=
  match resolve ws st with
  | None => st
  | Some a =>
      match cheap st !! a with
      | None => st
      | Some c =>
          let '(kept, st1) := close_rooms a (rooms st) st in
          let st2 := set_rooms kept st1 in
          let st3 := match Client.owner c with
                     | Some o => sendl o [VStr "onclose"; VStr (Client.wsid c)]
                                       st2
                     | None => st2
                     end in
          let st4 := cleanupClient a st3 in
          match Client.room c with
          | Some _ => updaterooms st4
          | None => updateclients st4
          end
      end
  end.

(** The object literal of [onConnect]. *)
Definition new_client (ws : nat) (wsid clientIp : string) (now : Z)
  : Client.t :=
  Client.mk ws wsid "" (VStr "") None None VNull VNull false None clientIp
            now now false false.

(** [onConnect(ws, clientIp)]; [wsid] is the id drawn by [getid()]. *)
Definition onConnect (now : Z) (wsid : string) (ws : Ws) (clientIp : string)
           (st : State) : State :=
  let st1 := emit (Attach (ws_id ws) wsid) st in
  let a := length (cheap st1) in
  let st2 := set_cheap (cheap st1 ++ [new_client (ws_id ws) wsid clientIp now])
                       st1 in
  let st3 := set_clients (map_set wsid a (clients st2)) st2 in
  if bool_decide (clientIp ∈ bannedIps st3) then
    emit (Close (ws_id ws)) (sendl a [VStr "denied"; VStr "banned"] st3)
  else
    let st4 := emit (ScheduleAlarm (now + 10 * 1000)) st3 in
    let '(roomlist, st5) := getroomlist st4 in
    let st6 := checkevents now st5 in
    let clientlist := getclientlist st6 in
    sendl a [VStr "roomlist"; VArr roomlist; VArr (events st6);
             VArr clientlist; VStr wsid] st6.

(** The body of the sweep for one socket. *)
Definition alarm_socket (now : Z) (st : State) (ws : Ws) : State :=
  match resolve ws st with
  | None => emit (Close (ws_id ws)) st
  | Some a =>
      match cheap st !! a with
      | None => emit (Close (ws_id ws)) st
      | Some c =>
          if negb (truthy (Client.onlineKey c)) && negb (Client.banned c)
             && bool_decide (now - Client.connectTime c > 2000)
          then
            let st1 := sendl a [VStr "denied"; VStr "key"] st in
            let st2 := upd_client a (Client.set_banned true) st1 in
            emit (Close (ws_id ws)) st2
          else if bool_decide (now - Client.lastActivity c > 60000) then
            if Client.beatWaiting c then emit (Close (ws_id ws)) st
            else
              let st1 := upd_client a (Client.set_beatWaiting true) st in
              try_send (ws_id ws) (FText "heartbeat")
                       (emit (Close (ws_id ws))) st1
          else st
      end
  end.

(** [alarm()]: [sockets] is what [getWebSockets()] returns at the start
    and [remaining] its length when the sweep is over. *)
Definition alarm (now : Z) (sockets : list Ws) (remaining : nat)
           (st : State) : State :=
  match sockets with
  | [] => st
  | _ =>
      let st1 := foldl (alarm_socket now) st sockets in
      if bool_decide (0 < remaining)%nat
      then emit (SetAlarm (now + 10 * 1000)) st1 else st1
  end.

(** ** Scenarios

    Concrete sockets, clients, rooms and lobby states on which the
    statements below are instantiated. *)

(** A host whose [ws.send] never throws, and a [JSON.parse] that rejects
    every text. *)
Definition never_throws (w : nat) (f : frame) : bool := false.
Definition no_json (text : string) : option value := None.

Definition socket1 : Ws := mkWs 1 (AttWsid "1000000001").
Definition socket2 : Ws := mkWs 2 (AttWsid "1000000002").

(** A client as [onConnect] leaves it at time 0, and the same client after
    a [key] command with the key ["K1"]. *)
Definition fresh1 : Client.t :=
  Client.mk 1 "1000000001" "" (VStr "") None None VNull VNull false None
            "10.0.0.1" 0 0 false false.
Definition keyed1 : Client.t := Client.set_onlineKey (VStr "K1") fresh1.

(** Lobbies with that single client. *)
Definition lobby_fresh : State :=
  mkState [] [] [("1000000001", 0%nat)] [] [] [] [fresh1] [] [].
Definition lobby_keyed : State :=
  mkState [] [] [("1000000001", 0%nat)] [] [] [] [keyed1] [] [].

(** A lobby that has banned one address. *)
Definition lobby_banning : State :=
  mkState [] [] [] [] ["6.6.6.6"] [] [] [] [].

(** An owner with a published room, a guest relayed by it and a third
    client in the lobby. *)
Definition owner1 : Client.t :=
  Client.mk 1 "1000000001" "Alice" (VStr "av1") (Some 0%nat) None VUndef
            (VStr "K1") false None "10.0.0.1" 0 0 false false.
Definition guest2 : Client.t :=
  Client.mk 2 "1000000002" "Bob" (VStr "av2") (Some 0%nat) (Some 0%nat) VUndef
            VNull false None "10.0.0.2" 0 0 false false.
Definition idle3 : Client.t :=
  Client.mk 3 "1000000003" "" (VStr "") None None VNull VNull false None
            "10.0.0.3" 0 0 false false.
Definition room_K1 : Room.t :=
  Room.mk (Some 0%nat) (VStr "K1") (VObj [("mode", VStr "identity")]) false
          VUndef.
Definition lobby_playing : State :=
  mkState [0%nat] []
          [("1000000001", 0%nat); ("1000000002", 1%nat); ("1000000003", 2%nat)]
          [] [] [] [owner1; guest2; idle3] [room_K1] [].

(** The same owner with a room whose config is not published yet, and a
    second client still in the lobby. *)
Definition room_unpublished : Room.t :=
  Room.mk (Some 0%nat) (VStr "K1") VUndef false VUndef.
Definition visitor2 : Client.t :=
  Client.mk 2 "1000000002" "" (VStr "") None None VNull VNull false None
            "10.0.0.2" 0 0 false false.
Definition lobby_unpublished : State :=
  mkState [0%nat] [] [("1000000001", 0%nat); ("1000000002", 1%nat)] [] [] []
          [owner1; visitor2] [room_unpublished] [].

(** A directory with one free slot, a relay host and a claimant. *)
Definition room_free : Room.t :=
  Room.mk None (VStr "slot0") VUndef false VUndef.
Definition host1 : Client.t :=
  Client.mk 1 "1000000001" "" (VStr "") None None VNull VNull false None
            "10.0.0.1" 0 0 false false.
Definition lobby_free_slot : State :=
  mkState [0%nat] [] [("1000000001", 0%nat); ("1000000002", 1%nat)] [] [] []
          [host1; visitor2] [room_free] [].

(** A directory with a published room and a servermode room whose owner
    has a pending handoff target, the claimant. *)
Definition claimant2 : Client.t :=
  Client.mk 2 "1000000002" "Bob" (VStr "av2") (Some 1%nat) None VUndef VNull
            false None "10.0.0.2" 0 0 false false.
Definition relay3 : Client.t :=
  Client.mk 3 "1000000003" "Bob" (VStr "av2") (Some 1%nat) None VNull VNull
            true (Some 1%nat) "10.0.0.3" 0 0 false false.
Definition room_claimed : Room.t :=
  Room.mk (Some 2%nat) (VStr "slot1") (VObj [("mode", VStr "guozhan")]) true
          VUndef.
Definition lobby_handoff : State :=
  mkState [0%nat; 1%nat] []
          [("1000000001", 0%nat); ("1000000002", 1%nat); ("1000000003", 2%nat)]
          [] [] [] [owner1; claimant2; relay3] [room_K1; room_claimed] [].

(** The socket of the third client of [lobby_playing]. *)
Definition socket3 : Ws := mkWs 3 (AttWsid "1000000003").


(** The frame [["server","events"]] and a [JSON.parse] for a host that
    is only ever given this text. *)
Definition quote : string := String (Ascii.ascii_of_nat 34) EmptyString.

Definition events_frame : string :=
  "[" +:+ quote +:+ "server" +:+ quote +:+ "," +:+ quote +:+ "events"
      +:+ quote +:+ "]".

Definition parse_events_frame (text : string) : option value :=
  if String.eqb text events_frame
  then Some (VArr [VStr "server"; VStr "events"]) else None.

(** ** Vocabulary of the statements *)

(** A room store with the scratch counters blanked. *)
Definition erase_nums (h : list Room.t) : list Room.t :=
  Room.set_num VUndef <$> h.

(** [quiet st st']: [st'] differs from [st] at most by appended effects
    and by scratch counters on room objects. *)
Definition quiet (st st' : State) : Prop :=
  rooms st' = rooms st /\ events st' = events st /\
  clients st' = clients st /\ bannedKeys st' = bannedKeys st /\
  bannedIps st' = bannedIps st /\ bannedKeyWords st' = bannedKeyWords st /\
  cheap st' = cheap st /\ erase_nums (rheap st') = erase_nums (rheap st) /\
  out st `prefix_of` out st'.

(** The effects of one [sendl(client, ...args)]. *)
Definition sendl_effects (a : caddr) (args : list value) (st : State)
  : list effect :=
  match cheap st !! a with
  | Some c =>
      Send (Client.ws c) (FJson args)
      :: (if send_throws (Client.ws c)
             (FJson args)
          then [Close (Client.ws c)] else [])
  | None => []
  end.

(** The registered clients counted as live members of room [r]. *)
Definition is_member (st : State) (r : raddr) (entry : string * caddr)
  : bool :=
  match cheap st !! entry.2 with
  | Some c => bool_decide (Client.room c = Some r)
              && negb (Client.servermode c)
  | None => false
  end.

Definition liveMemberCount (st : State) (r : raddr) : Z :=
  Z.of_nat (length (List.filter (is_member st r) (clients st))).

(** The effects appended between two states. *)
Definition news (st st' : State) : list effect :=
  drop (length (out st)) (out st').


(** [keeps p st st']: the client objects of [st'] are those of [st] as
    far as the projection [p] can tell. *)
Definition keeps {A} (p : Client.t -> A) (st st' : State) : Prop :=
  p <$> cheap st' = p <$> cheap st.

(** A projection that the fields written by the command handlers do not
    reach. *)
Definition handler_stable {A} (p : Client.t -> A) : Prop :=
  (forall x c, p (Client.set_nickname x c) = p c) /\
  (forall x c, p (Client.set_avatar x c) = p c) /\
  (forall x c, p (Client.set_room x c) = p c) /\
  (forall x c, p (Client.set_owner x c) = p c) /\
  (forall x c, p (Client.set_status x c) = p c) /\
  (forall x c, p (Client.set_onlineKey x c) = p c) /\
  (forall x c, p (Client.set_servermode x c) = p c) /\
  (forall x c, p (Client.set_onconfig x c) = p c).

(** The common shape of the loops that send one message to the
    registered clients selected by a test on the client object. *)
Definition notify (sel : caddr -> Client.t -> bool) (args : list value)
           (s : State) (entry : string * caddr) : State :=
  match cheap s !! entry.2 with
  | Some c => if sel entry.2 c then sendl entry.2 args s else s
  | None => s
  end.

(** [emits P st st']: the effects appended between the two states all
    satisfy [P]. *)
Definition emits (P : effect -> Prop) (st st' : State) : Prop :=
  exists evs, out st' = out st ++ evs /\ Forall P evs.

(** An effect other than an [onconnection] message. *)
Definition not_onconnection (e : effect) : Prop :=
  forall w x, e <> Send w (FJson (VStr "onconnection" :: x)).

(** The tuple of a listed room, with the member count taken from the
    registry. *)
Definition listed_entry (st : State) (r : raddr) (R : Room.t) (o : caddr)
  : value :=
  match cheap st !! o with
  | Some oc =>
      VArr [VStr (Client.nickname oc); Client.avatar oc; Room.config R;
            VNum (liveMemberCount st r); Room.key R]
  | None =>
      VArr [VUndef; VUndef; Room.config R; VNum (liveMemberCount st r);
            Room.key R]
  end.

(** The listing rule: a room in servermode is the marker ["server"] at
    its own index; any other room is appended as its tuple when it has an
    owner and a truthy config, and is left out otherwise. *)
Definition listing_step (st : State) (i : nat) (r : raddr)
           (acc : list value) : list value :=
  match rheap st !! r with
  | Some R =>
      if Room.servermode R then array_set i (VStr "server") acc
      else match Room.owner R with
           | Some o => if truthy (Room.config R)
                       then acc ++ [listed_entry st r R o] else acc
           | None => acc
           end
  | None => acc
  end.

(** The rule applied to the rooms from index [i] on. *)
Fixpoint listing_from (st : State) (i : nat) (rs : list raddr)
         (acc : list value) : list value :=
  match rs with
  | [] => acc
  | r :: rs' => listing_from st (S i) rs' (listing_step st i r acc)
  end.

(** The listing of the whole directory. *)
Definition listing (st : State) : list value :=
  listing_from st 0 (rooms st) [].

(** [room._num++] repeated. *)
Fixpoint incr_times (k : nat) (R : Room.t) : Room.t :=
  match k with
  | O => R
  | S k' => incr_times k' (Room.incr_num R)
  end.

(** ** The lobby as a state machine *)

(** The calls that the host makes on the object once it is constructed:
    an upgraded request ([fetch] calling [onConnect]), an inbound frame,
    a close or error event, and the alarm. *)
Inductive call : Type :=
  | Connect (now : Z) (wsid : string) (ws : Ws) (clientIp : string)
  | Message (now : Z) (fresh_id : string) (ws : Ws) (message : string)
  | Closed (ws : Ws)
  | Alarm (now : Z) (sockets : list Ws) (remaining : nat).

Definition handle (st : State) (c : call) : State :=
  match c with
  | Connect now wsid ws clientIp => onConnect now wsid ws clientIp st
  | Message now fresh_id ws message =>
      webSocketMessage now fresh_id ws message st
  | Closed ws => handleClose ws st
  | Alarm now sockets remaining => alarm now sockets remaining st
  end.

(** The state of an object constructed over the sockets [lingering] after
    the calls [calls]. *)
Definition run (lingering : list Ws) (calls : list call) : State :=
  foldl handle (construct lingering) calls.

(** [evolves R q st st']: the part [q] of the state moves along [R]. *)
Definition evolves {A} (R : relation A) (q : State -> A) (st st' : State)
  : Prop :=
  R (q st) (q st').

(** The directory and the room objects, scratch counters apart. *)
Definition directory (st : State) : list raddr * list Room.t :=
  (rooms st, erase_nums (rheap st)).

(** Every room of the directory has an owner and is not in servermode. *)
Definition rooms_owned (st : State) : Prop :=
  forall r, r ∈ rooms st ->
    exists R o, rheap st !! r = Some R /\ Room.owner R = Some o /\
                Room.servermode R = false.

(** The registry holds each id once and each client object once, and the
    object registered under an id carries that id. *)
Definition registry_wf (st : State) : Prop :=
  NoDup (clients st).*1 /\ NoDup (clients st).*2 /\
  forall k a, (k, a) ∈ clients st ->
    exists c, cheap st !! a = Some c /\ Client.wsid c = k.

(** The lists of banned keys and of banned keywords. *)
Definition ban_rules (st : State) : list value * list string :=
  (bannedKeys st, bannedKeyWords st).

(** The writes that the entry points make on a client object outside the
    command table: the liveness stamps and the sweep's mark. *)
Inductive stamp : (Client.t -> Client.t) -> Prop :=
  | stamp_lastActivity now : stamp (Client.set_lastActivity now)
  | stamp_beatWaiting b : stamp (Client.set_beatWaiting b)
  | stamp_banned b : stamp (Client.set_banned b).

(** The registry together with the id carried by every client object. *)
Definition identities (st : State) : list (string * caddr) * list string :=
  (clients st, Client.wsid <$> cheap st).

(** An event record whose member list is a non-empty array. *)
Definition has_members (e : value) : Prop :=
  exists m ms, prop_field e "members" = VArr (m :: ms).

(** At most twenty events are stored, each with a non-empty member list. *)
Definition events_wf (st : State) : Prop :=
  (length (events st) <= 20)%nat /\ Forall has_members (events st).

(** The socket that an effect acts on. *)
Definition on_socket (e : effect) : option nat :=
  match e with
  | Send w _ | Close w | CloseWith w _ _ | Attach w _ => Some w
  | ScheduleAlarm _ | SetAlarm _ => None
  end.

(** A client object with the two marks of the sweep blanked. *)
Definition unmarked (c : Client.t) : Client.t :=
  Client.set_banned false (Client.set_beatWaiting false c).

(** An effect other than the scheduling of the next sweep. *)
Definition not_rescheduling (e : effect) : Prop :=
  forall t, e <> SetAlarm t.


(** The tuple under which a room is listed, if it is: the room has an
    owner and a truthy config. *)
Definition published (st : State) (r : raddr) : option value :=
  match rheap st !! r with
  | Some R =>
      match Room.owner R with
      | Some o => if truthy (Room.config R)
                  then Some (listed_entry st r R o) else None
      | None => None
      end
  | None => None
  end.

(** The directory holds distinct rooms, each with an owner and not in
    servermode. *)
Definition directory_wf (st : State) : Prop :=
  NoDup (rooms st) /\ rooms_owned st.




(** The links between client and room objects: for a room its owner and
    its servermode flag, for a client its room, its owner and its pending
    handoff target. *)
Definition room_link (R : Room.t) : option caddr * bool :=
  (Room.owner R, Room.servermode R).

Definition client_link (c : Client.t)
  : option raddr * option caddr * option caddr :=
  (Client.room c, Client.owner c, Client._onconfig c).

Definition links (st : State)
  : list (option caddr * bool)
    * list (option raddr * option caddr * option caddr) :=
  (room_link <$> rheap st, client_link <$> cheap st).

(** The links are consistent: every room object has an owner that exists
    and is not in servermode; the room of a client exists; the owner of a
    client is the owner of the room the client is in; no handoff is
    pending. *)
Definition links_ok
           (l : list (option caddr * bool)
                * list (option raddr * option caddr * option caddr)) : Prop :=
  (forall r o s, l.1 !! r = Some (o, s) ->
     s = false /\ exists a, o = Some a /\ is_Some (l.2 !! a)) /\
  (forall b r ow oc, l.2 !! b = Some (Some r, ow, oc) -> is_Some (l.1 !! r)) /\
  (forall b rm o oc, l.2 !! b = Some (rm, Some o, oc) ->
     exists r s, rm = Some r /\ l.1 !! r = Some (Some o, s)) /\
  (forall b rm ow oc, l.2 !! b = Some (rm, ow, oc) -> oc = None).

Definition links_wf (st : State) : Prop := links_ok (links st).

(** The changes that the commands make to the links of a client. *)
Definition enter_room (r : raddr)
           (x : option raddr * option caddr * option caddr)
  : option raddr * option caddr * option caddr :=
  (Some r, x.1.2, x.2).

Definition follow (o : caddr)
           (x : option raddr * option caddr * option caddr)
  : option raddr * option caddr * option caddr :=
  (x.1.1, Some o, x.2).

(** A short session: a client authenticates with the key ["K1"], creates
    a room and publishes an empty config; a second client connects and
    enters the room.  [parse_session] is a [JSON.parse] for a host that is
    only ever given the four frames of this session. *)
Definition quoted (s : string) : string := quote +:+ s +:+ quote.

Definition key_frame : string :=
  "[" +:+ quoted "server" +:+ "," +:+ quoted "key" +:+ ",["
      +:+ quoted "K1" +:+ "]]".

Definition create_frame : string :=
  "[" +:+ quoted "server" +:+ "," +:+ quoted "create" +:+ ","
      +:+ quoted "K1" +:+ "," +:+ quoted "Alice" +:+ "," +:+ quoted "av1"
      +:+ "]".

Definition config_frame : string :=
  "[" +:+ quoted "server" +:+ "," +:+ quoted "config" +:+ ",{}]".

Definition enter_frame : string :=
  "[" +:+ quoted "server" +:+ "," +:+ quoted "enter" +:+ ","
      +:+ quoted "K1" +:+ "," +:+ quoted "Bob" +:+ "," +:+ quoted "av2"
      +:+ "]".

Definition parse_session (text : string) : option value :=
  if String.eqb text key_frame then
    Some (VArr [VStr "server"; VStr "key"; VArr [VStr "K1"]])
  else if String.eqb text create_frame then
    Some (VArr [VStr "server"; VStr "create"; VStr "K1"; VStr "Alice";
                VStr "av1"])
  else if String.eqb text config_frame then
    Some (VArr [VStr "server"; VStr "config"; VObj []])
  else if String.eqb text enter_frame then
    Some (VArr [VStr "server"; VStr "enter"; VStr "K1"; VStr "Bob";
                VStr "av2"])
  else None.

Definition session_calls : list call :=
  [Connect 0 "1000000001" socket1 "10.0.0.1";
   Message 1 "1000000011" socket1 key_frame;
   Message 2 "1000000012" socket1 create_frame;
   Message 3 "1000000013" socket1 config_frame;
   Connect 4 "1000000002" socket2 "10.0.0.2";
   Message 5 "1000000015" socket2 enter_frame].

(** The second client at the end of the session. *)
Definition guest_entered : Client.t :=
  Client.mk 2 "1000000002" "Bob" (VStr "av2") (Some 0%nat) (Some 0%nat) VUndef
            VNull false None "10.0.0.2" 4 5 false false.

(** What the third loop of [getroomlist] sends at room [r]: [reloadroom]
    to the owner when the room is listed and counts no member, followed by
    the close of a failed send. *)
Definition reload_effects (st : State) (r : raddr) : list effect :=
  match rheap st !! r with
  | Some R =>
      if Room.servermode R then []
      else
        match Room.owner R with
        | Some o =>
            if truthy (Room.config R) && (liveMemberCount st r =? 0)%Z
            then sendl_effects o [VStr "reloadroom"] st
            else []
        | None => []
        end
  | None => []
  end.

(** ** Properties *)

(** *** Sends and broadcasts change nothing but the trace *)

Lemma sendl_eq a args st :
  sendl a args st = set_out (out st ++ sendl_effects a args st) st.
Proof.
  unfold sendl, sendl_effects, try_send, closeClient, emit.
  destruct st as [rs ev cl bk bi bw ch rh o]; simpl.
  destruct (ch !! a) as [c|] eqn:Hc; simpl.
  - destruct (send_throws _ _); simpl; [|done].
    unfold set_out; simpl. rewrite ?Hc. simpl. by rewrite <- app_assoc.
  - by rewrite app_nil_r.
Qed.

Lemma quiet_refl st : quiet st st.
Proof. by repeat split. Qed.

Lemma quiet_trans st1 st2 st3 : quiet st1 st2 -> quiet st2 st3 -> quiet st1 st3.
Proof.
  unfold quiet. intros (?&?&?&?&?&?&?&?&?) (?&?&?&?&?&?&?&?&?).
  repeat split; try congruence. by etrans.
Qed.

Lemma quiet_emit e st : quiet st (emit e st).
Proof. repeat split. simpl. by apply prefix_app_r. Qed.

Lemma quiet_sendl a args st : quiet st (sendl a args st).
Proof. rewrite sendl_eq. repeat split. simpl. by apply prefix_app_r. Qed.

Lemma quiet_closeClient a st : quiet st (closeClient a st).
Proof.
  unfold closeClient. destruct (cheap st !! a); [apply quiet_emit | apply quiet_refl].
Qed.

Lemma quiet_foldl {A} (f : State -> A -> State) (l : list A) :
  (forall s x, quiet s (f s x)) -> forall st, quiet st (foldl f st l).
Proof.
  intros Hf. induction l as [|x l IH]; intros st; simpl.
  - apply quiet_refl.
  - eapply quiet_trans; [apply Hf | apply IH].
Qed.

Lemma erase_nums_alter_num h r f :
  (forall R, Room.set_num VUndef (f R) = Room.set_num VUndef R) ->
  erase_nums (alter f r h) = erase_nums h.
Proof.
  intros Hf. unfold erase_nums. revert r.
  induction h as [|R h IH]; intros [|r]; simpl; try done.
  - by rewrite Hf.
  - f_equal. apply IH.
Qed.

Lemma quiet_upd_num r f st :
  (forall R, Room.set_num VUndef (f R) = Room.set_num VUndef R) ->
  quiet st (upd_room r f st).
Proof.
  intros Hf. repeat split; simpl; [by apply erase_nums_alter_num | done].
Qed.

Lemma quiet_reset_nums st : quiet st (reset_nums st).
Proof.
  unfold reset_nums. apply quiet_foldl. intros s r.
  by apply quiet_upd_num.
Qed.

Lemma quiet_count_members st : quiet st (count_members st).
Proof.
  unfold count_members. apply quiet_foldl. intros s [w a]. unfold count_step.
  simpl. destruct (cheap s !! a) as [c|]; [|apply quiet_refl].
  destruct (Client.room c); [|apply quiet_refl].
  destruct (Client.servermode c); [apply quiet_refl|].
  apply quiet_upd_num. by intros [].
Qed.

Lemma quiet_roomlist_loop rs : forall i roomlist st,
  quiet st (roomlist_loop i rs roomlist st).2.
Proof.
  induction rs as [|r rs IH]; intros i roomlist st; simpl.
  - apply quiet_refl.
  - destruct (rheap st !! r) as [R|]; [|apply IH].
    destruct (Room.servermode R).
    + eapply quiet_trans; [|apply IH]. by apply quiet_upd_num.
    + destruct (Room.owner R) as [o|].
      * destruct (truthy (Room.config R)).
        -- eapply quiet_trans; [|apply IH].
           eapply quiet_trans; [|by apply quiet_upd_num].
           destruct (strict_eq _ _); [apply quiet_sendl | apply quiet_refl].
        -- eapply quiet_trans; [|apply IH]. by apply quiet_upd_num.
      * eapply quiet_trans; [|apply IH]. by apply quiet_upd_num.
Qed.

Lemma quiet_getroomlist st : quiet st (getroomlist st).2.
Proof.
  unfold getroomlist.
  eapply quiet_trans; [apply quiet_reset_nums|].
  eapply quiet_trans; [apply quiet_count_members|].
  apply quiet_roomlist_loop.
Qed.

Lemma quiet_broadcast_lobby args st : quiet st (broadcast_lobby args st).
Proof.
  unfold broadcast_lobby. apply quiet_foldl. intros s [w a].
  unfold lobby_step. simpl. destruct (cheap s !! a) as [c|]; [|apply quiet_refl].
  destruct (Client.room c); [apply quiet_refl | apply quiet_sendl].
Qed.

Lemma quiet_updaterooms st : quiet st (updaterooms st).
Proof.
  unfold updaterooms. pose proof (quiet_getroomlist st) as H.
  destruct (getroomlist st) as [roomlist st1]. simpl in H.
  eapply quiet_trans; [apply H | apply quiet_broadcast_lobby].
Qed.

Lemma quiet_updateclients st : quiet st (updateclients st).
Proof. apply quiet_broadcast_lobby. Qed.

(** *** Reading and writing stored objects *)

Lemma upd_client_lookup a f st :
  cheap (upd_client a f st) !! a = f <$> cheap st !! a.
Proof. apply list_lookup_alter_eq. Qed.

Lemma upd_client_lookup_ne a b f st :
  a <> b -> cheap (upd_client a f st) !! b = cheap st !! b.
Proof. intros. by apply list_lookup_alter_ne. Qed.

Lemma upd_room_lookup r f st :
  rheap (upd_room r f st) !! r = f <$> rheap st !! r.
Proof. apply list_lookup_alter_eq. Qed.

Lemma upd_room_lookup_ne r q f st :
  r <> q -> rheap (upd_room r f st) !! q = rheap st !! q.
Proof. intros. by apply list_lookup_alter_ne. Qed.

(** *** Room creation *)


(** *** Connecting *)

Lemma map_get_set k a m : map_get k (map_set k a m) = Some a.
Proof.
  induction m as [|[k' b] m IH]; simpl.
  - by rewrite String.eqb_refl.
  - destruct (String.eqb k k') eqn:E; simpl; rewrite E; [done | apply IH].
Qed.

Lemma map_set_absent k a m :
  map_get k m = None -> map_set k a m = m ++ [(k, a)].
Proof.
  induction m as [|[k' b] m IH]; simpl; [done|].
  destruct (String.eqb k k'); [done|]. intros H. by rewrite IH.
Qed.

(** C5 (amended). A connection from a banned IP is sent
    [denied, "banned"] and is closed, and no [roomlist] snapshot is sent
    on it: beyond the attachment, the effects of [onConnect] are that one
    reply and the closing of the socket. *)
Theorem banned_ip_denied_and_closed now wsid ws clientIp st :
  clientIp ∈ bannedIps st ->
  let st' := onConnect now wsid ws clientIp st in
  out st' =
    out st ++ [Attach (ws_id ws) wsid;
               Send (ws_id ws) (FJson [VStr "denied"; VStr "banned"])]
           ++ (if send_throws (ws_id ws)
                  (FJson [VStr "denied"; VStr "banned"])
               then [Close (ws_id ws)] else [])
           ++ [Close (ws_id ws)] /\
  (forall w args,
     Send w (FJson (VStr "roomlist" :: args)) ∉ drop (length (out st)) (out st')).
Proof.
  clear JSON_parse. intros Hban st'.
  assert (Hout : out st' =
    out st ++ [Attach (ws_id ws) wsid;
               Send (ws_id ws) (FJson [VStr "denied"; VStr "banned"])]
           ++ (if send_throws (ws_id ws)
                  (FJson [VStr "denied"; VStr "banned"])
               then [Close (ws_id ws)] else [])
           ++ [Close (ws_id ws)]).
  { subst st'. unfold onConnect. simpl.
    rewrite bool_decide_eq_true_2 by done.
    rewrite sendl_eq. simpl. unfold sendl_effects. simpl.
    rewrite lookup_app_r by done. rewrite Nat.sub_diag. simpl.
    rewrite <- !app_assoc. simpl. done. }
  split; [done|].
  intros w args. rewrite Hout, drop_app_length.
  rewrite !elem_of_app, !elem_of_cons, elem_of_nil.
  destruct (send_throws _ _);
    rewrite ?elem_of_cons, ?elem_of_nil; intuition discriminate.
Qed.

(** *** Resolving the session of an inbound message *)

(** C1 (amended).  In the rehydrating iteration the head of
    [webSocketMessage] binds a registered client in every case: when the
    attachment's id has no live session, a minimal client built from the
    attachment is appended to the store and registered under that id;
    when it has one, that session is returned and the registry and the
    store are left as they are.  The lobby object of [index.js] does not
    rebuild sessions: a message on a socket whose id has no live session
    is dropped with the state unchanged. *)
Theorem rehydration_only_when_absent :
  (forall ws meta reg,
     let res := Hibernation.webSocketMessage_client ws meta reg in
     map_get (Hibernation.meta_wsid meta) (Hibernation.clients res.2)
       = Some res.1 /\
     (map_get (Hibernation.meta_wsid meta) (Hibernation.clients reg) = None ->
        res.1 = length (Hibernation.cheap reg) /\
        Hibernation.clients res.2 =
          Hibernation.clients reg
            ++ [(Hibernation.meta_wsid meta, length (Hibernation.cheap reg))] /\
        Hibernation.cheap res.2 =
          Hibernation.cheap reg ++ [Hibernation.wrapper ws meta]) /\
     (forall a, map_get (Hibernation.meta_wsid meta) (Hibernation.clients reg)
                  = Some a ->
        res = (a, reg)) /\
     Hibernation.webSocketMessage_client ws meta res.2 = res) /\
  (forall now fresh_id ws message st,
     resolve ws st = None ->
     webSocketMessage now fresh_id ws message st = st).
Proof.
  split.
  - intros ws meta reg res. subst res.
    unfold Hibernation.webSocketMessage_client, Hibernation.createClientWrapper.
    destruct (map_get _ (Hibernation.clients reg)) as [a|] eqn:Hget; simpl.
    + rewrite Hget. repeat split; try done. by intros a' [= ->].
    + rewrite map_get_set. rewrite map_set_absent by done.
      repeat split; done.
  - intros now fresh_id ws message st Hres.
    unfold webSocketMessage. by rewrite Hres.
Qed.

(** *** The liveness sweep *)

(** One turn of the sweep touches at most the client object of the
    socket's own session. *)
Lemma alarm_socket_frame now st ws :
  let st' := alarm_socket now st ws in
  clients st' = clients st /\ out st `prefix_of` out st' /\
  forall b, resolve ws st <> Some b -> cheap st' !! b = cheap st !! b.
Proof.
  unfold alarm_socket, try_send.
  destruct (resolve ws st) as [a|] eqn:Hres; simpl.
  2: { repeat split; simpl; try done; by apply prefix_app_r. }
  destruct (cheap st !! a) as [c|] eqn:Hc; simpl.
  2: { repeat split; simpl; try done; by apply prefix_app_r. }
  rewrite sendl_eq.
  destruct (_ && _ && _); [|destruct (bool_decide _);
    [destruct (Client.beatWaiting c); [|destruct (send_throws _ _)]|]];
    simpl; repeat split; simpl; try done;
    try (by apply prefix_app_r);
    try (rewrite <- app_assoc; by apply prefix_app_r);
    intros b Hb; apply list_lookup_alter_ne; congruence.
Qed.

Lemma resolve_clients ws st st' :
  clients st' = clients st -> resolve ws st' = resolve ws st.
Proof. unfold resolve. by intros ->. Qed.

(** The turns of the other sockets leave a session as it was. *)
Lemma sweep_frame now (l : list Ws) : forall st,
  let st' := foldl (alarm_socket now) st l in
  clients st' = clients st /\ out st `prefix_of` out st' /\
  forall b, (forall ws', ws' ∈ l -> resolve ws' st <> Some b) ->
            cheap st' !! b = cheap st !! b.
Proof.
  induction l as [|ws l IH]; intros st; simpl; [by repeat split|].
  destruct (alarm_socket_frame now st ws) as (Hcl & Hout & Hch).
  destruct (IH (alarm_socket now st ws)) as (Hcl' & Hout' & Hch').
  repeat split.
  - congruence.
  - by etrans.
  - intros b Hb. rewrite Hch'.
    + apply Hch, Hb. by left.
    + intros ws' Hin. rewrite (resolve_clients _ _ _ Hcl). apply Hb. by right.
Qed.

Lemma alarm_nonempty now pre ws post remaining st :
  alarm now (pre ++ ws :: post) remaining st =
    let st1 := foldl (alarm_socket now) st (pre ++ ws :: post) in
    if bool_decide (0 < remaining)%nat
    then emit (SetAlarm (now + 10 * 1000)) st1 else st1.
Proof. unfold alarm. by destruct pre. Qed.

(** The state in which the sweep reaches a socket, and the state in
    which it leaves it. *)
Lemma sweep_turn now pre ws post remaining st a :
  resolve ws st = Some a ->
  (forall ws', ws' ∈ pre ++ post -> resolve ws' st <> Some a) ->
  let reached := foldl (alarm_socket now) st pre in
  let left := alarm_socket now reached ws in
  let st' := alarm now (pre ++ ws :: post) remaining st in
  resolve ws reached = Some a /\
  cheap reached !! a = cheap st !! a /\
  out st `prefix_of` out reached /\
  out left `prefix_of` out st' /\
  cheap st' !! a = cheap left !! a.
Proof.
  intros Hres Hother reached left st'.
  destruct (sweep_frame now pre st) as (Hcl & Hout & Hch).
  fold reached in Hcl, Hout, Hch.
  destruct (alarm_socket_frame now reached ws) as (Hcl1 & Hout1 & Hch1).
  fold left in Hcl1, Hout1, Hch1.
  destruct (sweep_frame now post left) as (Hcl2 & Hout2 & Hch2).
  assert (Hfold : foldl (alarm_socket now) st (pre ++ ws :: post)
                  = foldl (alarm_socket now) left post).
  { by rewrite foldl_app. }
  assert (Ha : cheap (foldl (alarm_socket now) left post) !! a
               = cheap left !! a).
  { apply Hch2. intros ws' Hin.
    rewrite (resolve_clients _ _ _ Hcl1), (resolve_clients _ _ _ Hcl).
    apply Hother. apply elem_of_app. by right. }
  subst st'. rewrite alarm_nonempty. simpl. rewrite Hfold.
  repeat split.
  - by rewrite (resolve_clients _ _ _ Hcl).
  - apply Hch. intros ws' Hin. apply Hother. apply elem_of_app. by left.
  - done.
  - destruct (bool_decide _); simpl; [|done].
    etrans; [apply Hout2|]. by apply prefix_app_r.
  - by destruct (bool_decide _).
Qed.

(** The turn of a session that the authentication rule catches. *)
Lemma turn_auth_timeout now s ws a c :
  resolve ws s = Some a -> cheap s !! a = Some c ->
  truthy (Client.onlineKey c) = false -> Client.banned c = false ->
  now - Client.connectTime c > 2000 ->
  let s' := alarm_socket now s ws in
  out s' = out s ++ Send (Client.ws c) (FJson [VStr "denied"; VStr "key"])
             :: (if send_throws (Client.ws c)
                    (FJson [VStr "denied"; VStr "key"])
                 then [Close (Client.ws c)] else [])
             ++ [Close (ws_id ws)] /\
  cheap s' !! a = Some (Client.set_banned true c).
Proof.
  intros Hres Hc Hkey Hban Htime. unfold alarm_socket.
  rewrite Hres, Hc, Hkey, Hban. rewrite bool_decide_eq_true_2 by done. simpl.
  rewrite sendl_eq. simpl. unfold sendl_effects. rewrite Hc. split.
  - rewrite <- app_assoc. done.
  - by rewrite list_lookup_alter_eq, Hc.
Qed.

(** The turn of a session that the authentication rule lets pass. *)
Lemma turn_heartbeat now s ws a c :
  resolve ws s = Some a -> cheap s !! a = Some c ->
  truthy (Client.onlineKey c) = true \/ Client.banned c = true
    \/ now - Client.connectTime c <= 2000 ->
  let s' := alarm_socket now s ws in
  (now - Client.lastActivity c <= 60000 -> s' = s) /\
  (now - Client.lastActivity c > 60000 -> Client.beatWaiting c = true ->
     out s' = out s ++ [Close (ws_id ws)] /\ cheap s' = cheap s) /\
  (now - Client.lastActivity c > 60000 -> Client.beatWaiting c = false ->
     out s' = out s ++ Send (ws_id ws) (FText "heartbeat")
                :: (if send_throws (ws_id ws)
                       (FText "heartbeat")
                    then [Close (ws_id ws)] else [])
     /\ cheap s' !! a = Some (Client.set_beatWaiting true c)).
Proof.
  intros Hres Hc Hpass. unfold alarm_socket, try_send. rewrite Hres, Hc.
  assert (negb (truthy (Client.onlineKey c)) && negb (Client.banned c)
          && bool_decide (now - Client.connectTime c > 2000) = false) as ->.
  { destruct Hpass as [-> | [-> | H]]; simpl.
    - done.
    - by rewrite andb_false_r.
    - rewrite bool_decide_eq_false_2 by lia. by rewrite andb_false_r. }
  split; [|split].
  - intros Hact. by rewrite bool_decide_eq_false_2 by lia.
  - intros Hidle Hbeat. rewrite bool_decide_eq_true_2 by done.
    by rewrite Hbeat.
  - intros Hidle Hbeat. rewrite bool_decide_eq_true_2 by done.
    rewrite Hbeat. split.
    + destruct (send_throws _ _); simpl; [|done].
      by rewrite <- app_assoc.
    + destruct (send_throws _ _); simpl;
        by rewrite list_lookup_alter_eq, Hc.
Qed.

(** C3 (amended).  When the sweep reaches the socket of a tracked
    session that has no truthy [onlineKey], has not been marked by an
    earlier sweep and connected more than 2000 ms ago, it sends
    [denied, "key"], marks the session and closes the socket.  A [key]
    command that passes the shape and ban checks stores its key at once,
    and a session whose stored key is truthy is never sent this denial by
    the sweep: its turn is governed by the heartbeat rule alone, and does
    nothing if the session has been active in the last 60000 ms. *)
Theorem auth_timeout_sweep now pre ws post remaining st a c :
  resolve ws st = Some a -> cheap st !! a = Some c ->
  (forall ws', ws' ∈ pre ++ post -> resolve ws' st <> Some a) ->
  let reached := foldl (alarm_socket now) st pre in
  let left := alarm_socket now reached ws in
  let st' := alarm now (pre ++ ws :: post) remaining st in
  out left `prefix_of` out st' /\ cheap st' !! a = cheap left !! a /\
  (truthy (Client.onlineKey c) = false -> Client.banned c = false ->
   now - Client.connectTime c > 2000 ->
     out left =
       out reached ++ Send (Client.ws c) (FJson [VStr "denied"; VStr "key"])
         :: (if send_throws (Client.ws c)
                (FJson [VStr "denied"; VStr "key"])
             then [Close (Client.ws c)] else [])
         ++ [Close (ws_id ws)] /\
     cheap left !! a = Some (Client.set_banned true c)) /\
  (forall id, truthy id = true -> typeof_object id = true ->
     existsb (fun k => strict_eq k (prop_idx id 0)) (bannedKeys st) = false ->
     cheap (messages_key a id st) !! a
       = Some (Client.set_onlineKey (prop_idx id 0) c)) /\
  (truthy (Client.onlineKey c) = true ->
     (forall w, Send w (FJson [VStr "denied"; VStr "key"])
                  ∉ drop (length (out reached)) (out left)) /\
     (now - Client.lastActivity c <= 60000 -> left = reached)).
Proof.
  intros Hres Hc Hother reached left st'.
  destruct (sweep_turn now pre ws post remaining st a Hres Hother)
    as (Hres' & Hc' & _ & Hpre & Hleft).
  fold reached in Hres', Hc'. fold left in Hpre, Hleft. fold st' in Hpre, Hleft.
  rewrite Hc in Hc'.
  split; [done|]. split; [done|]. split; [|split].
  - intros. by apply turn_auth_timeout.
  - intros id Hid Hobj Hnb. unfold messages_key.
    rewrite Hid, Hobj, Hnb. simpl. by rewrite list_lookup_alter_eq, Hc.
  - intros Hkey.
    destruct (turn_heartbeat now reached ws a c Hres' Hc' (or_introl Hkey))
      as (Hquiet & Hclose & Hprobe).
    fold left in Hquiet, Hclose, Hprobe. split; [|done].
    intros w.
    destruct (decide (now - Client.lastActivity c <= 60000)) as [Hact|Hidle].
    + rewrite (Hquiet Hact). rewrite drop_ge by done. apply not_elem_of_nil.
    + destruct (Client.beatWaiting c) eqn:Hbeat.
      * destruct (Hclose ltac:(lia) eq_refl) as [-> _].
        rewrite drop_app_length. rewrite elem_of_cons, elem_of_nil.
        intuition discriminate.
      * destruct (Hprobe ltac:(lia) eq_refl) as [-> _].
        rewrite drop_app_length.
        destruct (send_throws _ _);
          rewrite !elem_of_cons, elem_of_nil; intuition discriminate.
Qed.

(** *** What the command handlers leave alone *)

Section Keeps.
Context {A : Type} (p : Client.t -> A).

Lemma keeps_refl st : keeps p st st.
Proof. done. Qed.

Lemma keeps_trans st1 st2 st3 :
  keeps p st1 st2 -> keeps p st2 st3 -> keeps p st1 st3.
Proof. unfold keeps. congruence. Qed.

Lemma keeps_same_cheap st st' : cheap st' = cheap st -> keeps p st st'.
Proof. unfold keeps. by intros ->. Qed.

Lemma keeps_quiet st st' : quiet st st' -> keeps p st st'.
Proof. intros (?&?&?&?&?&?&?&?&?). by apply keeps_same_cheap. Qed.

Lemma keeps_upd_client a f st :
  (forall c, p (f c) = p c) -> keeps p st (upd_client a f st).
Proof.
  intros Hf. unfold keeps, upd_client. simpl. generalize (cheap st).
  intros h. revert a. induction h as [|c h IH]; intros [|a]; simpl; try done.
  - by rewrite Hf.
  - f_equal. apply IH.
Qed.

Lemma keeps_updateevents time st : keeps p st (updateevents time st).
Proof.
  unfold updateevents. eapply keeps_trans; [|apply keeps_quiet, quiet_broadcast_lobby].
  by apply keeps_same_cheap.
Qed.
End Keeps.

Ltac keeps_via t tac := apply (keeps_trans _ _ t); [|tac].

Ltac keeps_step :=
  match goal with
  | |- keeps _ ?s ?s => apply keeps_refl
  | |- keeps _ _ (sendl _ _ ?t) =>
      keeps_via t ltac:(apply keeps_quiet, quiet_sendl)
  | |- keeps _ _ (closeClient _ ?t) =>
      keeps_via t ltac:(apply keeps_quiet, quiet_closeClient)
  | |- keeps _ _ (updaterooms ?t) =>
      keeps_via t ltac:(apply keeps_quiet, quiet_updaterooms)
  | |- keeps _ _ (updateclients ?t) =>
      keeps_via t ltac:(apply keeps_quiet, quiet_updateclients)
  | |- keeps _ _ (updateevents _ ?t) =>
      keeps_via t ltac:(apply keeps_updateevents)
  | |- keeps _ _ (emit _ ?t) =>
      keeps_via t ltac:(apply keeps_quiet, quiet_emit)
  | |- keeps _ _ (upd_client _ _ ?t) =>
      keeps_via t ltac:(apply keeps_upd_client; intros; unfold set_identity;
                        simpl; by repeat match goal with
                                         | H : _ |- _ => rewrite H
                                         end)
  | |- keeps _ _ (upd_room _ _ ?t) =>
      keeps_via t ltac:(by apply keeps_same_cheap)
  | |- keeps _ _ (set_rooms _ ?t) =>
      keeps_via t ltac:(by apply keeps_same_cheap)
  | |- keeps _ _ (set_rheap _ ?t) =>
      keeps_via t ltac:(by apply keeps_same_cheap)
  | |- keeps _ _ (set_events _ ?t) =>
      keeps_via t ltac:(by apply keeps_same_cheap)
  | |- keeps _ _ (set_bannedIps _ ?t) =>
      keeps_via t ltac:(by apply keeps_same_cheap)
  | |- keeps _ _ (match (if ?b then _ else _) with _ => _ end) =>
      destruct b eqn:?
  | |- keeps _ _ (match (match ?x with _ => _ end) with _ => _ end) =>
      destruct x eqn:?
  | |- keeps _ _ (if ?b then _ else _) => destruct b eqn:?
  | |- keeps _ _ (match ?x with _ => _ end) => destruct x eqn:?
  end.

Lemma keeps_dispatch {A} (p : Client.t -> A) time fresh_id a type args st :
  handler_stable p -> keeps p st (dispatch time fresh_id a type args st).
Proof.
  intros (Hn & Hav & Hr & Ho & Hs & Hk & Hsm & Hoc).
  unfold dispatch.
  repeat (destruct (String.eqb _ _); [|]).
  all: unfold messages_create, messages_enter, messages_changeAvatar,
    messages_server, messages_key, messages_events, messages_config,
    messages_status, messages_send, messages_close, try_send.
  all: cbv zeta.
  all: repeat keeps_step.
Qed.





(** *** New effects *)

Lemma news_prefix st st' :
  out st `prefix_of` out st' -> out st' = out st ++ news st st'.
Proof. intros [k Hk]. unfold news. rewrite Hk. by rewrite drop_app_length. Qed.

Lemma news_trans st s st' :
  out st `prefix_of` out s -> out s `prefix_of` out st' ->
  news st st' = news st s ++ news s st'.
Proof.
  intros [k Hk] [k' Hk']. unfold news. rewrite Hk', Hk.
  rewrite (drop_app_length (out st ++ k) k').
  by rewrite <- app_assoc, !drop_app_length.
Qed.

Lemma news_refl st : news st st = [].
Proof. unfold news. by rewrite drop_ge. Qed.

Lemma quiet_prefix st st' : quiet st st' -> out st `prefix_of` out st'.
Proof. by intros (?&?&?&?&?&?&?&?&?). Qed.

Lemma quiet_cheap st st' : quiet st st' -> cheap st' = cheap st.
Proof. by intros (?&?&?&?&?&?&?&?&?). Qed.

Lemma quiet_clients st st' : quiet st st' -> clients st' = clients st.
Proof. by intros (?&?&?&?&?&?&?&?&?). Qed.

Lemma quiet_rooms st st' : quiet st st' -> rooms st' = rooms st.
Proof. by intros (?&?&?&?&?&?&?&?&?). Qed.

Lemma quiet_rheap st st' :
  quiet st st' -> erase_nums (rheap st') = erase_nums (rheap st).
Proof. by intros (?&?&?&?&?&?&?&?&?). Qed.

Lemma news_sendl a args st :
  news st (sendl a args st) = sendl_effects a args st.
Proof. rewrite sendl_eq. unfold news. simpl. by rewrite drop_app_length. Qed.

(** *** Claiming a slot by index *)


(** *** Entering a room *)

Lemma is_claim_upd_client a f st R o config mode :
  (forall c, Client._onconfig (f c) = Client._onconfig c) ->
  is_claim (upd_client a f st) R o config mode = is_claim st R o config mode.
Proof.
  intros Hf. unfold is_claim. simpl.
  destruct (decide (a = o)) as [->|Hne].
  - rewrite list_lookup_alter_eq. destruct (cheap st !! o); simpl; [|done].
    by rewrite Hf.
  - by rewrite list_lookup_alter_ne.
Qed.

(** C10.  An [enter] whose key matches an existing room sets the
    caller's room to it and clears the status before the admission
    checks; when the call is then refused with [enterroomfailed] (no
    config, or a started game without observation enabled and ready), the
    caller keeps that room while its owner link is untouched, so that it
    is counted among the room's live members (if registered and not in
    servermode) and is skipped by every lobby-only broadcast. *)
Theorem failed_enter_keeps_room a key nickname avatar config mode st c r R o :
  cheap st !! a = Some c ->
  find_room key st = Some r -> rheap st !! r = Some R ->
  Room.owner R = Some o ->
  is_claim st R o config mode = false ->
  not_enterable (Room.config R) = true ->
  let st' := messages_enter a key nickname avatar config mode st in
  let c' := Client.set_status VUndef
              (Client.set_room (Some r) (set_identity nickname avatar c)) in
  cheap st' !! a = Some c' /\
  Client.room c' = Some r /\ Client.status c' = VUndef /\
  Client.owner c' = Client.owner c /\
  (forall b, b <> a -> cheap st' !! b = cheap st !! b) /\
  clients st' = clients st /\ rooms st' = rooms st /\
  (out st ++ Send (Client.ws c) (FJson [VStr "enterroomfailed"])
          :: (if send_throws (Client.ws c)
                 (FJson [VStr "enterroomfailed"])
              then [Close (Client.ws c)] else []))
    `prefix_of` out st' /\
  (forall w, (w, a) ∈ clients st -> Client.servermode c = false ->
             (w, a) ∈ List.filter (is_member st' r) (clients st')) /\
  (forall args w, lobby_step args st' (w, a) = st').
Proof.
  intros Hc Hfind HR Ho Hclaim Hno st' c'.
  set (st3 := upd_client a (Client.set_status VUndef)
                (upd_client a (Client.set_room (Some r))
                   (upd_client a (set_identity nickname avatar) st))).
  assert (Hst' : st' = updaterooms (sendl a [VStr "enterroomfailed"] st3)).
  { subst st'. unfold messages_enter.
    change (find_room key (upd_client a (set_identity nickname avatar) st))
      with (find_room key st).
    rewrite Hfind. cbv zeta. fold st3.
    change (rheap st3) with (rheap st). rewrite HR, Ho.
    assert (is_claim st3 R o config mode = false) as ->.
    { unfold st3. by rewrite !is_claim_upd_client. }
    by rewrite Hno. }
  assert (Hq : quiet st3 st').
  { rewrite Hst'. eapply quiet_trans; [apply quiet_sendl | apply quiet_updaterooms]. }
  assert (Hc3 : cheap st3 !! a = Some c').
  { unfold st3. rewrite !upd_client_lookup, Hc. done. }
  assert (Hca : cheap st' !! a = Some c').
  { by rewrite (quiet_cheap _ _ Hq). }
  split; [done|]. split; [done|]. split; [done|]. split; [done|].
  split.
  { intros b Hb. rewrite (quiet_cheap _ _ Hq). unfold st3.
    by rewrite !upd_client_lookup_ne. }
  split; [by rewrite (quiet_clients _ _ Hq)|].
  split; [by rewrite (quiet_rooms _ _ Hq)|].
  split.
  { rewrite Hst'. etrans; [|apply quiet_prefix, quiet_updaterooms].
    rewrite sendl_eq. simpl. unfold sendl_effects. by rewrite Hc3. }
  split.
  { intros w Hin Hsm. rewrite (quiet_clients _ _ Hq).
    change (clients st3) with (clients st).
    apply list_elem_of_In, filter_In. split; [by apply list_elem_of_In|].
    unfold is_member. simpl. rewrite Hca. simpl.
    rewrite bool_decide_eq_true_2 by done. by rewrite Hsm. }
  intros args w. unfold lobby_step. simpl. by rewrite Hca.
Qed.

(** *** Notifications in a loop over the registry *)

Lemma lobby_step_notify args s entry :
  lobby_step args s entry
  = notify (fun _ c => bool_decide (Client.room c = None)) args s entry.
Proof.
  unfold lobby_step, notify. destruct (cheap s !! entry.2) as [c|]; [|done].
  by destruct (Client.room c).
Qed.

Lemma selfclose_step_notify a r s entry :
  selfclose_step a r s entry
  = notify (fun b c => bool_decide (Client.room c = Some r)
                       && negb (bool_decide (b = a)))
           [VStr "selfclose"] s entry.
Proof. done. Qed.

Lemma quiet_notify sel args s entry : quiet s (notify sel args s entry).
Proof.
  unfold notify. destruct (cheap s !! entry.2) as [c|]; [|apply quiet_refl].
  destruct (sel entry.2 c); [apply quiet_sendl | apply quiet_refl].
Qed.

Lemma elem_news_l st s st' e :
  out st `prefix_of` out s -> out s `prefix_of` out st' ->
  e ∈ news st s -> e ∈ news st st'.
Proof.
  intros H1 H2 He. rewrite (news_trans st s st') by done.
  apply elem_of_app. by left.
Qed.

Lemma elem_news_r st s st' e :
  out st `prefix_of` out s -> out s `prefix_of` out st' ->
  e ∈ news s st' -> e ∈ news st st'.
Proof.
  intros H1 H2 He. rewrite (news_trans st s st') by done.
  apply elem_of_app. by right.
Qed.

(** Every selected entry of the list is sent the message. *)
Lemma foldl_notify_reaches sel args (l : list (string * caddr)) :
  forall s w b bc,
    (w, b) ∈ l -> cheap s !! b = Some bc -> sel b bc = true ->
    Send (Client.ws bc) (FJson args) ∈ news s (foldl (notify sel args) s l).
Proof.
  induction l as [|x l IH]; intros s w b bc Hin Hb Hsel; simpl.
  - by apply elem_of_nil in Hin.
  - pose proof (quiet_notify sel args s x) as Hq.
    pose proof (quiet_foldl (notify sel args) l (quiet_notify sel args)
                            (notify sel args s x)) as Hq'.
    apply elem_of_cons in Hin as [<-|Hin].
    + eapply elem_news_l; [by apply quiet_prefix | by apply quiet_prefix |].
      unfold notify. simpl. rewrite Hb, Hsel, news_sendl.
      unfold sendl_effects. rewrite Hb. by left.
    + eapply elem_news_r; [by apply quiet_prefix | by apply quiet_prefix |].
      apply (IH _ w b bc); [done | | done].
      by rewrite (quiet_cheap _ _ Hq).
Qed.

Lemma foldl_pointwise {X Y} (f g : X -> Y -> X) (l : list Y) :
  (forall x y, f x y = g x y) -> forall x, foldl f x l = foldl g x l.
Proof.
  intros Hfg. induction l as [|y l IH]; intros x; simpl; [done|].
  by rewrite Hfg, IH.
Qed.

Lemma broadcast_lobby_reaches args st w b bc :
  (w, b) ∈ clients st -> cheap st !! b = Some bc -> Client.room bc = None ->
  Send (Client.ws bc) (FJson args) ∈ news st (broadcast_lobby args st).
Proof.
  intros Hin Hb Hroom. unfold broadcast_lobby.
  rewrite (foldl_pointwise _ _ _ (lobby_step_notify args)).
  apply (foldl_notify_reaches _ _ _ _ w b bc); [done..|].
  by rewrite bool_decide_eq_true_2.
Qed.

(** *** Disconnecting *)

Lemma erase_nums_lookup h h' r :
  erase_nums h' = erase_nums h ->
  Room.set_num VUndef <$> h' !! r = Room.set_num VUndef <$> h !! r.
Proof. unfold erase_nums. intros H. by rewrite <- !list_lookup_fmap, H. Qed.

Lemma owned_by_quiet st st' a r :
  quiet st st' -> owned_by st' a r = owned_by st a r.
Proof.
  intros Hq. unfold owned_by.
  pose proof (erase_nums_lookup _ _ r (quiet_rheap _ _ Hq)) as H.
  destruct (rheap st' !! r) as [R'|], (rheap st !! r) as [R|]; try done.
  simpl in H. injection H as H. by destruct R', R; simplify_eq/=.
Qed.

Lemma close_rooms_spec a rs : forall st,
  let res := close_rooms a rs st in
  res.1 = List.filter (fun r => negb (owned_by st a r)) rs /\
  quiet st res.2 /\
  forall r w b bc,
    r ∈ rs -> owned_by st a r = true -> (w, b) ∈ clients st ->
    cheap st !! b = Some bc -> Client.room bc = Some r -> b <> a ->
    Send (Client.ws bc) (FJson [VStr "selfclose"]) ∈ news st res.2.
Proof.
  induction rs as [|r rs IH]; intros st; simpl.
  - repeat split; [apply quiet_refl|]. intros r w b bc Hin.
    by apply elem_of_nil in Hin.
  - set (st1 := foldl (selfclose_step a r) st (clients st)).
    assert (Hq1 : quiet st st1).
    { apply quiet_foldl. intros s x. rewrite selfclose_step_notify.
      apply quiet_notify. }
    destruct (owned_by st a r) eqn:Hown; simpl.
    + destruct (IH st1) as (Hkept & Hq & Hsend).
      split; [|split].
      * rewrite Hkept. apply filter_ext. intros q.
        by rewrite (owned_by_quiet _ _ _ _ Hq1).
      * by eapply quiet_trans.
      * intros q w b bc Hin Hq_own Hreg Hb Hroom Hne.
        apply elem_of_cons in Hin as [->|Hin].
        -- eapply elem_news_l; [by apply quiet_prefix..|].
           unfold st1.
           rewrite (foldl_pointwise _ _ _ (selfclose_step_notify a r)).
           apply (foldl_notify_reaches _ _ _ _ w b bc); [done..|].
           rewrite bool_decide_eq_true_2 by done.
           by rewrite bool_decide_eq_false_2.
        -- eapply elem_news_r; [by apply quiet_prefix..|].
           apply (Hsend q w b bc); try done.
           ++ by rewrite (owned_by_quiet _ _ _ _ Hq1).
           ++ by rewrite (quiet_clients _ _ Hq1).
           ++ by rewrite (quiet_cheap _ _ Hq1).
    + destruct (IH st) as (Hkept & Hq & Hsend).
      destruct (close_rooms a rs st) as [kept st2]. simpl in *.
      split; [by rewrite Hkept|]. split; [done|].
      intros q w b bc Hin Hq_own Hreg Hb Hroom Hne.
      apply elem_of_cons in Hin as [->|Hin]; [congruence|].
      by apply (Hsend q w b bc).
Qed.

Lemma updaterooms_reaches st w b bc :
  (w, b) ∈ clients st -> cheap st !! b = Some bc -> Client.room bc = None ->
  exists payload,
    Send (Client.ws bc) (FJson (VStr "updaterooms" :: payload))
      ∈ news st (updaterooms st).
Proof.
  intros Hin Hb Hroom. unfold updaterooms.
  pose proof (quiet_getroomlist st) as Hq.
  destruct (getroomlist st) as [roomlist st1]. simpl in Hq.
  eexists. eapply elem_news_r;
    [by apply quiet_prefix | apply quiet_prefix, quiet_broadcast_lobby |].
  apply (broadcast_lobby_reaches _ _ w b bc); [|by rewrite (quiet_cheap _ _ Hq)|done].
  by rewrite (quiet_clients _ _ Hq).
Qed.

Lemma updateclients_reaches st w b bc :
  (w, b) ∈ clients st -> cheap st !! b = Some bc -> Client.room bc = None ->
  exists payload,
    Send (Client.ws bc) (FJson (VStr "updateclients" :: payload))
      ∈ news st (updateclients st).
Proof.
  intros Hin Hb Hroom. unfold updateclients. eexists.
  by apply (broadcast_lobby_reaches _ _ w b bc).
Qed.

(** C6 (amended).  When a session disconnects, every room it owns is
    removed from the directory and every other registered session whose
    room is one of them is sent [selfclose]; no client object is changed,
    so such a session keeps pointing at the removed room and at its old
    owner until it disconnects itself.  The disconnecting session's owner,
    if any, is sent [onclose] with the session id, the session is removed
    from the registry, and [updaterooms] is broadcast to the lobby if the
    session had a room, else [updateclients]. *)
Theorem owner_disconnect ws st a c :
  resolve ws st = Some a -> cheap st !! a = Some c ->
  let st' := handleClose ws st in
  rooms st' = List.filter (fun r => negb (owned_by st a r)) (rooms st) /\
  clients st' = map_delete (Client.wsid c) (clients st) /\
  cheap st' = cheap st /\
  (forall r w b bc,
     r ∈ rooms st -> owned_by st a r = true -> (w, b) ∈ clients st ->
     cheap st !! b = Some bc -> Client.room bc = Some r -> b <> a ->
     Send (Client.ws bc) (FJson [VStr "selfclose"]) ∈ news st st') /\
  (forall o oc,
     Client.owner c = Some o -> cheap st !! o = Some oc ->
     Send (Client.ws oc) (FJson [VStr "onclose"; VStr (Client.wsid c)])
       ∈ news st st') /\
  (forall w b bc,
     (w, b) ∈ clients st' -> cheap st !! b = Some bc ->
     Client.room bc = None ->
     exists payload,
       Send (Client.ws bc)
            (FJson (VStr (match Client.room c with
                          | Some _ => "updaterooms"
                          | None => "updateclients"
                          end) :: payload)) ∈ news st st').
Proof.
  intros Hres Hc st'. subst st'. unfold handleClose. rewrite Hres, Hc.
  destruct (close_rooms_spec a (rooms st) st) as (Hkept & Hq1 & Hself).
  destruct (close_rooms a (rooms st) st) as [kept st1]. simpl in Hkept, Hq1, Hself.
  set (st2 := set_rooms kept st1).
  set (st3 := match Client.owner c with
              | Some o => sendl o [VStr "onclose"; VStr (Client.wsid c)] st2
              | None => st2
              end).
  set (st4 := cleanupClient a st3).
  set (st' := match Client.room c with
              | Some _ => updaterooms st4
              | None => updateclients st4
              end).
  assert (Hq3 : quiet st2 st3).
  { unfold st3. destruct (Client.owner c); [apply quiet_sendl | apply quiet_refl]. }
  assert (Hc3 : cheap st3 = cheap st).
  { rewrite (quiet_cheap _ _ Hq3). apply (quiet_cheap _ _ Hq1). }
  assert (Hst4 : st4 = set_clients (map_delete (Client.wsid c) (clients st3)) st3).
  { unfold st4, cleanupClient. by rewrite Hc3, Hc. }
  assert (Hq5 : quiet st4 st').
  { unfold st'. destruct (Client.room c);
      [apply quiet_updaterooms | apply quiet_updateclients]. }
  assert (Hp1 : out st `prefix_of` out st2) by apply (quiet_prefix _ _ Hq1).
  assert (Hp3 : out st2 `prefix_of` out st3) by apply (quiet_prefix _ _ Hq3).
  assert (Hp4 : out st3 `prefix_of` out st4) by (by rewrite Hst4).
  assert (Hp5 : out st4 `prefix_of` out st') by apply (quiet_prefix _ _ Hq5).
  assert (Hp34 : out st3 `prefix_of` out st').
  { etrans; [exact Hp4 | exact Hp5]. }
  assert (Hp24 : out st2 `prefix_of` out st').
  { etrans; [exact Hp3 | exact Hp34]. }
  assert (Hcl : clients st' = map_delete (Client.wsid c) (clients st)).
  { rewrite (quiet_clients _ _ Hq5), Hst4. simpl.
    rewrite (quiet_clients _ _ Hq3). simpl.
    by rewrite (quiet_clients _ _ Hq1). }
  assert (Hc4 : cheap st4 = cheap st) by (by rewrite Hst4).
  split.
  { rewrite (quiet_rooms _ _ Hq5), Hst4. simpl.
    by rewrite (quiet_rooms _ _ Hq3). }
  split; [done|]. split.
  { by rewrite (quiet_cheap _ _ Hq5). }
  split.
  { intros r w b bc Hin Hown Hreg Hb Hroom Hne.
    apply (elem_news_l st st2 st'); [done | done |].
    by apply (Hself r w b bc). }
  split.
  { intros o oc Ho Hoc.
    apply (elem_news_r st st2 st'); [done | done |].
    apply (elem_news_l st2 st3 st'); [done | done |].
    unfold st3. rewrite Ho, news_sendl. unfold sendl_effects.
    change (cheap st2) with (cheap st1). rewrite (quiet_cheap _ _ Hq1), Hoc.
    by left. }
  intros w b bc Hin Hb Hroom.
  assert (Hin4 : (w, b) ∈ clients st4) by (by rewrite <- (quiet_clients _ _ Hq5)).
  assert (Hb4 : cheap st4 !! b = Some bc) by (by rewrite Hc4).
  assert (Hp : out st `prefix_of` out st4).
  { etrans; [exact Hp1|]. etrans; [exact Hp3 | exact Hp4]. }
  unfold st'. destruct (Client.room c).
  - destruct (updaterooms_reaches st4 w b bc Hin4 Hb4 Hroom) as [payload H].
    exists payload. eapply elem_news_r; [exact Hp | apply quiet_prefix, quiet_updaterooms | done].
  - destruct (updateclients_reaches st4 w b bc Hin4 Hb4 Hroom) as [payload H].
    exists payload. eapply elem_news_r; [exact Hp | apply quiet_prefix, quiet_updateclients | done].
Qed.

(** *** The room-list snapshot *)

Lemma foldl_upd_room_lookup f (l : list raddr) : forall st r,
  (forall R, f (f R) = f R) ->
  rheap (foldl (fun s q => upd_room q f s) st l) !! r
  = (if bool_decide (r ∈ l) then f else id) <$> rheap st !! r.
Proof.
  induction l as [|q l IH]; intros st r Hf; simpl.
  - by destruct (rheap st !! r).
  - rewrite IH by done. simpl.
    destruct (decide (q = r)) as [->|Hne].
    + rewrite list_lookup_alter_eq.
      rewrite (bool_decide_eq_true_2 (r ∈ r :: l)) by (by left).
      destruct (rheap st !! r); simpl; [|by destruct (bool_decide (r ∈ l))].
      destruct (bool_decide (r ∈ l)); simpl; by rewrite ?Hf.
    + rewrite list_lookup_alter_ne by done.
      destruct (bool_decide (r ∈ l)) eqn:E.
      * apply bool_decide_eq_true in E.
        by rewrite (bool_decide_eq_true_2 (r ∈ q :: l)) by (by right).
      * apply bool_decide_eq_false in E.
        rewrite (bool_decide_eq_false_2 (r ∈ q :: l)); [done|].
        rewrite elem_of_cons. intros [?|?]; by subst.
Qed.

Lemma foldl_upd_room_frame f (l : list raddr) : forall st,
  let s := foldl (fun s q => upd_room q f s) st l in
  cheap s = cheap st /\ clients s = clients st /\ rooms s = rooms st.
Proof.
  induction l as [|q l IH]; intros st; simpl; [done|].
  destruct (IH (upd_room q f st)) as (?&?&?). by repeat split.
Qed.

Lemma count_step_frame s x :
  cheap (count_step s x) = cheap s /\ clients (count_step s x) = clients s
  /\ rooms (count_step s x) = rooms s.
Proof.
  unfold count_step. destruct (cheap s !! x.2) as [c|]; [|done].
  destruct (Client.room c); [|done]. by destruct (Client.servermode c).
Qed.

Lemma count_step_lookup s x r :
  rheap (count_step s x) !! r
  = (if is_member s r x then Room.incr_num else id) <$> rheap s !! r.
Proof.
  unfold count_step, is_member.
  destruct (cheap s !! x.2) as [c|]; simpl; [|by destruct (rheap s !! r)].
  destruct (Client.room c) as [q|]; simpl.
  2: { by destruct (rheap s !! r). }
  destruct (Client.servermode c); simpl.
  { rewrite andb_false_r. by destruct (rheap s !! r). }
  rewrite andb_true_r. destruct (decide (q = r)) as [->|Hne].
  - rewrite list_lookup_alter_eq. by rewrite bool_decide_eq_true_2.
  - rewrite list_lookup_alter_ne by done.
    rewrite bool_decide_eq_false_2 by congruence. by destruct (rheap s !! r).
Qed.

Lemma is_member_cheap s s' r x :
  cheap s' = cheap s -> is_member s' r x = is_member s r x.
Proof. unfold is_member. by intros ->. Qed.

Lemma count_members_lookup (l : list (string * caddr)) : forall s r,
  rheap (foldl count_step s l) !! r
  = incr_times (length (List.filter (is_member s r) l)) <$> rheap s !! r.
Proof.
  induction l as [|x l IH]; intros s r; simpl.
  - by destruct (rheap s !! r).
  - rewrite IH, count_step_lookup.
    destruct (count_step_frame s x) as (Hch & _).
    rewrite (filter_ext (is_member (count_step s x) r) (is_member s r)).
    2: { intros y. by apply is_member_cheap. }
    destruct (is_member s r x); simpl; by destruct (rheap s !! r).
Qed.

Lemma count_members_frame (l : list (string * caddr)) : forall s,
  cheap (foldl count_step s l) = cheap s
  /\ clients (foldl count_step s l) = clients s
  /\ rooms (foldl count_step s l) = rooms s.
Proof.
  induction l as [|x l IH]; intros s; simpl; [done|].
  destruct (IH (count_step s x)) as (?&?&?).
  destruct (count_step_frame s x) as (?&?&?). repeat split; congruence.
Qed.

Lemma incr_times_zero k R :
  incr_times k (Room.set_num (VNum 0) R)
  = Room.set_num (VNum (Z.of_nat k)) R.
Proof.
  assert (forall n, incr_times k (Room.set_num (VNum n) R)
                    = Room.set_num (VNum (n + Z.of_nat k)) R) as H.
  { induction k as [|k IH]; intros n; simpl.
    - by rewrite Z.add_0_r.
    - unfold Room.incr_num. simpl.
      change (Room.set_num (VNum (n + 1)) (Room.set_num (VNum n) R))
        with (Room.set_num (VNum (n + 1)) R).
      rewrite IH. do 2 f_equal. lia. }
  by rewrite H.
Qed.

(** After the two counting loops every room of the directory carries its
    live member count. *)
Lemma counted_rooms st r R :
  r ∈ rooms st -> rheap st !! r = Some R ->
  rheap (count_members (reset_nums st)) !! r
  = Some (Room.set_num (VNum (liveMemberCount st r)) R).
Proof.
  intros Hin HR. unfold count_members, reset_nums.
  destruct (foldl_upd_room_frame (Room.set_num (VNum 0)) (rooms st) st)
    as (Hch & Hcl & _).
  rewrite count_members_lookup, Hcl.
  rewrite foldl_upd_room_lookup by done.
  rewrite bool_decide_eq_true_2 by done. rewrite HR. simpl.
  rewrite incr_times_zero. unfold liveMemberCount.
  rewrite (filter_ext (is_member _ r) (is_member st r)); [done|].
  intros y. by apply is_member_cheap.
Qed.

Lemma roomlist_loop_listing st0 rs : forall i acc s,
  NoDup rs -> cheap s = cheap st0 ->
  (forall r, r ∈ rs ->
     exists R0, rheap st0 !! r = Some R0 /\
                rheap s !! r
                = Some (Room.set_num (VNum (liveMemberCount st0 r)) R0)) ->
  (roomlist_loop i rs acc s).1 = listing_from st0 i rs acc.
Proof.
  induction rs as [|r rs IH]; intros i acc s Hnd Hch Hrooms; simpl; [done|].
  apply NoDup_cons in Hnd as [Hnotin Hnd].
  destruct (Hrooms r) as (R0 & H0 & Hs); [by left|].
  rewrite Hs. unfold listing_step. rewrite H0.
  assert (Hrest : forall s', cheap s' = cheap s -> rheap s' = rheap s ->
            forall q, q ∈ rs ->
              exists Q0, rheap st0 !! q = Some Q0 /\
                rheap (upd_room r (Room.set_num VUndef) s') !! q
                = Some (Room.set_num (VNum (liveMemberCount st0 q)) Q0)).
  { intros s' _ Hrh q Hq. destruct (Hrooms q) as (Q0 & HQ0 & HQ); [by right|].
    exists Q0. split; [done|].
    rewrite upd_room_lookup_ne by (intros ->; done). by rewrite Hrh. }
  change (Room.servermode (Room.set_num (VNum (liveMemberCount st0 r)) R0))
    with (Room.servermode R0).
  change (Room.owner (Room.set_num (VNum (liveMemberCount st0 r)) R0))
    with (Room.owner R0).
  change (Room.config (Room.set_num (VNum (liveMemberCount st0 r)) R0))
    with (Room.config R0).
  destruct (Room.servermode R0).
  { apply IH; [done | done | by apply Hrest]. }
  destruct (Room.owner R0) as [o|].
  2: { apply IH; [done | done | by apply Hrest]. }
  destruct (truthy (Room.config R0)).
  2: { apply IH; [done | done | by apply Hrest]. }
  set (s' := if strict_eq _ _ then sendl o [VStr "reloadroom"] s else s).
  assert (Hs' : cheap s' = cheap s /\ rheap s' = rheap s).
  { unfold s'. destruct (strict_eq _ _); [|done]. by rewrite sendl_eq. }
  destruct Hs' as [Hc' Hr'].
  assert (room_entry s' (Room.set_num (VNum (liveMemberCount st0 r)) R0) o
          = listed_entry st0 r R0 o) as ->.
  { unfold room_entry, listed_entry. rewrite Hc', Hch.
    by destruct (cheap st0 !! o). }
  apply IH; [done | simpl; congruence | by apply Hrest].
Qed.

Lemma getroomlist_listing st :
  NoDup (rooms st) -> (forall r, r ∈ rooms st -> is_Some (rheap st !! r)) ->
  (getroomlist st).1 = listing st.
Proof.
  intros Hnd Halloc. unfold getroomlist, listing.
  pose proof (quiet_reset_nums st) as Hq1.
  pose proof (quiet_count_members (reset_nums st)) as Hq2.
  rewrite (quiet_rooms _ _ Hq2), (quiet_rooms _ _ Hq1).
  apply roomlist_loop_listing; [done | |].
  - by rewrite (quiet_cheap _ _ Hq2), (quiet_cheap _ _ Hq1).
  - intros r Hin. destruct (Halloc r Hin) as [R HR]. exists R.
    split; [done|]. by apply counted_rooms.
Qed.

Lemma liveMemberCount_quiet st st' r :
  quiet st st' -> liveMemberCount st' r = liveMemberCount st r.
Proof.
  intros Hq. unfold liveMemberCount. rewrite (quiet_clients _ _ Hq).
  rewrite (filter_ext (is_member st' r) (is_member st r)); [done|].
  intros y. apply is_member_cheap, (quiet_cheap _ _ Hq).
Qed.

Lemma listing_step_quiet st st' i r acc :
  quiet st st' -> listing_step st' i r acc = listing_step st i r acc.
Proof.
  intros Hq. unfold listing_step, listed_entry.
  pose proof (erase_nums_lookup _ _ r (quiet_rheap _ _ Hq)) as H.
  rewrite (liveMemberCount_quiet _ _ _ Hq), (quiet_cheap _ _ Hq).
  destruct (rheap st' !! r) as [R'|], (rheap st !! r) as [R|]; try done.
  simpl in H. injection H as H. by destruct R', R; simplify_eq/=.
Qed.

Lemma listing_quiet st st' : quiet st st' -> listing st' = listing st.
Proof.
  intros Hq. unfold listing. rewrite (quiet_rooms _ _ Hq).
  generalize (rooms st) (@nil value) 0%nat.
  intros rs. induction rs as [|r rs IH]; intros acc i; simpl; [done|].
  by rewrite IH, (listing_step_quiet _ _ _ _ _ Hq).
Qed.

Lemma listing_step_length st i r acc :
  (length acc <= i)%nat -> (length (listing_step st i r acc) <= S i)%nat.
Proof.
  intros Hlen. unfold listing_step, array_set.
  destruct (rheap st !! r) as [R|]; [|lia].
  destruct (Room.servermode R).
  - rewrite bool_decide_eq_false_2 by lia.
    rewrite !length_app, length_replicate. simpl. lia.
  - destruct (Room.owner R); [|lia].
    destruct (truthy (Room.config R)); [|lia].
    rewrite length_app. simpl. lia.
Qed.

Lemma listing_step_prefix st i r acc :
  (length acc <= i)%nat -> acc `prefix_of` listing_step st i r acc.
Proof.
  intros Hlen. unfold listing_step, array_set.
  destruct (rheap st !! r) as [R|]; [|done].
  destruct (Room.servermode R).
  - rewrite bool_decide_eq_false_2 by lia. by apply prefix_app_r.
  - destruct (Room.owner R); [|done].
    destruct (truthy (Room.config R)); [|done]. by apply prefix_app_r.
Qed.

Lemma listing_from_prefix st rs : forall i acc,
  (length acc <= i)%nat -> acc `prefix_of` listing_from st i rs acc.
Proof.
  induction rs as [|r rs IH]; intros i acc Hlen; simpl; [done|].
  etrans; [by apply (listing_step_prefix st i r)|].
  apply IH. by apply listing_step_length.
Qed.

Lemma listing_from_split st pre r post : forall i acc,
  (length acc <= i)%nat ->
  listing_from st i (pre ++ r :: post) acc
  = listing_from st (S (i + length pre)) post
      (listing_step st (i + length pre) r (listing_from st i pre acc))
  /\ (length (listing_from st i pre acc) <= i + length pre)%nat.
Proof.
  induction pre as [|p pre IH]; intros i acc Hlen; simpl.
  - rewrite Nat.add_0_r. split; [done | lia].
  - destruct (IH (S i) (listing_step st i p acc)) as [-> Hl].
    { by apply listing_step_length. }
    replace (S i + length pre)%nat with (i + S (length pre))%nat by lia.
    split; [done | lia].
Qed.

(** What a room of the directory contributes to the listing. *)
Lemma listing_room st pre r post :
  rooms st = pre ++ r :: post ->
  exists before,
    (length before <= length pre)%nat /\
    listing_step st (length pre) r before `prefix_of` listing st.
Proof.
  intros E. unfold listing. rewrite E.
  destruct (listing_from_split st pre r post 0 []) as [-> Hl]; [simpl; lia|].
  simpl in *. exists (listing_from st 0 pre []). split; [done|].
  apply listing_from_prefix. by apply listing_step_length.
Qed.

Lemma listing_from_elems st rs : forall i acc v,
  v ∈ listing_from st i rs acc ->
  v ∈ acc \/ v = VStr "server" \/ v = VUndef \/
  exists r R o, r ∈ rs /\ rheap st !! r = Some R /\
                Room.servermode R = false /\ Room.owner R = Some o /\
                truthy (Room.config R) = true /\ v = listed_entry st r R o.
Proof.
  induction rs as [|r rs IH]; intros i acc v Hv; simpl in Hv; [by left|].
  destruct (IH _ _ _ Hv) as [Hacc | [? | [? | (q & Q & o & Hq & ?)]]];
    [| by right; left | by right; right; left
     | right; right; right; exists q, Q, o; split; [by right | done]].
  unfold listing_step, array_set in Hacc.
  destruct (rheap st !! r) as [R|] eqn:HR; [|by left].
  destruct (Room.servermode R) eqn:Hsm.
  - destruct (bool_decide _).
    + apply list_elem_of_lookup in Hacc as [j Hj].
      destruct (decide (j = i)) as [->|Hne].
      * rewrite list_lookup_insert in Hj.
        case_decide; [right; left; congruence|].
        left. by eapply list_elem_of_lookup_2.
      * rewrite list_lookup_insert_ne in Hj by done.
        left. by apply list_elem_of_lookup_2 in Hj.
    + rewrite !elem_of_app in Hacc.
      destruct Hacc as [? | [Hrep | Hx]]; [by left | |].
      * apply elem_of_replicate_inv in Hrep. by right; right; left.
      * apply list_elem_of_singleton in Hx. by right; left.
  - destruct (Room.owner R) as [o|] eqn:Ho; [|by left].
    destruct (truthy (Room.config R)) eqn:Hcfg; [|by left].
    apply elem_of_app in Hacc as [? | Hx]; [by left|].
    apply list_elem_of_singleton in Hx.
    right; right; right. exists r, R, o. split; [by left | done].
Qed.

(** C7 (amended).  The room-list snapshot shows every room that is in
    servermode, with or without a pending handoff, as the marker
    ["server"] at the room's own index, and appends every other room
    exactly when it has an owner and a truthy config, as
    [[ownerNickname, ownerAvatar, config, liveMemberCount, key]] with
    [liveMemberCount] the number of registered sessions whose room is
    this one and that are not in servermode; nothing else but holes
    appears in it.  Computing the snapshot again right away gives the
    same list. *)
Theorem roomlist_snapshot st :
  NoDup (rooms st) -> (forall r, r ∈ rooms st -> is_Some (rheap st !! r)) ->
  let res := getroomlist st in
  res.1 = listing st /\
  (getroomlist res.2).1 = res.1 /\
  (forall i r R,
     rooms st !! i = Some r -> rheap st !! r = Some R ->
     Room.servermode R = true -> res.1 !! i = Some (VStr "server")) /\
  (forall r R o,
     r ∈ rooms st -> rheap st !! r = Some R -> Room.servermode R = false ->
     Room.owner R = Some o -> truthy (Room.config R) = true ->
     listed_entry st r R o ∈ res.1) /\
  (forall v, v ∈ res.1 ->
     v = VStr "server" \/ v = VUndef \/
     exists r R o, r ∈ rooms st /\ rheap st !! r = Some R /\
                   Room.servermode R = false /\ Room.owner R = Some o /\
                   truthy (Room.config R) = true /\
                   v = listed_entry st r R o).
Proof.
  intros Hnd Halloc res.
  assert (Hres : res.1 = listing st) by (by apply getroomlist_listing).
  pose proof (quiet_getroomlist st) as Hq. fold res in Hq.
  split; [done|]. split; [|split; [|split]].
  - rewrite getroomlist_listing.
    + by rewrite (listing_quiet _ _ Hq).
    + by rewrite (quiet_rooms _ _ Hq).
    + intros r Hin. rewrite (quiet_rooms _ _ Hq) in Hin.
      pose proof (erase_nums_lookup _ _ r (quiet_rheap _ _ Hq)) as H.
      destruct (Halloc r Hin) as [R HR]. rewrite HR in H.
      by destruct (rheap res.2 !! r).
  - intros i r R Hi HR Hsm. rewrite Hres.
    pose proof (take_drop_middle _ _ _ Hi) as E. symmetry in E.
    destruct (listing_room st _ _ _ E) as (before & Hlen & Hpre).
    assert (Hi' : length (take i (rooms st)) = i).
    { apply length_take_le. apply lookup_lt_Some in Hi. lia. }
    rewrite Hi' in Hlen, Hpre.
    eapply prefix_lookup_Some; [|exact Hpre].
    unfold listing_step, array_set. rewrite HR, Hsm.
    rewrite bool_decide_eq_false_2 by lia.
    rewrite app_assoc. apply list_lookup_middle.
    rewrite length_app, length_replicate. lia.
  - intros r R o Hin HR Hsm Ho Hcfg. rewrite Hres.
    apply list_elem_of_split in Hin as (pre & post & E).
    destruct (listing_room st _ _ _ E) as (before & Hlen & Hpre).
    eapply elem_of_prefix; [|exact Hpre].
    unfold listing_step. rewrite HR, Hsm, Ho, Hcfg.
    apply elem_of_app. right. by left.
  - intros v Hv. rewrite Hres in Hv. unfold listing in Hv.
    destruct (listing_from_elems _ _ _ _ _ Hv) as [Hnil | H]; [|done].
    by apply elem_of_nil in Hnil.
Qed.

(** *** Kinds of effects *)

Section Emits.
Context (P : effect -> Prop).

Lemma emits_same_out st st' : out st' = out st -> emits P st st'.
Proof. intros H. exists []. by rewrite app_nil_r. Qed.

Lemma emits_trans st1 st2 st3 :
  emits P st1 st2 -> emits P st2 st3 -> emits P st1 st3.
Proof.
  intros (e1 & H1 & F1) (e2 & H2 & F2). exists (e1 ++ e2).
  split; [by rewrite H2, H1, app_assoc | by apply Forall_app].
Qed.

Lemma emits_news st st' : emits P st st' -> Forall P (news st st').
Proof.
  intros (evs & H & F). unfold news. by rewrite H, drop_app_length.
Qed.

Lemma emits_sendl a args st :
  (forall w, P (Send w (FJson args))) -> (forall w, P (Close w)) ->
  emits P st (sendl a args st).
Proof.
  intros Hs Hc. rewrite sendl_eq. eexists. split; [done|].
  unfold sendl_effects. destruct (cheap st !! a) as [c|]; [|done].
  destruct (send_throws _ _); repeat constructor; done.
Qed.

Lemma emits_foldl {X} (f : State -> X -> State) (l : list X) :
  (forall s x, emits P s (f s x)) -> forall st, emits P st (foldl f st l).
Proof.
  intros Hf. induction l as [|x l IH]; intros st; simpl.
  - by apply emits_same_out.
  - eapply emits_trans; [apply Hf | apply IH].
Qed.

Lemma emits_roomlist_loop rs :
  (forall w, P (Send w (FJson [VStr "reloadroom"]))) ->
  (forall w, P (Close w)) ->
  forall i roomlist st, emits P st (roomlist_loop i rs roomlist st).2.
Proof.
  intros Hs Hc. induction rs as [|r rs IH]; intros i roomlist st; simpl.
  - by apply emits_same_out.
  - destruct (rheap st !! r) as [R|]; [|apply IH].
    destruct (Room.servermode R).
    { eapply emits_trans; [|apply IH]. by apply emits_same_out. }
    destruct (Room.owner R) as [o|].
    2: { eapply emits_trans; [|apply IH]. by apply emits_same_out. }
    destruct (truthy (Room.config R)).
    2: { eapply emits_trans; [|apply IH]. by apply emits_same_out. }
    eapply emits_trans; [|apply IH].
    eapply emits_trans; [|by apply emits_same_out].
    destruct (strict_eq _ _); [by apply emits_sendl | by apply emits_same_out].
Qed.

Lemma emits_updaterooms st :
  (forall w, P (Send w (FJson [VStr "reloadroom"]))) ->
  (forall w x, P (Send w (FJson (VStr "updaterooms" :: x)))) ->
  (forall w, P (Close w)) ->
  emits P st (updaterooms st).
Proof.
  intros Hr Hu Hc. unfold updaterooms.
  assert (Hg : emits P st (getroomlist st).2).
  { unfold getroomlist. eapply emits_trans; [|by apply emits_roomlist_loop].
    apply emits_same_out. unfold count_members, reset_nums.
    assert (forall (l : list raddr) s,
              out (foldl (fun s r => upd_room r (Room.set_num (VNum 0)) s) s l)
              = out s) as Hreset.
    { induction l as [|q l IHl]; intros s; simpl; [done|]. by rewrite IHl. }
    assert (forall (l : list (string * caddr)) s,
              out (foldl count_step s l) = out s) as Hcount.
    { induction l as [|q l IHl]; intros s; simpl; [done|].
      rewrite IHl. unfold count_step.
      destruct (cheap s !! q.2) as [c|]; [|done].
      destruct (Client.room c); [|done]. by destruct (Client.servermode c). }
    by rewrite Hcount, Hreset. }
  destruct (getroomlist st) as [roomlist st1]. simpl in Hg.
  eapply emits_trans; [exact Hg|].
  unfold broadcast_lobby. apply emits_foldl. intros s x. unfold lobby_step.
  destruct (cheap s !! x.2) as [c|]; [|by apply emits_same_out].
  destruct (Client.room c); [by apply emits_same_out | by apply emits_sendl].
Qed.
End Emits.

(** *** Finishing a handoff *)

Lemma erase_nums_fields h h' r R :
  erase_nums h' = erase_nums h -> h !! r = Some R ->
  exists R', h' !! r = Some R' /\ Room.owner R' = Room.owner R /\
             Room.key R' = Room.key R /\ Room.config R' = Room.config R /\
             Room.servermode R' = Room.servermode R.
Proof.
  intros He HR. pose proof (erase_nums_lookup _ _ r He) as H.
  rewrite HR in H. destruct (h' !! r) as [R'|]; [|done].
  exists R'. simpl in H. injection H as H.
  by destruct R', R; simplify_eq/=.
Qed.

(** What [config] does for the owner of a room in servermode with a
    pending handoff target. *)
Lemma config_finalizes a config st c r R g gc :
  cheap st !! a = Some c -> Client.room c = Some r ->
  rheap st !! r = Some R -> Room.owner R = Some a ->
  Room.servermode R = true ->
  Client._onconfig c = Some g -> cheap st !! g = Some gc ->
  let st' := messages_config a config st in
  let live := map_has (Client.wsid gc) (clients st) in
  (exists R', rheap st' !! r = Some R' /\ Room.servermode R' = false /\
              Room.config R' = config /\ Room.owner R' = Some a /\
              Room.key R' = Room.key R) /\
  cheap st' =
    alter (Client.set_onconfig None) a
      (if live then alter (Client.set_owner (Some a)) g (cheap st)
       else cheap st) /\
  clients st' = clients st /\ rooms st' = rooms st /\
  (live = true ->
     Send (Client.ws c) (FJson [VStr "onconnection"; VStr (Client.wsid gc)])
       ∈ news st st') /\
  (live = false -> Forall not_onconnection (news st st')).
Proof.
  intros Hc Hroom HR Hown Hsm Hon Hg st' live.
  set (s1 := upd_room r (Room.set_servermode false) st).
  set (s2 := if live
             then sendl a [VStr "onconnection"; VStr (Client.wsid gc)]
                        (upd_client g (Client.set_owner (Some a)) s1)
             else s1).
  set (s3 := upd_room r (Room.set_config config)
               (upd_client a (Client.set_onconfig None) s2)).
  assert (Hst' : st' = updaterooms s3).
  { subst st'. unfold messages_config.
    rewrite Hc, Hroom, HR, Hown, Hsm, Hon.
    rewrite bool_decide_eq_true_2 by done.
    change (cheap (upd_room r (Room.set_servermode false) st)) with (cheap st).
    change (clients (upd_room r (Room.set_servermode false) st))
      with (clients st).
    rewrite Hg. done. }
  pose proof (quiet_updaterooms s3) as Hq. rewrite <- Hst' in Hq.
  assert (Hrh : rheap s3 !! r
                = Some (Room.set_config config (Room.set_servermode false R))).
  { unfold s3, s2, s1. destruct live; rewrite ?sendl_eq; simpl;
      by rewrite !list_lookup_alter_eq, HR. }
  split.
  { destruct (erase_nums_fields _ _ r _ (quiet_rheap _ _ Hq) Hrh)
      as (R' & HR' & Ho & Hk & Hcf & Hs).
    exists R'. simpl in Ho, Hk, Hcf, Hs. repeat split; congruence. }
  split.
  { rewrite (quiet_cheap _ _ Hq). unfold s3, s2, s1.
    destruct live; by rewrite ?sendl_eq. }
  split.
  { rewrite (quiet_clients _ _ Hq). unfold s3, s2, s1.
    destruct live; by rewrite ?sendl_eq. }
  split.
  { rewrite (quiet_rooms _ _ Hq). unfold s3, s2, s1.
    destruct live; by rewrite ?sendl_eq. }
  split.
  - intros Hlive.
    assert (Hp : out st `prefix_of` out s3).
    { unfold s3, s2, s1. rewrite Hlive, sendl_eq. simpl. by apply prefix_app_r. }
    eapply elem_news_l; [exact Hp | by apply quiet_prefix |].
    unfold news, s3, s2, s1. rewrite Hlive, sendl_eq. simpl.
    rewrite drop_app_length. unfold sendl_effects. simpl.
    destruct (decide (g = a)) as [->|Hne].
    + rewrite list_lookup_alter_eq, Hc. simpl. by left.
    + rewrite list_lookup_alter_ne, Hc by done. by left.
  - intros Hdead.
    assert (Hout : out s3 = out st).
    { unfold s3, s2, s1. by rewrite Hdead. }
    assert (Hn : news st st' = news s3 st').
    { unfold news. by rewrite Hout. }
    rewrite Hn, Hst'. apply emits_news. apply emits_updaterooms; by intros.
Qed.

Lemma find_room_fields key st st' :
  rooms st' = rooms st ->
  (forall q, Room.key <$> rheap st' !! q = Room.key <$> rheap st !! q) ->
  find_room key st' = find_room key st.
Proof.
  intros Hr Hk. unfold find_room. rewrite Hr. clear Hr.
  induction (rooms st) as [|q l IH]; simpl; [done|].
  pose proof (Hk q) as Hq.
  destruct (rheap st' !! q) as [Q'|], (rheap st !! q) as [Q|];
    simpl in Hq; try discriminate; [|by rewrite IH].
  injection Hq as ->. by rewrite IH.
Qed.

(** The scan of [server] without [cfg]. *)
Lemma server_scan o st r R :
  first_unowned st = Some r -> rheap st !! r = Some R ->
  let st1 := messages_server o VUndef st in
  cheap st1 = alter (Client.set_servermode true) o
                (alter (Client.set_room (Some r)) o (cheap st)) /\
  clients st1 = clients st /\ rooms st1 = rooms st /\
  (exists R1, rheap st1 !! r = Some R1 /\ Room.owner R1 = Some o /\
              Room.servermode R1 = true /\ Room.key R1 = Room.key R) /\
  (forall q, Room.key <$> rheap st1 !! q = Room.key <$> rheap st !! q).
Proof.
  intros Hfree HR st1. subst st1. unfold messages_server. simpl truthy.
  cbv iota. rewrite Hfree.
  set (s := upd_client o (Client.set_servermode true) _).
  pose proof (quiet_updaterooms s) as Hq.
  rewrite (quiet_cheap _ _ Hq), (quiet_clients _ _ Hq), (quiet_rooms _ _ Hq).
  repeat split.
  - assert (rheap s !! r
            = Some (Room.set_servermode true (Room.set_owner (Some o) R))) as Hs.
    { unfold s. simpl. by rewrite !list_lookup_alter_eq, HR. }
    destruct (erase_nums_fields _ _ r _ (quiet_rheap _ _ Hq) Hs)
      as (R1 & H1 & Ho & Hk & _ & Hsm).
    exists R1. by repeat split.
  - intros q.
    pose proof (erase_nums_lookup _ _ q (quiet_rheap _ _ Hq)) as H.
    assert (Room.key <$> rheap s !! q = Room.key <$> rheap st !! q) as <-.
    { unfold s. simpl. destruct (decide (r = q)) as [->|Hne].
      - rewrite !list_lookup_alter_eq. by destruct (rheap st !! q).
      - by rewrite !list_lookup_alter_ne. }
    destruct (rheap (updaterooms s) !! q) as [Q'|], (rheap s !! q) as [Q|];
      simplify_eq/=; try done.
    by destruct Q', Q; simplify_eq/=.
Qed.

(** The claim branch of [enter]. *)
Lemma enter_claim g key nickname avatar config mode st r R o :
  find_room key st = Some r -> rheap st !! r = Some R ->
  Room.owner R = Some o -> is_claim st R o config mode = true ->
  let st2 := messages_enter g key nickname avatar config mode st in
  cheap st2 =
    alter (set_identity nickname avatar) o
      (alter (Client.set_onconfig (Some g)) o
         (alter (Client.set_status VUndef) g
            (alter (Client.set_room (Some r)) g
               (alter (set_identity nickname avatar) g (cheap st))))) /\
  clients st2 = clients st /\ rooms st2 = rooms st /\
  erase_nums (rheap st2) = erase_nums (rheap st).
Proof.
  intros Hfind HR Ho Hclaim st2. subst st2. unfold messages_enter.
  change (find_room key (upd_client g (set_identity nickname avatar) st))
    with (find_room key st).
  rewrite Hfind. cbv zeta.
  set (st3 := upd_client g (Client.set_status VUndef) _).
  change (rheap st3) with (rheap st). rewrite HR, Ho.
  assert (is_claim st3 R o config mode = true) as ->.
  { unfold st3. by rewrite !is_claim_upd_client. }
  set (s := upd_client o (set_identity nickname avatar) _).
  pose proof (quiet_updaterooms s) as Hq.
  rewrite (quiet_cheap _ _ Hq), (quiet_clients _ _ Hq), (quiet_rooms _ _ Hq),
    (quiet_rheap _ _ Hq).
  unfold s. rewrite sendl_eq. done.
Qed.

(** C2.  When the owner of a room in servermode with a pending handoff
    target issues [config], the room's servermode flag is turned off, the
    config is stored and the owner's pending slot is cleared; if the
    target is still registered its owner link is set to the owner and
    [onconnection] with the target's id is sent to the owner, and if it
    is not, neither happens.  After the sequence [server] (claiming the
    first free slot), [enter] with config and mode by a registered
    session, and [config], the entering session is the only one whose
    owner link points at the claiming owner, provided none did before,
    and the room's servermode flag is off. *)
Theorem handoff_finalized :
  (forall a config st c r R g gc,
     cheap st !! a = Some c -> Client.room c = Some r ->
     rheap st !! r = Some R -> Room.owner R = Some a ->
     Room.servermode R = true ->
     Client._onconfig c = Some g -> cheap st !! g = Some gc ->
     let st' := messages_config a config st in
     let live := map_has (Client.wsid gc) (clients st) in
     (exists R', rheap st' !! r = Some R' /\ Room.servermode R' = false /\
                 Room.config R' = config /\ Room.owner R' = Some a) /\
     Client._onconfig <$> cheap st' !! a = Some None /\
     (live = true ->
        Client.owner <$> cheap st' !! g = Some (Some a) /\
        Send (Client.ws c)
             (FJson [VStr "onconnection"; VStr (Client.wsid gc)])
          ∈ news st st') /\
     (live = false ->
        (g <> a -> cheap st' !! g = Some gc) /\
        Forall not_onconnection (news st st'))) /\
  (forall o g key nickname avatar config mode cfg st oc gc r R,
     cheap st !! o = Some oc -> cheap st !! g = Some gc -> o <> g ->
     first_unowned st = Some r -> rheap st !! r = Some R ->
     find_room key st = Some r ->
     Client._onconfig oc = None ->
     truthy config = true -> truthy mode = true ->
     map_has (Client.wsid gc) (clients st) = true ->
     (forall b bc, cheap st !! b = Some bc -> Client.owner bc <> Some o) ->
     let st1 := messages_server o VUndef st in
     let st2 := messages_enter g key nickname avatar config mode st1 in
     let st3 := messages_config o cfg st2 in
     (forall b bc, cheap st3 !! b = Some bc ->
                   (Client.owner bc = Some o <-> b = g)) /\
     (exists R3, rheap st3 !! r = Some R3 /\ Room.servermode R3 = false /\
                 Room.owner R3 = Some o)).
Proof.
  split.
  - intros a config st c r R g gc Hc Hroom HR Hown Hsm Hon Hg st' live.
    destruct (config_finalizes a config st c r R g gc Hc Hroom HR Hown Hsm
                               Hon Hg)
      as ((R' & HR' & H1 & H2 & H3 & _) & Hch & _ & _ & Hlive & Hdead).
    fold st' in HR', Hch, Hlive, Hdead. fold live in Hch, Hlive, Hdead.
    split; [by exists R'|]. split.
    { rewrite Hch, list_lookup_alter_eq. destruct live.
      - destruct (decide (g = a)) as [->|Hne].
        + by rewrite list_lookup_alter_eq, Hc.
        + by rewrite list_lookup_alter_ne, Hc.
      - by rewrite Hc. }
    split.
    + intros Hl. split; [|by apply Hlive].
      rewrite Hch, Hl. destruct (decide (a = g)) as [->|Hne].
      * by rewrite !list_lookup_alter_eq, Hg.
      * by rewrite list_lookup_alter_ne, list_lookup_alter_eq, Hg.
    + intros Hl. split; [|by apply Hdead].
      intros Hne. rewrite Hch, Hl. by rewrite list_lookup_alter_ne.
  - intros o g key nickname avatar config mode cfg st oc gc r R
           Hoc Hgc Hne Hfree HR Hfind Hon Hcfg Hmode Hlive Hnone st1 st2 st3.
    destruct (server_scan o st r R Hfree HR)
      as (Hch1 & Hcl1 & Hr1 & (R1 & HR1 & Ho1 & Hsm1 & Hk1) & Hkeys).
    fold st1 in Hch1, Hcl1, Hr1, HR1, Hkeys.
    assert (Hfind1 : find_room key st1 = Some r).
    { rewrite <- Hfind. by apply find_room_fields. }
    assert (Hoc1 : cheap st1 !! o
                   = Some (Client.set_servermode true
                             (Client.set_room (Some r) oc))).
    { by rewrite Hch1, !list_lookup_alter_eq, Hoc. }
    assert (Hclaim : is_claim st1 R1 o config mode = true).
    { unfold is_claim. rewrite Hsm1, Hoc1, Hcfg, Hmode. simpl.
      by rewrite Hon. }
    destruct (enter_claim g key nickname avatar config mode st1 r R1 o
                          Hfind1 HR1 Ho1 Hclaim)
      as (Hch2 & Hcl2 & Hr2 & Hrh2).
    fold st2 in Hch2, Hcl2, Hr2, Hrh2.
    destruct (erase_nums_fields _ _ r _ Hrh2 HR1)
      as (R2 & HR2 & Ho2 & _ & _ & Hsm2).
    assert (Hgc1 : cheap st1 !! g = Some gc).
    { by rewrite Hch1, !list_lookup_alter_ne, Hgc. }
    set (gc2 := Client.set_status VUndef
                  (Client.set_room (Some r) (set_identity nickname avatar gc))).
    set (oc2 := set_identity nickname avatar
                  (Client.set_onconfig (Some g)
                     (Client.set_servermode true
                        (Client.set_room (Some r) oc)))).
    assert (Hgc2 : cheap st2 !! g = Some gc2).
    { rewrite Hch2. rewrite !(list_lookup_alter_ne _ _ o g) by done.
      by rewrite !list_lookup_alter_eq, Hgc1. }
    assert (Hoc2 : cheap st2 !! o = Some oc2).
    { rewrite Hch2. rewrite !list_lookup_alter_eq.
      rewrite !(list_lookup_alter_ne _ _ g o) by done. by rewrite Hoc1. }
    assert (Hlive2 : map_has (Client.wsid gc2) (clients st2) = true).
    { by rewrite Hcl2, Hcl1. }
    destruct (config_finalizes o cfg st2 oc2 r R2 g gc2 Hoc2 eq_refl HR2
                ltac:(congruence) ltac:(congruence) eq_refl Hgc2)
      as ((R3 & HR3 & Hsm3 & _ & Ho3 & _) & Hch3 & _).
    fold st3 in HR3, Hch3. rewrite Hlive2 in Hch3.
    split; [|by exists R3].
    intros b bc Hb. rewrite Hch3 in Hb.
    destruct (decide (b = g)) as [->|Hbg].
    + rewrite list_lookup_alter_ne, list_lookup_alter_eq, Hgc2 in Hb by done.
      simpl in Hb. injection Hb as <-. done.
    + split; [|done]. intros Hbo. exfalso.
      destruct (decide (o = b)) as [<-|Hob].
      * rewrite list_lookup_alter_eq, list_lookup_alter_ne, Hoc2 in Hb by done.
        simpl in Hb. injection Hb as <-. by apply (Hnone o oc Hoc).
      * rewrite !list_lookup_alter_ne in Hb by done.
        rewrite Hch2, !list_lookup_alter_ne in Hb by done.
        rewrite Hch1, !list_lookup_alter_ne in Hb by done.
        by apply (Hnone b bc Hb).
Qed.

(** ** Further properties of the handlers *)

(** *** Parts of the state that a handler leaves alone *)

Section Evolves.
Context {A : Type} (R : relation A) `{!PreOrder R} (q : State -> A).
Hypothesis q_quiet : forall st st', quiet st st' -> q st' = q st.

Lemma evolves_refl st : evolves R q st st.
Proof. unfold evolves. reflexivity. Qed.

Lemma evolves_trans st1 st2 st3 :
  evolves R q st1 st2 -> evolves R q st2 st3 -> evolves R q st1 st3.
Proof. unfold evolves. intros H1 H2. by etrans. Qed.

Lemma evolves_quiet st st' : quiet st st' -> evolves R q st st'.
Proof. intros Hq. unfold evolves. rewrite (q_quiet _ _ Hq). reflexivity. Qed.

Lemma evolves_foldl {X} (f : State -> X -> State) (l : list X) :
  (forall s x, evolves R q s (f s x)) ->
  forall st, evolves R q st (foldl f st l).
Proof.
  intros Hf. induction l as [|x l IH]; intros st; simpl.
  - apply evolves_refl.
  - eapply evolves_trans; [apply Hf | apply IH].
Qed.
End Evolves.

Ltac evolves_via t tac := apply evolves_trans with (st2 := t); [apply _| |tac].

(** One step through the body of a handler: [blind] proves that the part
    under study is the same in states that differ quietly, [atom] deals
    with a single field write. *)
Ltac evolves_step blind atom :=
  match goal with
  | |- evolves _ _ ?s ?s => apply evolves_refl; apply _
  | |- evolves _ _ _ (sendl _ _ ?t) =>
      evolves_via t ltac:(apply evolves_quiet; [apply _|exact blind|apply quiet_sendl])
  | |- evolves _ _ _ (closeClient _ ?t) =>
      evolves_via t ltac:(apply evolves_quiet;
                          [apply _|exact blind|apply quiet_closeClient])
  | |- evolves _ _ _ (updaterooms ?t) =>
      evolves_via t ltac:(apply evolves_quiet;
                          [apply _|exact blind|apply quiet_updaterooms])
  | |- evolves _ _ _ (updateclients ?t) =>
      evolves_via t ltac:(apply evolves_quiet;
                          [apply _|exact blind|apply quiet_updateclients])
  | |- evolves _ _ _ (broadcast_lobby _ ?t) =>
      evolves_via t ltac:(apply evolves_quiet;
                          [apply _|exact blind|apply quiet_broadcast_lobby])
  | |- evolves _ _ _ (emit _ ?t) =>
      evolves_via t ltac:(apply evolves_quiet; [apply _|exact blind|apply quiet_emit])
  | |- evolves _ _ _ (upd_client _ _ ?t) => evolves_via t atom
  | |- evolves _ _ _ (upd_room _ _ ?t) => evolves_via t atom
  | |- evolves _ _ _ (set_rooms _ ?t) => evolves_via t atom
  | |- evolves _ _ _ (set_rheap _ ?t) => evolves_via t atom
  | |- evolves _ _ _ (set_events _ ?t) => evolves_via t atom
  | |- evolves _ _ _ (set_clients _ ?t) => evolves_via t atom
  | |- evolves _ _ _ (set_cheap _ ?t) => evolves_via t atom
  | |- evolves _ _ _ (set_bannedIps _ ?t) => evolves_via t atom
  | |- evolves _ _ _ (updateevents _ ?t) =>
      unfold updateevents, checkevents; cbv zeta
  | |- evolves _ _ _ (match (if ?b then _ else _) with _ => _ end) =>
      destruct b eqn:?
  | |- evolves _ _ _ (match (match ?x with _ => _ end) with _ => _ end) =>
      destruct x eqn:?
  | |- evolves _ _ _ (if ?b then _ else _) => destruct b eqn:?
  | |- evolves _ _ _ (match ?x with _ => _ end) => destruct x eqn:?
  end.

Ltac unfold_handlers :=
  unfold messages_create, messages_enter, messages_changeAvatar,
    messages_server, messages_key, messages_events, messages_config,
    messages_status, messages_send, messages_close, try_send; cbv zeta.

Lemma ban_rules_quiet st st' : quiet st st' -> ban_rules st' = ban_rules st.
Proof. intros (?&?&?&?&?&?&?&?&?). unfold ban_rules. congruence. Qed.

Lemma bannedIps_quiet st st' : quiet st st' -> bannedIps st' = bannedIps st.
Proof. by intros (?&?&?&?&?&?&?&?&?). Qed.

Ltac field_write := unfold evolves; simpl; first [reflexivity | by apply prefix_app_r].

Lemma ban_rules_dispatch time fresh_id a type args st :
  evolves eq ban_rules st (dispatch time fresh_id a type args st).
Proof.
  unfold dispatch. repeat (destruct (String.eqb _ _); [|]).
  all: unfold_handlers.
  all: repeat evolves_step ban_rules_quiet ltac:(field_write).
Qed.

Lemma bannedIps_dispatch time fresh_id a type args st :
  evolves prefix bannedIps st (dispatch time fresh_id a type args st).
Proof.
  unfold dispatch. repeat (destruct (String.eqb _ _); [|]).
  all: unfold_handlers.
  all: repeat evolves_step bannedIps_quiet ltac:(field_write).
Qed.

(** The four entry points, for a part of the state that the writes they
    make themselves do not reach. *)
Section CallFrames.
Context {A : Type} (R : relation A) `{!PreOrder R} (q : State -> A).
Hypothesis q_quiet : forall st st', quiet st st' -> q st' = q st.
Hypothesis q_client :
  forall a f st, stamp f -> q (upd_client a f st) = q st.
Hypothesis q_rooms : forall x st, q (set_rooms x st) = q st.
Hypothesis q_clients : forall x st, q (set_clients x st) = q st.
Hypothesis q_cheap : forall x st, q (set_cheap x st) = q st.
Hypothesis q_events : forall x st, q (set_events x st) = q st.

Lemma evolves_eq st st' : q st' = q st -> evolves R q st st'.
Proof. intros H. unfold evolves. rewrite H. reflexivity. Qed.

Lemma evolves_alarm now sockets remaining st :
  evolves R q st (alarm now sockets remaining st).
Proof.
  unfold alarm. destruct sockets as [|ws l]; [apply evolves_refl; apply _|].
  assert (Hfold : forall st, evolves R q st (foldl (alarm_socket now) st (ws :: l))).
  { apply evolves_foldl; [apply _|]. intros s x.
    unfold alarm_socket, try_send.
    repeat evolves_step q_quiet ltac:(apply evolves_eq, q_client; constructor). }
  repeat evolves_step q_quiet ltac:(fail); apply Hfold.
Qed.

Lemma evolves_webSocketMessage now fresh_id ws message st :
  (forall a type args s, evolves R q s (dispatch now fresh_id a type args s)) ->
  evolves R q st (webSocketMessage now fresh_id ws message st).
Proof.
  intros Hd. unfold webSocketMessage, touch.
  destruct (resolve ws st) as [a|]; [|apply evolves_refl; apply _].
  destruct (cheap st !! a) as [c|]; [|apply evolves_refl; apply _].
  destruct (String.eqb message "heartbeat");
    [repeat evolves_step q_quiet ltac:(apply evolves_eq, q_client; constructor)|].
  destruct (Client.owner c);
    [repeat evolves_step q_quiet ltac:(apply evolves_eq, q_client; constructor)|].
  destruct (JSON_parse message) as [[]|];
    try solve [repeat evolves_step q_quiet ltac:(apply evolves_eq, q_client; constructor)].
  destruct (strict_eq _ _);
    [|repeat evolves_step q_quiet ltac:(apply evolves_eq, q_client; constructor)].
  eapply evolves_trans; [apply _| |apply Hd].
  repeat evolves_step q_quiet ltac:(apply evolves_eq, q_client; constructor).
Qed.

Lemma evolves_cleanupClient a st : evolves R q st (cleanupClient a st).
Proof.
  unfold cleanupClient. destruct (cheap st !! a);
    [apply evolves_eq, q_clients | apply evolves_refl; apply _].
Qed.

Lemma evolves_handleClose ws st : evolves R q st (handleClose ws st).
Proof.
  unfold handleClose.
  destruct (resolve ws st) as [a|]; [|apply evolves_refl; apply _].
  destruct (cheap st !! a) as [c|]; [|apply evolves_refl; apply _].
  destruct (close_rooms_spec a (rooms st) st) as (_ & Hq & _).
  destruct (close_rooms a (rooms st) st) as [kept st1]. simpl in Hq.
  assert (H1 : evolves R q st (set_rooms kept st1)).
  { eapply evolves_trans; [apply _| |apply evolves_eq, q_rooms].
    by apply evolves_quiet. }
  assert (H4 : forall s, evolves R q s (cleanupClient a s))
    by (intros; apply evolves_cleanupClient).
  destruct (Client.owner c), (Client.room c);
    repeat evolves_step q_quiet ltac:(fail);
    (eapply evolves_trans; [apply _| |apply H4]);
    repeat evolves_step q_quiet ltac:(fail); exact H1.
Qed.

Lemma evolves_onConnect now wsid ws clientIp st :
  evolves R q st (onConnect now wsid ws clientIp st).
Proof.
  unfold onConnect. cbv zeta.
  set (st3 := set_clients _ _).
  assert (H3 : evolves R q st st3).
  { unfold st3.
    repeat evolves_step q_quiet
      ltac:(apply evolves_eq; first [apply q_clients | apply q_cheap]). }
  destruct (bool_decide _).
  - repeat evolves_step q_quiet ltac:(fail). exact H3.
  - pose proof (quiet_getroomlist (emit (ScheduleAlarm (now + 10 * 1000)) st3))
      as Hq.
    destruct (getroomlist _) as [roomlist st5]. simpl in Hq.
    unfold checkevents.
    repeat evolves_step q_quiet ltac:(apply evolves_eq, q_events).
    eapply evolves_trans; [apply _|exact H3|].
    eapply evolves_trans; [apply _| |by apply evolves_quiet].
    apply evolves_quiet; [apply _|done|apply quiet_emit].
Qed.
End CallFrames.

Lemma ban_rules_handle st c : evolves eq ban_rules st (handle st c).
Proof.
  destruct c; simpl.
  - by apply evolves_onConnect; [apply _|apply ban_rules_quiet|..].
  - apply evolves_webSocketMessage; [apply _|apply ban_rules_quiet|done|].
    intros. apply ban_rules_dispatch.
  - by apply evolves_handleClose; [apply _|apply ban_rules_quiet|..].
  - by apply evolves_alarm; [apply _|apply ban_rules_quiet|..].
Qed.

Lemma bannedIps_handle st c : evolves prefix bannedIps st (handle st c).
Proof.
  destruct c; simpl.
  - by apply evolves_onConnect; [apply _|apply bannedIps_quiet|..].
  - apply evolves_webSocketMessage; [apply _|apply bannedIps_quiet|done|].
    intros. apply bannedIps_dispatch.
  - by apply evolves_handleClose; [apply _|apply bannedIps_quiet|..].
  - by apply evolves_alarm; [apply _|apply bannedIps_quiet|..].
Qed.

Lemma construct_fields lingering :
  let st := construct lingering in
  rooms st = [] /\ events st = [] /\ clients st = [] /\ bannedKeys st = [] /\
  bannedIps st = [] /\ bannedKeyWords st = [] /\ cheap st = [] /\
  rheap st = [].
Proof.
  unfold construct.
  pose proof (quiet_foldl
                (fun s ws => emit (CloseWith (ws_id ws) 1011 "Server restarted") s)
                lingering (fun s x => quiet_emit _ s) initial)
    as (?&?&?&?&?&?&?&Hr&?).
  simpl. repeat split; try done.
  unfold erase_nums in Hr. simpl in Hr. by apply fmap_nil_inv in Hr.
Qed.

(** An invariant of the calls holds after every run. *)
Lemma run_invariant (P : State -> Prop) lingering :
  P (construct lingering) -> (forall st c, P st -> P (handle st c)) ->
  forall calls, P (run lingering calls).
Proof.
  intros H0 Hstep calls. unfold run.
  induction calls as [|c calls IH] using rev_ind; simpl; [done|].
  rewrite foldl_app. simpl. by apply Hstep.
Qed.

(** X1.  No call changes the list of banned keys or the list of banned
    keywords, and a call only ever appends to the list of banned
    addresses.  The constructor leaves the first two empty, so after any
    run no key is banned and [isBanned] rejects no text. *)
Theorem ban_lists_only_grow :
  (forall st c,
     bannedKeys (handle st c) = bannedKeys st /\
     bannedKeyWords (handle st c) = bannedKeyWords st /\
     bannedIps st `prefix_of` bannedIps (handle st c)) /\
  (forall lingering calls,
     bannedKeys (run lingering calls) = [] /\
     bannedKeyWords (run lingering calls) = [] /\
     forall text, isBanned text (run lingering calls) = false).
Proof.
  assert (Hstep : forall st c,
     bannedKeys (handle st c) = bannedKeys st /\
     bannedKeyWords (handle st c) = bannedKeyWords st /\
     bannedIps st `prefix_of` bannedIps (handle st c)).
  { intros st c. pose proof (ban_rules_handle st c) as H.
    pose proof (bannedIps_handle st c) as Hip.
    unfold evolves, ban_rules in H. injection H as H1 H2. by repeat split. }
  split; [exact Hstep|].
  intros lingering calls.
  assert (H : bannedKeys (run lingering calls) = []
              /\ bannedKeyWords (run lingering calls) = []).
  { apply (run_invariant
             (fun st => bannedKeys st = [] /\ bannedKeyWords st = [])).
    - by destruct (construct_fields lingering) as (_&_&_&?&_&?&_).
    - intros st c [Hk Hw]. destruct (Hstep st c) as (-> & -> & _). done. }
  destruct H as [Hk Hw]. repeat split; [done..|].
  intros text. unfold isBanned. rewrite Hw. by destruct text.
Qed.

(** *** Rooms always have an owner *)

Lemma directory_quiet st st' : quiet st st' -> directory st' = directory st.
Proof. intros (?&?&?&?&?&?&?&?&?). unfold directory. congruence. Qed.

Lemma rooms_owned_sub st st' :
  (forall r, r ∈ rooms st' -> r ∈ rooms st) ->
  erase_nums (rheap st') = erase_nums (rheap st) ->
  rooms_owned st -> rooms_owned st'.
Proof.
  intros Hsub He Hown r Hr.
  destruct (Hown r (Hsub r Hr)) as (R & o & HR & Ho & Hsm).
  destruct (erase_nums_fields _ _ r R He HR) as (R' & HR' & Ho' & _ & _ & Hsm').
  exists R', o. split; [done|]. split; congruence.
Qed.

Lemma rooms_owned_directory st st' :
  directory st' = directory st -> rooms_owned st -> rooms_owned st'.
Proof.
  unfold directory. intros H. injection H as Hr He.
  apply rooms_owned_sub; [|done]. by rewrite Hr.
Qed.

Lemma rooms_owned_evolves st st' :
  evolves eq directory st st' -> rooms_owned st -> rooms_owned st'.
Proof. unfold evolves. intros H. by apply rooms_owned_directory. Qed.

Lemma rooms_owned_upd_room r f st :
  (forall R, Room.owner (f R) = Room.owner R) ->
  (forall R, Room.servermode R = false -> Room.servermode (f R) = false) ->
  rooms_owned st -> rooms_owned (upd_room r f st).
Proof.
  intros Hfo Hfs Hown q Hq. destruct (Hown q Hq) as (R & o & HR & Ho & Hsm).
  unfold upd_room. simpl. destruct (decide (r = q)) as [->|Hne].
  - exists (f R), o. rewrite list_lookup_alter_eq, HR. simpl.
    split; [done|]. split; [by rewrite Hfo | by apply Hfs].
  - exists R, o. by rewrite list_lookup_alter_ne.
Qed.

Ltac directory_steps :=
  repeat evolves_step directory_quiet ltac:(unfold evolves; reflexivity).

Lemma rooms_owned_create a key nickname avatar config mode st :
  rooms_owned st ->
  rooms_owned (messages_create a key nickname avatar config mode st).
Proof.
  intros Hown. unfold messages_create.
  destruct (cheap st !! a) as [c|]; [|done].
  destruct (negb _); [done|]. cbv zeta.
  eapply rooms_owned_directory; [apply directory_quiet, quiet_sendl|].
  intros q Hq. simpl in Hq. apply elem_of_app in Hq as [Hq|Hq].
  - destruct (Hown q Hq) as (R & o & HR & Ho & Hsm).
    exists R, o. simpl. split; [|done].
    assert (Hlt : (q < length (rheap st))%nat) by by eapply lookup_lt_Some.
    rewrite !list_lookup_alter_ne by lia. by rewrite lookup_app_l.
  - apply list_elem_of_singleton in Hq as ->.
    exists (Room.set_key key (Room.set_owner (Some a) Room.empty)), a. simpl.
    split; [|done].
    rewrite !list_lookup_alter_eq.
    rewrite lookup_app_r by done. by rewrite Nat.sub_diag.
Qed.

Lemma rooms_at_elem k st r : rooms_at k st = Some r -> r ∈ rooms st.
Proof.
  unfold rooms_at. destruct (array_index _); [|done].
  apply list_elem_of_lookup_2.
Qed.

Lemma first_unowned_owned st : rooms_owned st -> first_unowned st = None.
Proof.
  intros Hown. unfold first_unowned.
  destruct (List.find _ _) as [r|] eqn:Hfind; [|done].
  apply find_some in Hfind as [Hin Hp].
  apply list_elem_of_In in Hin.
  destruct (Hown r Hin) as (R & o & HR & Ho & _).
  rewrite HR in Hp. apply bool_decide_eq_true_1 in Hp. congruence.
Qed.

(** With every room owned, [server] finds nothing to claim. *)
Lemma server_finds_no_slot a cfg st :
  rooms_owned st ->
  messages_server a cfg st =
    if truthy cfg
    then sendl a [VStr "reloadroom"; VBool true]
               (upd_client a (Client.set_servermode true) st)
    else updaterooms st.
Proof.
  intros Hown. unfold messages_server.
  destruct (truthy cfg); cbv zeta.
  - destruct (rooms_at _ _) as [r|] eqn:Hat; [|done].
    apply rooms_at_elem in Hat. simpl in Hat.
    destruct (Hown r Hat) as (R & o & HR & Ho & _).
    simpl. rewrite HR. rewrite bool_decide_eq_false_2; [done|congruence].
  - by rewrite first_unowned_owned.
Qed.

Lemma rooms_owned_config a config st :
  rooms_owned st -> rooms_owned (messages_config a config st).
Proof.
  intros Hown. unfold messages_config. cbv zeta.
  eapply rooms_owned_directory; [apply directory_quiet, quiet_updaterooms|].
  repeat match goal with
         | |- rooms_owned ?s => first [exact Hown | is_var s; fail 1]
         | |- rooms_owned (upd_room _ _ _) =>
             apply rooms_owned_upd_room; [by intros []|by intros []|]
         | |- rooms_owned (upd_client _ _ ?t) =>
             apply (rooms_owned_directory t); [reflexivity|]
         | |- rooms_owned (sendl _ _ ?t) =>
             apply (rooms_owned_directory t);
             [apply directory_quiet, quiet_sendl|]
         | |- rooms_owned (if ?b then _ else _) => destruct b
         | |- rooms_owned (match ?x with _ => _ end) => destruct x
         end.
Qed.

Lemma rooms_owned_dispatch time fresh_id a type args st :
  rooms_owned st -> rooms_owned (dispatch time fresh_id a type args st).
Proof.
  intros Hown. unfold dispatch.
  destruct (String.eqb _ "create"); [by apply rooms_owned_create|].
  destruct (String.eqb _ "enter").
  { apply (rooms_owned_evolves st); [|done]. unfold_handlers. directory_steps. }
  destruct (String.eqb _ "changeAvatar").
  { apply (rooms_owned_evolves st); [|done]. unfold_handlers. directory_steps. }
  destruct (String.eqb _ "server").
  { rewrite server_finds_no_slot by done.
    apply (rooms_owned_evolves st); [|done]. directory_steps. }
  destruct (String.eqb _ "key").
  { apply (rooms_owned_evolves st); [|done]. unfold_handlers. directory_steps. }
  destruct (String.eqb _ "events").
  { apply (rooms_owned_evolves st); [|done]. unfold_handlers. directory_steps. }
  destruct (String.eqb _ "config"); [by apply rooms_owned_config|].
  destruct (String.eqb _ "status").
  { apply (rooms_owned_evolves st); [|done]. unfold_handlers. directory_steps. }
  destruct (String.eqb _ "send").
  { apply (rooms_owned_evolves st); [|done]. unfold_handlers. directory_steps. }
  destruct (String.eqb _ "close"); [|done].
  apply (rooms_owned_evolves st); [|done]. unfold_handlers. directory_steps.
Qed.

Lemma rooms_owned_handle st c : rooms_owned st -> rooms_owned (handle st c).
Proof.
  intros Hown. destruct c; simpl.
  - apply (rooms_owned_evolves st); [|done].
    by apply evolves_onConnect; [apply _|apply directory_quiet|..].
  - unfold webSocketMessage, touch.
    destruct (resolve ws st) as [a|]; [|done].
    destruct (cheap st !! a) as [c|]; [|done].
    destruct (String.eqb message "heartbeat");
      [apply (rooms_owned_evolves st); [directory_steps|done]|].
    destruct (Client.owner c);
      [apply (rooms_owned_evolves st); [directory_steps|done]|].
    destruct (JSON_parse message) as [[]|];
      try solve [apply (rooms_owned_evolves st); [directory_steps|done]].
    destruct (strict_eq _ _);
      [|apply (rooms_owned_evolves st); [directory_steps|done]].
    apply rooms_owned_dispatch.
    apply (rooms_owned_evolves st); [directory_steps|done].
  - unfold handleClose.
    destruct (resolve ws st) as [a|]; [|done].
    destruct (cheap st !! a) as [c|]; [|done].
    destruct (close_rooms_spec a (rooms st) st) as (Hkept & Hq & _).
    destruct (close_rooms a (rooms st) st) as [kept st1]. simpl in Hkept, Hq.
    assert (H1 : rooms_owned (set_rooms kept st1)).
    { apply (rooms_owned_sub st); [|exact (quiet_rheap _ _ Hq)|done].
      intros r Hr. simpl in Hr. rewrite Hkept in Hr.
      apply list_elem_of_In, filter_In in Hr as [Hr _].
      by apply list_elem_of_In. }
    set (st3 := match Client.owner c with Some o => _ | None => _ end).
    assert (H3 : evolves eq directory (set_rooms kept st1) (cleanupClient a st3)).
    { unfold cleanupClient, st3. destruct (Client.owner c); directory_steps. }
    destruct (Client.room c).
    + apply (rooms_owned_directory (cleanupClient a st3));
        [apply directory_quiet, quiet_updaterooms|].
      by apply (rooms_owned_evolves _ _ H3).
    + apply (rooms_owned_directory (cleanupClient a st3));
        [apply directory_quiet, quiet_updateclients|].
      by apply (rooms_owned_evolves _ _ H3).
  - apply (rooms_owned_evolves st); [|done].
    by apply evolves_alarm; [apply _|apply directory_quiet|..].
Qed.


(** *** The registry *)

Lemma map_get_elem k a m : map_get k m = Some a -> (k, a) ∈ m.
Proof.
  induction m as [|[k' b] m IH]; simpl; [done|].
  destruct (String.eqb k k') eqn:Hk.
  - apply String.eqb_eq in Hk as ->. intros [= ->]. by left.
  - intros H. right. by apply IH.
Qed.

Lemma map_get_absent k m : k ∉ m.*1 -> map_get k m = None.
Proof.
  induction m as [|[k' b] m IH]; simpl; [done|].
  intros Hk. apply not_elem_of_cons in Hk as [Hne Hk].
  destruct (String.eqb k k') eqn:Heq.
  - by apply String.eqb_eq in Heq.
  - by apply IH.
Qed.

Lemma elem_map_get k a m : NoDup m.*1 -> (k, a) ∈ m -> map_get k m = Some a.
Proof.
  induction m as [|[k' b] m IH]; simpl; intros Hnd Hin.
  - by apply elem_of_nil in Hin.
  - apply NoDup_cons in Hnd as [Hk' Hnd].
    apply elem_of_cons in Hin as [[= <- <-]|Hin].
    + by rewrite String.eqb_refl.
    + destruct (String.eqb k k') eqn:Heq; [|by apply IH].
      apply String.eqb_eq in Heq as ->.
      destruct Hk'. apply list_elem_of_fmap. by exists (k', a).
Qed.

(** [Map.set]: the entry of the key is the new one, the others stay. *)
Lemma map_set_elem k a m x :
  NoDup m.*1 ->
  x ∈ map_set k a m <-> x = (k, a) \/ (x ∈ m /\ x.1 <> k).
Proof.
  induction m as [|[k' b] m IH]; simpl; intros Hnd.
  - rewrite list_elem_of_singleton, elem_of_nil. tauto.
  - apply NoDup_cons in Hnd as [Hk' Hnd].
    destruct (String.eqb k k') eqn:Heq.
    + apply String.eqb_eq in Heq as <-. rewrite !elem_of_cons. split.
      * intros [->|H]; [by left|]. right. split; [by right|].
        intros Hx. apply Hk'. apply list_elem_of_fmap. by exists x.
      * intros [->|[[->|H] Hne]]; [by left|done|by right].
    + apply String.eqb_neq in Heq. rewrite !elem_of_cons, (IH Hnd). split.
      * intros [->|[->|[H Hne]]]; [|by left|].
        -- right. split; [by left|]. simpl. congruence.
        -- right. split; [by right|done].
      * intros [->|[[->|H] Hne]]; [right; by left|by left|].
        right. right. done.
Qed.

Lemma map_set_keys k a m : NoDup m.*1 -> NoDup (map_set k a m).*1.
Proof.
  induction m as [|[k' b] m IH]; simpl; intros Hnd.
  - apply NoDup_singleton.
  - apply NoDup_cons in Hnd as [Hk' Hnd].
    destruct (String.eqb k k') eqn:Heq; simpl.
    + by apply NoDup_cons.
    + apply String.eqb_neq in Heq. apply NoDup_cons. split; [|by apply IH].
      intros Hin. apply list_elem_of_fmap in Hin as ([k1 a1] & Hk1 & Hin).
      simpl in Hk1. subst k1.
      apply (map_set_elem _ _ _ _ Hnd) in Hin as [[= -> ->]|[Hin _]]; [done|].
      apply Hk'. apply list_elem_of_fmap. by exists (k', a1).
Qed.

Lemma map_set_addrs k a m :
  NoDup m.*1 -> NoDup m.*2 -> a ∉ m.*2 -> NoDup (map_set k a m).*2.
Proof.
  induction m as [|[k' b] m IH]; simpl; intros Hk Hnd Ha.
  - apply NoDup_singleton.
  - apply NoDup_cons in Hnd as [Hb Hnd]. apply NoDup_cons in Hk as [_ Hk].
    apply not_elem_of_cons in Ha as [Hab Ha].
    destruct (String.eqb k k') eqn:Heq; simpl.
    + by apply NoDup_cons.
    + apply NoDup_cons. split; [|by apply IH].
      intros Hin. apply list_elem_of_fmap in Hin as ([k1 a1] & Ha1 & Hin).
      simpl in Ha1. subst a1.
      apply (map_set_elem _ _ _ _ Hk) in Hin as [[= -> ->]|[Hin _]]; [done|].
      apply Hb. apply list_elem_of_fmap. by exists (k1, b).
Qed.

(** [Map.delete] *)
Lemma map_delete_sublist k m : map_delete k m `sublist_of` m.
Proof.
  induction m as [|[k' b] m IH]; simpl; [done|].
  destruct (String.eqb k k'); [by apply sublist_cons | by apply sublist_skip].
Qed.

Lemma map_delete_gone k m : NoDup m.*1 -> k ∉ (map_delete k m).*1.
Proof.
  induction m as [|[k' b] m IH]; simpl; intros Hnd; [apply not_elem_of_nil|].
  apply NoDup_cons in Hnd as [Hk' Hnd].
  destruct (String.eqb k k') eqn:Heq.
  - by apply String.eqb_eq in Heq as ->.
  - apply String.eqb_neq in Heq. simpl. apply not_elem_of_cons.
    split; [done | by apply IH].
Qed.

Lemma map_delete_other k k' m :
  k' <> k -> map_get k' (map_delete k m) = map_get k' m.
Proof.
  intros Hne. induction m as [|[k1 b] m IH]; simpl; [done|].
  destruct (String.eqb k k1) eqn:Heq.
  - apply String.eqb_eq in Heq as <-.
    by rewrite (proj2 (String.eqb_neq k' k)).
  - simpl. by rewrite IH.
Qed.

Lemma keeps_wsid_lookup st st' a c :
  keeps Client.wsid st st' -> cheap st !! a = Some c ->
  exists c', cheap st' !! a = Some c' /\ Client.wsid c' = Client.wsid c.
Proof.
  unfold keeps. intros Hk Hc.
  assert (H : Client.wsid <$> cheap st' !! a = Client.wsid <$> cheap st !! a).
  { by rewrite <- !list_lookup_fmap, Hk. }
  rewrite Hc in H. destruct (cheap st' !! a) as [c'|]; [|done].
  exists c'. simpl in H. by injection H as ->.
Qed.

Lemma registry_wf_identities st st' :
  identities st' = identities st -> registry_wf st -> registry_wf st'.
Proof.
  unfold identities. intros H. injection H as Hcl Hw.
  intros (Hk & Ha & Hreg). unfold registry_wf. rewrite Hcl.
  split; [done|]. split; [done|].
  intros k a Hin. destruct (Hreg k a Hin) as (c & Hc & Hid).
  destruct (keeps_wsid_lookup st st' a c Hw Hc) as (c' & Hc' & Hid').
  exists c'. split; [done|congruence].
Qed.

Lemma identities_quiet st st' : quiet st st' -> identities st' = identities st.
Proof. intros (?&?&?&?&?&?&?&?&?). unfold identities. congruence. Qed.

Lemma identities_stamp a f st :
  stamp f -> identities (upd_client a f st) = identities st.
Proof.
  intros Hf. unfold identities. f_equal.
  apply (keeps_upd_client Client.wsid). by destruct Hf.
Qed.

Lemma clients_quiet st st' : quiet st st' -> clients st' = clients st.
Proof. apply quiet_clients. Qed.

Lemma clients_dispatch time fresh_id a type args st :
  evolves eq clients st (dispatch time fresh_id a type args st).
Proof.
  unfold dispatch. repeat (destruct (String.eqb _ _); [|]).
  all: unfold_handlers.
  all: repeat evolves_step clients_quiet ltac:(unfold evolves; reflexivity).
Qed.

Lemma wsid_stable : handler_stable Client.wsid.
Proof. by repeat split. Qed.

Lemma identities_dispatch time fresh_id a type args st :
  evolves eq identities st (dispatch time fresh_id a type args st).
Proof.
  unfold evolves, identities. f_equal.
  - apply clients_dispatch.
  - symmetry. apply keeps_dispatch, wsid_stable.
Qed.

(** What a close event does to the registry and to the client objects. *)
Lemma handleClose_registry ws st a c :
  resolve ws st = Some a -> cheap st !! a = Some c ->
  clients (handleClose ws st) = map_delete (Client.wsid c) (clients st) /\
  cheap (handleClose ws st) = cheap st.
Proof.
  intros Hres Hc. unfold handleClose. rewrite Hres, Hc.
  destruct (close_rooms_spec a (rooms st) st) as (_ & Hq & _).
  destruct (close_rooms a (rooms st) st) as [kept st1]. simpl in Hq.
  set (st3 := match Client.owner c with Some o => _ | None => _ end).
  assert (H3 : clients st3 = clients st /\ cheap st3 = cheap st).
  { unfold st3. destruct (Client.owner c); rewrite ?sendl_eq; simpl;
      by rewrite (quiet_clients _ _ Hq), (quiet_cheap _ _ Hq). }
  destruct H3 as [Hcl Hch].
  assert (H4 : clients (cleanupClient a st3)
               = map_delete (Client.wsid c) (clients st)
               /\ cheap (cleanupClient a st3) = cheap st).
  { unfold cleanupClient. rewrite Hch, Hc. simpl. by rewrite Hcl. }
  destruct H4 as [Hcl4 Hch4].
  destruct (Client.room c).
  - pose proof (quiet_updaterooms (cleanupClient a st3)) as Hu.
    by rewrite (quiet_clients _ _ Hu), (quiet_cheap _ _ Hu).
  - pose proof (quiet_updateclients (cleanupClient a st3)) as Hu.
    by rewrite (quiet_clients _ _ Hu), (quiet_cheap _ _ Hu).
Qed.

(** What a connection does to the registry and to the client objects. *)
Lemma onConnect_registry now wsid ws clientIp st :
  let st' := onConnect now wsid ws clientIp st in
  clients st' = map_set wsid (length (cheap st)) (clients st) /\
  cheap st' = cheap st ++ [new_client (ws_id ws) wsid clientIp now].
Proof.
  unfold onConnect. cbv zeta.
  set (st3 := set_clients _ _).
  destruct (bool_decide _).
  - rewrite sendl_eq. done.
  - pose proof (quiet_getroomlist (emit (ScheduleAlarm (now + 10 * 1000)) st3))
      as Hq.
    destruct (getroomlist _) as [roomlist st5]. simpl in Hq.
    rewrite sendl_eq. simpl.
    by rewrite (quiet_clients _ _ Hq), (quiet_cheap _ _ Hq).
Qed.

Lemma registry_wf_handleClose ws st :
  registry_wf st -> registry_wf (handleClose ws st).
Proof.
  intros Hwf. unfold handleClose.
  destruct (resolve ws st) as [a|] eqn:Hres; [|done].
  destruct (cheap st !! a) as [c|] eqn:Hc; [|done].
  destruct (handleClose_registry ws st a c Hres Hc) as [Hcl Hch].
  unfold handleClose in Hcl, Hch. rewrite Hres, Hc in Hcl, Hch.
  destruct Hwf as (Hk & Ha & Hreg).
  pose proof (map_delete_sublist (Client.wsid c) (clients st)) as Hsub.
  unfold registry_wf. rewrite Hcl, Hch.
  split; [|split].
  - apply (sublist_NoDup _ _ Hk). by apply fmap_sublist.
  - apply (sublist_NoDup _ _ Ha). by apply fmap_sublist.
  - intros k b Hin. apply Hreg. by eapply elem_of_sublist.
Qed.

Lemma registry_wf_handle st c : registry_wf st -> registry_wf (handle st c).
Proof.
  intros Hwf. destruct c; simpl.
  - destruct (onConnect_registry now wsid ws clientIp st) as [Hcl Hch].
    destruct Hwf as (Hk & Ha & Hreg).
    assert (Hfresh : length (cheap st) ∉ (clients st).*2).
    { intros Hin. apply list_elem_of_fmap in Hin as ([k a] & Hlen & Hin).
      simpl in Hlen. destruct (Hreg k a Hin) as (c & Hc & _).
      apply lookup_lt_Some in Hc. lia. }
    unfold registry_wf. rewrite Hcl, Hch.
    split; [by apply map_set_keys|]. split; [by apply map_set_addrs|].
    intros k a Hin.
    apply (map_set_elem _ _ _ _ Hk) in Hin as [[= -> ->]|[Hin _]].
    + eexists. rewrite lookup_app_r by done. rewrite Nat.sub_diag. done.
    + destruct (Hreg k a Hin) as (c & Hc & Hid). exists c.
      by rewrite lookup_app_l by by eapply lookup_lt_Some.
  - apply (registry_wf_identities st); [|done]. symmetry.
    apply (evolves_webSocketMessage eq identities identities_quiet);
      [intros; by apply identities_stamp|].
    intros. apply identities_dispatch.
  - by apply registry_wf_handleClose.
  - apply (registry_wf_identities st); [|done]. symmetry.
    apply (evolves_alarm eq identities identities_quiet).
    intros; by apply identities_stamp.
Qed.

(** X3.  After any run of calls on a constructed object, the registry
    holds each id once and each client object once, and the object
    registered under an id is allocated and carries that id. *)
Theorem registry_consistent lingering calls :
  registry_wf (run lingering calls).
Proof.
  apply (run_invariant registry_wf); [|apply registry_wf_handle].
  destruct (construct_fields lingering) as (_ & _ & Hcl & _).
  unfold registry_wf. rewrite Hcl. simpl.
  split; [apply NoDup_nil_2|]. split; [apply NoDup_nil_2|].
  intros k a Hin. by apply elem_of_nil in Hin.
Qed.

Lemma resolve_elem ws st a : resolve ws st = Some a ->
  exists k, ws_attachment ws = AttWsid k /\ (k, a) ∈ clients st.
Proof.
  unfold resolve. destruct (ws_attachment ws) as [| |k]; try done.
  destruct (String.eqb k ""); [done|]. intros H. exists k.
  split; [done | by apply map_get_elem].
Qed.

(** X4.  In a consistent registry, the close event of a session removes
    exactly that session: its socket no longer resolves, so a second close
    event and every later frame on it change nothing, while every other
    session resolves as before and no client object is changed. *)
Theorem closed_session_is_gone ws st a :
  registry_wf st -> resolve ws st = Some a ->
  let st' := handleClose ws st in
  resolve ws st' = None /\
  handleClose ws st' = st' /\
  (forall now fresh_id message,
     webSocketMessage now fresh_id ws message st' = st') /\
  (forall ws' b, resolve ws' st = Some b -> b <> a ->
                 resolve ws' st' = Some b) /\
  cheap st' = cheap st.
Proof.
  intros (Hk & Ha & Hreg) Hres st'.
  destruct (resolve_elem ws st a Hres) as (k & Hatt & Hin).
  destruct (Hreg k a Hin) as (c & Hc & Hid).
  destruct (handleClose_registry ws st a c Hres Hc) as [Hcl Hch].
  fold st' in Hcl, Hch.
  assert (Hgone : resolve ws st' = None).
  { unfold resolve. rewrite Hatt. destruct (String.eqb k ""); [done|].
    rewrite Hcl, Hid. by apply map_get_absent, map_delete_gone. }
  split; [done|]. split; [|split; [|split; [|done]]].
  - unfold handleClose at 1. by rewrite Hgone.
  - intros now fresh_id message. unfold webSocketMessage. by rewrite Hgone.
  - intros ws' b Hres' Hne.
    destruct (resolve_elem ws' st b Hres') as (k' & Hatt' & Hin').
    assert (Hkk : k' <> k).
    { intros ->. apply Hne.
      pose proof (elem_map_get _ _ _ Hk Hin) as H1.
      pose proof (elem_map_get _ _ _ Hk Hin') as H2. congruence. }
    unfold resolve in Hres' |- *. rewrite Hatt' in Hres' |- *.
    destruct (String.eqb k' ""); [done|].
    by rewrite Hcl, Hid, map_delete_other.
Qed.

(** *** The event list *)

Lemma events_quiet st st' : quiet st st' -> events st' = events st.
Proof. by intros (?&?&?&?&?&?&?&?&?). Qed.

Ltac events_steps :=
  repeat evolves_step events_quiet ltac:(unfold evolves; reflexivity).

Lemma assoc_set_lookup {X} k (x : X) l : assoc k (assoc_set k x l) = Some x.
Proof.
  induction l as [|[k' y] l IH]; simpl.
  - by rewrite String.eqb_refl.
  - destruct (String.eqb k k') eqn:Heq; simpl; by rewrite Heq.
Qed.


Lemma has_members_object e : has_members e -> exists fields, e = VObj fields.
Proof. intros (m & ms & H). destruct e; try done. by eexists. Qed.

Lemma prop_field_obj_set k x fields :
  prop_field (obj_set k x (VObj fields)) k = x.
Proof. simpl. by rewrite assoc_set_lookup. Qed.

Lemma has_members_set e m ms :
  has_members e -> has_members (obj_set "members" (VArr (m :: ms)) e).
Proof.
  intros He. destruct (has_members_object e He) as [fields ->].
  exists m, ms. apply prop_field_obj_set.
Qed.

(** The join/leave loop never lengthens the list and keeps every member
    list non-empty. *)
Lemma events_member_loop_wf cfg id type evs :
  Forall has_members evs ->
  let res := events_member_loop cfg id type evs in
  (length res.2 <= length evs)%nat /\ Forall has_members res.2.
Proof.
  induction evs as [|e evs IH]; intros Hall; simpl; [done|].
  apply Forall_cons in Hall as [He Hall].
  destruct (IH Hall) as [Hlen Hm].
  destruct (events_member_loop cfg id type evs) as [changed' rest].
  simpl in Hlen, Hm.
  assert (Hkeep : (length (e :: rest) <= S (length evs))%nat
                  /\ Forall has_members (e :: rest)).
  { simpl. split; [lia|]. by apply Forall_cons. }
  destruct (strict_eq _ cfg); [|done].
  destruct He as (m & ms & Hmem). rewrite Hmem.
  assert (He : has_members e) by by exists m, ms.
  destruct (strict_eq type (VStr "join")).
  { simpl. split; [lia|]. apply Forall_cons. split; [|done].
    destruct (not_member id (m :: ms)); by apply has_members_set. }
  destruct (strict_eq type (VStr "leave")); [|done].
  destruct (not_member id (m :: ms)); [done|].
  destruct (remove_first id (m :: ms)) as [|m' ms'].
  - simpl. split; [lia|done].
  - simpl. split; [lia|]. apply Forall_cons. split; [|done].
    by apply has_members_set.
Qed.

Lemma has_members_new_event cfg id fresh_id :
  has_own cfg "utc" = true -> has_members (new_event cfg id fresh_id).
Proof.
  intros Hown. destruct cfg as [| | | | | | |fields]; try done.
  exists id, []. unfold new_event. cbv zeta. simpl.
  by rewrite assoc_set_lookup.
Qed.

Lemma events_wf_filter (p : value -> bool) evs :
  (length evs <= 20)%nat /\ Forall has_members evs ->
  (length (List.filter p evs) <= 20)%nat
  /\ Forall has_members (List.filter p evs).
Proof.
  intros [Hlen Hm]. split.
  - pose proof (List.filter_length_le p evs). lia.
  - apply Forall_forall. intros e He.
    apply list_elem_of_In, filter_In in He as [He _].
    apply list_elem_of_In in He. by eapply Forall_forall in Hm.
Qed.

Lemma events_wf_same st st' : events st' = events st -> events_wf st -> events_wf st'.
Proof. unfold events_wf. by intros ->. Qed.

Lemma events_wf_evolves st st' :
  evolves eq events st st' -> events_wf st -> events_wf st'.
Proof. unfold evolves. intros H. by apply events_wf_same. Qed.

Lemma events_wf_updateevents time st :
  events_wf st -> events_wf (updateevents time st).
Proof.
  intros Hwf. unfold updateevents. cbv zeta.
  apply (events_wf_same (checkevents time st));
    [apply events_quiet, quiet_broadcast_lobby|].
  unfold events_wf, checkevents. simpl. by apply events_wf_filter.
Qed.

Lemma events_wf_messages_events time fresh_id a cfg id type st :
  events_wf st -> events_wf (messages_events time fresh_id a cfg id type st).
Proof.
  intros Hwf. unfold messages_events.
  destruct (cheap st !! a) as [c|]; [|done].
  destruct (_ || _ || _).
  { apply (events_wf_evolves st); [events_steps|done]. }
  destruct (truthy cfg && truthy id); [|done].
  destruct (is_string cfg).
  { destruct Hwf as [Hlen Hm].
    destruct (events_member_loop_wf cfg id type (events st) Hm) as [Hlen' Hm'].
    destruct (events_member_loop cfg id type (events st)) as [changed evs].
    simpl in Hlen', Hm'.
    assert (Hwf1 : events_wf (set_events evs st)).
    { split; simpl; [lia|done]. }
    destruct changed; [by apply events_wf_updateevents | done]. }
  destruct (has_own cfg "utc") eqn:Hutc; [|done]. simpl.
  destruct (has_own cfg "day" && has_own cfg "hour" && has_own cfg "content");
    [|done].
  destruct (bool_decide (20 <= length (events st))%nat) eqn:Hfull.
  { apply (events_wf_evolves st); [events_steps|done]. }
  apply bool_decide_eq_false_1 in Hfull.
  destruct (js_le_num _ _).
  { apply (events_wf_evolves st); [events_steps|done]. }
  destruct (isBanned _ _).
  { apply (events_wf_evolves st); [events_steps|done]. }
  apply events_wf_updateevents. destruct Hwf as [Hlen Hm].
  split; simpl; [lia|]. apply Forall_cons. split; [|done].
  by apply has_members_new_event.
Qed.

Lemma events_wf_dispatch time fresh_id a type args st :
  events_wf st -> events_wf (dispatch time fresh_id a type args st).
Proof.
  intros Hwf. unfold dispatch.
  repeat (destruct (String.eqb _ _);
          [first [by apply events_wf_messages_events
                 |apply (events_wf_evolves st);
                  [unfold_handlers; events_steps|done]]|]).
  done.
Qed.

Lemma events_wf_handle st c : events_wf st -> events_wf (handle st c).
Proof.
  intros Hwf. destruct c; simpl.
  - unfold onConnect. cbv zeta.
    set (st3 := set_clients _ _).
    destruct (bool_decide _).
    + apply (events_wf_evolves st); [subst st3; events_steps|done].
    + pose proof (quiet_getroomlist (emit (ScheduleAlarm (now + 10 * 1000)) st3))
        as Hq.
      destruct (getroomlist _) as [roomlist st5]. simpl in Hq.
      apply (events_wf_same (checkevents now st5));
        [apply events_quiet, quiet_sendl|].
      unfold events_wf, checkevents. simpl. apply events_wf_filter.
      by rewrite (events_quiet _ _ Hq).
  - unfold webSocketMessage, touch.
    destruct (resolve ws st) as [a|]; [|done].
    destruct (cheap st !! a) as [c|]; [|done].
    destruct (String.eqb message "heartbeat");
      [apply (events_wf_evolves st); [events_steps|done]|].
    destruct (Client.owner c);
      [apply (events_wf_evolves st); [events_steps|done]|].
    destruct (JSON_parse message) as [[]|];
      try solve [apply (events_wf_evolves st); [events_steps|done]].
    destruct (strict_eq _ _);
      [|apply (events_wf_evolves st); [events_steps|done]].
    apply events_wf_dispatch.
    apply (events_wf_evolves st); [events_steps|done].
  - apply (events_wf_evolves st); [|done].
    by apply evolves_handleClose; [apply _|apply events_quiet|..].
  - apply (events_wf_evolves st); [|done].
    by apply evolves_alarm; [apply _|apply events_quiet|..].
Qed.

(** X5.  After any run of calls on a constructed object at most twenty
    events are stored, and every stored event has a non-empty array of
    members. *)
Theorem events_bounded lingering calls :
  events_wf (run lingering calls).
Proof.
  apply (run_invariant events_wf); [|apply events_wf_handle].
  destruct (construct_fields lingering) as (_ & Hev & _).
  unfold events_wf. rewrite Hev. simpl. split; [lia|done].
Qed.

(** *** Who may act on whom *)

Lemma owned_target_spec a id st t tc :
  owned_target a id st = Some (t, tc) ->
  clients_get id st = Some t /\ cheap st !! t = Some tc /\
  Client.owner tc = Some a.
Proof.
  unfold owned_target. destruct (clients_get id st) as [t'|]; [|done].
  destruct (cheap st !! t') as [tc'|] eqn:Htc; [|done].
  destruct (bool_decide _) eqn:Hown; [|done].
  intros [= <- <-]. by apply bool_decide_eq_true_1 in Hown.
Qed.

(** X6.  The commands [send] and [close] act on one socket at most, that
    of the registered session named by [id], and only if that session's
    owner link is the caller; they change nothing in the lobby but the
    trace.  When the named session is not a guest of the caller, nothing
    happens at all. *)
Theorem relay_commands_reach_own_guests a id message st :
  let sent := messages_send a id message st in
  let closed := messages_close a id st in
  quiet st sent /\ quiet st closed /\
  (forall e w,
     e ∈ news st sent \/ e ∈ news st closed -> on_socket e = Some w ->
     exists t tc, clients_get id st = Some t /\ cheap st !! t = Some tc /\
                  Client.owner tc = Some a /\ Client.ws tc = w) /\
  ((forall t tc, clients_get id st = Some t -> cheap st !! t = Some tc ->
                 Client.owner tc <> Some a) ->
   sent = st /\ closed = st) /\
  (forall t tc, clients_get id st = Some t -> cheap st !! t = Some tc ->
                Client.owner tc = Some a ->
     news st sent
       = Send (Client.ws tc) (FRaw message)
         :: (if send_throws (Client.ws tc) (FRaw message)
             then [Close (Client.ws tc)] else []) /\
     news st closed = [Close (Client.ws tc)]).
Proof.
  intros sent closed. subst sent closed. unfold messages_send, messages_close.
  destruct (owned_target a id st) as [[t tc]|] eqn:Htarget.
  - destruct (owned_target_spec _ _ _ _ _ Htarget) as (Hget & Htc & Hown).
    assert (Hsent : news st (try_send (Client.ws tc) (FRaw message)
                                      (closeClient t) st)
                    = Send (Client.ws tc) (FRaw message)
                      :: (if send_throws (Client.ws tc) (FRaw message)
                          then [Close (Client.ws tc)] else [])).
    { unfold news, try_send, closeClient. simpl. rewrite Htc.
      destruct (send_throws _ _); simpl.
      - by rewrite <- app_assoc, drop_app_length.
      - by rewrite drop_app_length. }
    assert (Hclosed : news st (closeClient t st) = [Close (Client.ws tc)]).
    { unfold news, closeClient. rewrite Htc. simpl. by rewrite drop_app_length. }
    split; [|split; [|split; [|split]]].
    + unfold try_send. destruct (send_throws _ _).
      * eapply quiet_trans; [apply quiet_emit | apply quiet_closeClient].
      * apply quiet_emit.
    + apply quiet_closeClient.
    + intros e w He Hw. exists t, tc. repeat split; try done.
      rewrite Hsent, Hclosed in He.
      destruct (send_throws _ _);
        rewrite ?elem_of_cons, ?elem_of_nil in He;
        destruct He as [He|He]; intuition (subst; simpl in Hw; congruence).
    + intros Hnone. destruct (Hnone t tc Hget Htc Hown).
    + intros t' tc' Hget' Htc' _.
      assert (t' = t) as -> by congruence.
      assert (tc' = tc) as -> by congruence. done.
  - split; [apply quiet_refl|]. split; [apply quiet_refl|].
    split; [|split; [done|]].
    + intros e w He. rewrite news_refl, elem_of_nil in He. tauto.
    + intros t tc Hget Htc Hown. unfold owned_target in Htarget.
      rewrite Hget, Htc in Htarget.
      by rewrite bool_decide_eq_true_2 in Htarget.
Qed.


(** *** From admission to relaying *)

(** X8.  When [enter] admits a session into a room (the room has an
    owner and a config that allows entering, and the call is not a claim),
    the session's owner link is set to the room's owner, who is sent
    [onconnection] with the session's id.  From then on every frame of
    that session other than a heartbeat is forwarded to the owner as
    [onmessage] with the session's id and the text, whatever the text is:
    it is not parsed, no command runs, and nothing but the session's
    liveness stamp changes. *)
Theorem admitted_guest_is_relayed
        a key nickname avatar config mode st c r R o oc ws :
  resolve ws st = Some a -> cheap st !! a = Some c ->
  find_room key st = Some r -> rheap st !! r = Some R ->
  Room.owner R = Some o -> cheap st !! o = Some oc ->
  is_claim st R o config mode = false ->
  not_enterable (Room.config R) = false ->
  let st1 := messages_enter a key nickname avatar config mode st in
  (exists c1, cheap st1 !! a = Some c1 /\ Client.owner c1 = Some o /\
              Client.room c1 = Some r /\ Client.wsid c1 = Client.wsid c) /\
  Send (Client.ws oc) (FJson [VStr "onconnection"; VStr (Client.wsid c)])
    ∈ news st st1 /\
  forall now fresh_id message, message <> "heartbeat" ->
    let st2 := webSocketMessage now fresh_id ws message st1 in
    news st1 st2
      = Send (Client.ws oc)
             (FJson [VStr "onmessage"; VStr (Client.wsid c); VStr message])
        :: (if send_throws (Client.ws oc)
              (FJson [VStr "onmessage"; VStr (Client.wsid c); VStr message])
            then [Close (Client.ws oc)] else []) /\
    rooms st2 = rooms st1 /\ rheap st2 = rheap st1 /\
    clients st2 = clients st1 /\ events st2 = events st1 /\
    bannedIps st2 = bannedIps st1 /\
    forall b, b <> a -> cheap st2 !! b = cheap st1 !! b.
Proof.
  intros Hres Hc Hfind HR Ho Hoc Hclaim Hopen st1.
  set (c1 := Client.set_owner (Some o)
               (Client.set_status VUndef
                  (Client.set_room (Some r) (set_identity nickname avatar c)))).
  set (st3 := upd_client a (Client.set_status VUndef)
                (upd_client a (Client.set_room (Some r))
                   (upd_client a (set_identity nickname avatar) st))).
  set (st4 := upd_client a (Client.set_owner (Some o)) st3).
  set (s5 := sendl o [VStr "onconnection"; VStr (Client.wsid c)] st4).
  assert (Hc4 : cheap st4 !! a = Some c1).
  { unfold st4, st3. rewrite !upd_client_lookup, Hc. done. }
  assert (Hst1 : st1 = updaterooms s5).
  { subst st1. unfold messages_enter.
    change (find_room key (upd_client a (set_identity nickname avatar) st))
      with (find_room key st).
    rewrite Hfind. cbv zeta. fold st3.
    change (rheap st3) with (rheap st). rewrite HR, Ho.
    assert (is_claim st3 R o config mode = false) as ->.
    { unfold st3. by rewrite !is_claim_upd_client. }
    rewrite Hopen. fold st4. by rewrite Hc4. }
  pose proof (quiet_updaterooms s5) as Hq. rewrite <- Hst1 in Hq.
  assert (Hch1 : cheap st1 = cheap st4).
  { rewrite (quiet_cheap _ _ Hq). unfold s5. by rewrite sendl_eq. }
  assert (Hcl1 : clients st1 = clients st).
  { rewrite (quiet_clients _ _ Hq). unfold s5. by rewrite sendl_eq. }
  assert (Hws4 : Client.ws <$> cheap st4 !! o = Some (Client.ws oc)).
  { unfold st4, st3. simpl.
    destruct (decide (a = o)) as [->|Hne].
    - rewrite !list_lookup_alter_eq, Hoc. done.
    - by rewrite !list_lookup_alter_ne, Hoc. }
  split; [|split].
  - exists c1. by rewrite Hch1.
  - eapply elem_news_l with (s := s5);
      [unfold s5; rewrite sendl_eq; simpl; by apply prefix_app_r
      |by apply quiet_prefix|].
    change (news st s5) with (news st4 s5).
    unfold s5. rewrite news_sendl. unfold sendl_effects.
    destruct (cheap st4 !! o) as [oc4|]; [|done].
    simpl in Hws4. injection Hws4 as ->. by left.
  - intros now fresh_id message Hmsg st2.
    assert (Hres1 : resolve ws st1 = Some a).
    { by rewrite (resolve_clients _ _ _ Hcl1). }
    assert (Hst2 : st2 = sendl o [VStr "onmessage"; VStr (Client.wsid c);
                                  VStr message] (touch now a st1)).
    { subst st2. unfold webSocketMessage. rewrite Hres1, Hch1, Hc4.
      by rewrite (proj2 (String.eqb_neq message "heartbeat") Hmsg). }
    assert (Hwst : Client.ws <$> cheap (touch now a st1) !! o
                   = Some (Client.ws oc)).
    { unfold touch. simpl. rewrite Hch1.
      destruct (cheap st4 !! o) as [oc4|] eqn:Hoc4; [|done].
      simpl in Hws4. injection Hws4 as <-.
      destruct (decide (a = o)) as [->|Hne].
      - by rewrite !list_lookup_alter_eq, Hoc4.
      - by rewrite !list_lookup_alter_ne, Hoc4. }
    split.
    { rewrite Hst2, sendl_eq. unfold news. simpl.
      change (out st1 ++ ?x) with (out st1 ++ x).
      rewrite drop_app_length. unfold sendl_effects.
      destruct (cheap (touch now a st1) !! o) as [oc'|]; [|done].
      simpl in Hwst. by injection Hwst as ->. }
    rewrite Hst2, sendl_eq. simpl. repeat split.
    intros b Hne. by rewrite !list_lookup_alter_ne.
Qed.

(** *** Bans *)

(** The effects of a connection from a banned address. *)
Lemma onConnect_banned_news now wsid ws clientIp st :
  clientIp ∈ bannedIps st ->
  news st (onConnect now wsid ws clientIp st)
  = [Attach (ws_id ws) wsid;
     Send (ws_id ws) (FJson [VStr "denied"; VStr "banned"])]
    ++ (if send_throws (ws_id ws) (FJson [VStr "denied"; VStr "banned"])
        then [Close (ws_id ws)] else [])
    ++ [Close (ws_id ws)].
Proof.
  intros Hban. unfold news, onConnect. simpl.
  rewrite bool_decide_eq_true_2 by done.
  rewrite sendl_eq. simpl. unfold sendl_effects. simpl.
  rewrite lookup_app_r by done. rewrite Nat.sub_diag. simpl.
  rewrite <- !app_assoc. by rewrite drop_app_length.
Qed.

(** X9.  An [events] command whose id is not a string, or is not the
    caller's own key, changes no event: the caller's address is appended
    to the banned addresses and its socket is closed without a reply.
    Every later connection from that address is registered, sent
    [denied, "banned"] and closed, and gets no room list. *)
Theorem forged_event_bans_address time fresh_id a cfg id type st c :
  cheap st !! a = Some c ->
  is_string id = false \/ strict_eq (Client.onlineKey c) id = false ->
  let st1 := messages_events time fresh_id a cfg id type st in
  events st1 = events st /\ rooms st1 = rooms st /\
  clients st1 = clients st /\ cheap st1 = cheap st /\
  bannedIps st1 = bannedIps st ++ [Client.clientIp c] /\
  news st st1 = [Close (Client.ws c)] /\
  forall now wsid ws,
    news st1 (onConnect now wsid ws (Client.clientIp c) st1)
    = [Attach (ws_id ws) wsid;
       Send (ws_id ws) (FJson [VStr "denied"; VStr "banned"])]
      ++ (if send_throws (ws_id ws) (FJson [VStr "denied"; VStr "banned"])
          then [Close (ws_id ws)] else [])
      ++ [Close (ws_id ws)].
Proof.
  intros Hc Hid st1.
  assert (Hst1 : st1 = closeClient a
                         (set_bannedIps (bannedIps st ++ [Client.clientIp c])
                                        st)).
  { subst st1. unfold messages_events. rewrite Hc.
    assert (existsb (fun k => strict_eq k id) (bannedKeys st)
            || negb (is_string id)
            || negb (strict_eq (Client.onlineKey c) id) = true) as ->; [|done].
    destruct Hid as [-> | ->]; simpl; by rewrite ?orb_true_r. }
  assert (Hst1' : st1 = emit (Close (Client.ws c))
                          (set_bannedIps (bannedIps st ++ [Client.clientIp c])
                                         st)).
  { rewrite Hst1. unfold closeClient. simpl. by rewrite Hc. }
  rewrite Hst1'. simpl. repeat split.
  - unfold news. simpl. by rewrite drop_app_length.
  - intros now wsid ws. rewrite <- Hst1'. apply onConnect_banned_news.
    rewrite Hst1'. simpl. apply elem_of_app. right. by left.
Qed.

(** *** The sweep as a whole *)

Lemma alarm_socket_fields now st ws :
  let st' := alarm_socket now st ws in
  rooms st' = rooms st /\ rheap st' = rheap st /\ clients st' = clients st /\
  events st' = events st /\ bannedIps st' = bannedIps st /\
  unmarked <$> cheap st' = unmarked <$> cheap st /\
  emits not_rescheduling st st'.
Proof.
  unfold alarm_socket, try_send.
  assert (Hemit : forall w s, emits not_rescheduling s (emit (Close w) s)).
  { intros w s. exists [Close w]. split; [done|]. by repeat constructor. }
  destruct (resolve ws st) as [a|]; [|by repeat split].
  destruct (cheap st !! a) as [c|] eqn:Hc; [|by repeat split].
  assert (Hmark : forall f, (forall x, unmarked (f x) = unmarked x) ->
                  unmarked <$> alter f a (cheap st) = unmarked <$> cheap st).
  { intros f Hf. apply (keeps_upd_client unmarked a f st Hf). }
  destruct (_ && _ && _).
  - rewrite sendl_eq. simpl. repeat split; [by apply Hmark|].
    unfold emits; simpl; eexists; split; [by rewrite <- app_assoc|].
    apply Forall_app. split; [|by repeat constructor].
    unfold sendl_effects. rewrite Hc.
    destruct (send_throws _ _); by repeat constructor.
  - destruct (bool_decide _); [|repeat split; by apply emits_same_out].
    destruct (Client.beatWaiting c); [by repeat split|].
    destruct (send_throws _ _); simpl; (repeat split; [by apply Hmark|]).
    + unfold emits; simpl; eexists; split; [by rewrite <- app_assoc|]. by repeat constructor.
    + unfold emits; simpl; eexists; split; [done|]. by repeat constructor.
Qed.

Lemma sweep_fields now (l : list Ws) : forall st,
  let st' := foldl (alarm_socket now) st l in
  rooms st' = rooms st /\ rheap st' = rheap st /\ clients st' = clients st /\
  events st' = events st /\ bannedIps st' = bannedIps st /\
  unmarked <$> cheap st' = unmarked <$> cheap st /\
  emits not_rescheduling st st'.
Proof.
  induction l as [|ws l IH]; intros st; simpl.
  - repeat split. by apply emits_same_out.
  - destruct (alarm_socket_fields now st ws) as (?&?&?&?&?&?&?).
    destruct (IH (alarm_socket now st ws)) as (?&?&?&?&?&?&?).
    repeat split; try congruence. by eapply emits_trans.
Qed.

Lemma sweep_closes_orphans now (l : list Ws) : forall st ws,
  ws ∈ l -> resolve ws st = None ->
  Close (ws_id ws) ∈ news st (foldl (alarm_socket now) st l).
Proof.
  induction l as [|x l IH]; intros st ws Hin Hres; simpl.
  - by apply elem_of_nil in Hin.
  - destruct (alarm_socket_frame now st x) as (Hcl & Hp & _).
    destruct (sweep_frame now l (alarm_socket now st x)) as (_ & Hp' & _).
    apply elem_of_cons in Hin as [<-|Hin].
    + eapply elem_news_l; [exact Hp|exact Hp'|].
      unfold alarm_socket, news. rewrite Hres. simpl.
      rewrite drop_app_length. by left.
    + eapply elem_news_r; [exact Hp|exact Hp'|].
      apply IH; [done|]. by rewrite (resolve_clients _ _ _ Hcl).
Qed.

Lemma alarm_closes_orphans now sockets remaining st ws :
  ws ∈ sockets -> resolve ws st = None ->
  Close (ws_id ws) ∈ news st (alarm now sockets remaining st).
Proof.
  intros Hin Hres. unfold alarm.
  destruct sockets as [|x l]; [by apply elem_of_nil in Hin|].
  pose proof (sweep_closes_orphans now (x :: l) st ws Hin Hres) as H.
  destruct (bool_decide _); [|done].
  destruct (sweep_frame now (x :: l) st) as (_ & Hp & _).
  eapply elem_news_l; [exact Hp|by apply prefix_app_r|done].
Qed.

(** X10.  The sweep changes no room, no event, no ban list and not the
    registry, and on the client objects it only sets its own two marks;
    removal of a session is left to the close event.  It closes every
    socket it is given that resolves to no registered session, does
    nothing at all when it is given no socket, and schedules the next
    sweep exactly when it was given one and a socket is left at the
    end. *)
Theorem sweep_marks_and_closes_only now sockets remaining st :
  let st' := alarm now sockets remaining st in
  rooms st' = rooms st /\ rheap st' = rheap st /\ clients st' = clients st /\
  events st' = events st /\ bannedIps st' = bannedIps st /\
  unmarked <$> cheap st' = unmarked <$> cheap st /\
  (forall ws, ws ∈ sockets -> resolve ws st = None ->
              Close (ws_id ws) ∈ news st st') /\
  (alarm now [] remaining st = st) /\
  (SetAlarm (now + 10 * 1000) ∈ news st st'
   <-> sockets <> [] /\ (0 < remaining)%nat).
Proof.
  intros st'. subst st'. unfold alarm.
  destruct sockets as [|ws l].
  { split_and!; try done.
    - intros ws Hin. by apply elem_of_nil in Hin.
    - rewrite news_refl. split; [|by intros [? _]].
      intros H. by apply elem_of_nil in H. }
  set (st1 := foldl (alarm_socket now) st (ws :: l)).
  destruct (sweep_fields now (ws :: l) st)
    as (Hr & Hrh & Hcl & Hev & Hip & Hm & He).
  fold st1 in Hr, Hrh, Hcl, Hev, Hip, Hm, He.
  assert (Hp : out st `prefix_of` out st1).
  { destruct He as (evs & -> & _). by apply prefix_app_r. }
  destruct (bool_decide (0 < remaining)%nat) eqn:Hrem.
  - apply bool_decide_eq_true_1 in Hrem. simpl.
    split_and!; try done.
    + intros ws' Hin Hres.
      pose proof (alarm_closes_orphans now (ws :: l) remaining st ws' Hin Hres)
        as H.
      unfold alarm in H. by rewrite bool_decide_eq_true_2 in H.
    + split; [done|]. intros _.
      unfold news. simpl. destruct He as (evs & -> & _).
      rewrite <- app_assoc, drop_app_length.
      apply elem_of_app. right. by left.
  - apply bool_decide_eq_false_1 in Hrem.
    split_and!; try done.
    + intros ws' Hin Hres. by apply sweep_closes_orphans.
    + split; [|by intros [_ ?]]. intros H.
      apply emits_news in He. eapply Forall_forall in He; [|exact H].
      by destruct (He (now + 10 * 1000)).
Qed.

(** *** After a restart *)

(** X11.  The constructor closes every socket left over from a lost
    execution with code 1011 and starts from an empty lobby in which none
    of them is a session: a frame or a close event on any socket changes
    nothing, and the first sweep closes every socket it is given. *)
Theorem restart_drops_sessions lingering :
  let st := construct lingering in
  out st = (fun ws => CloseWith (ws_id ws) 1011 "Server restarted")
             <$> lingering /\
  clients st = [] /\ rooms st = [] /\ events st = [] /\ bannedIps st = [] /\
  (forall ws now fresh_id message,
     webSocketMessage now fresh_id ws message st = st) /\
  (forall ws, handleClose ws st = st) /\
  (forall now sockets remaining ws,
     ws ∈ sockets ->
     Close (ws_id ws) ∈ news st (alarm now sockets remaining st)).
Proof.
  intros st.
  destruct (construct_fields lingering) as (Hr & Hev & Hcl & _ & Hip & _ & _).
  fold st in Hr, Hev, Hcl, Hip.
  assert (Hres : forall ws, resolve ws st = None).
  { intros ws. unfold resolve. rewrite Hcl.
    destruct (ws_attachment ws) as [| |k]; try done. by destruct (String.eqb k ""). }
  split.
  { unfold st, construct.
    assert (forall l s,
              out (foldl (fun s ws =>
                            emit (CloseWith (ws_id ws) 1011 "Server restarted") s)
                         s l)
              = out s ++ ((fun ws => CloseWith (ws_id ws) 1011 "Server restarted")
                            <$> l)) as Hout.
    { induction l as [|x l IH]; intros s; simpl; [by rewrite app_nil_r|].
      rewrite IH. simpl. by rewrite <- app_assoc. }
    by rewrite Hout. }
  repeat split; try done.
  - intros ws now fresh_id message. unfold webSocketMessage. by rewrite Hres.
  - intros ws. unfold handleClose. by rewrite Hres.
  - intros now sockets remaining ws Hin.
    by apply alarm_closes_orphans.
Qed.

(** *** Connecting *)





(** *** The room list of a running lobby *)

(** An invariant that quiet steps and liveness stamps preserve holds
    after a frame if the command table preserves it. *)
Lemma invariant_webSocketMessage (P : State -> Prop) now fresh_id ws message st :
  (forall s s', quiet s s' -> P s -> P s') ->
  (forall a f s, stamp f -> P s -> P (upd_client a f s)) ->
  (forall a type args s, P s -> P (dispatch now fresh_id a type args s)) ->
  P st -> P (webSocketMessage now fresh_id ws message st).
Proof.
  intros Hq Hs Hd HP. unfold webSocketMessage, touch.
  destruct (resolve ws st) as [a|]; [|done].
  destruct (cheap st !! a) as [c|]; [|done].
  assert (Ht : P (upd_client a (Client.set_beatWaiting false)
                    (upd_client a (Client.set_lastActivity now) st))).
  { apply Hs; [constructor|]. apply Hs; [constructor|done]. }
  destruct (String.eqb message "heartbeat"); [done|].
  destruct (Client.owner c); [by eapply Hq; [apply quiet_sendl|]|].
  destruct (JSON_parse message) as [[]|];
    try (by eapply Hq; [apply quiet_sendl|]).
  destruct (strict_eq _ _); [by apply Hd | done].
Qed.

Lemma rooms_dispatch_other time fresh_id a type args st :
  String.eqb (to_string type) "create" = false ->
  rooms (dispatch time fresh_id a type args st) = rooms st.
Proof.
  intros Hne. symmetry.
  change (evolves eq rooms st (dispatch time fresh_id a type args st)).
  unfold dispatch. rewrite Hne.
  repeat (destruct (String.eqb _ _); [|]).
  all: unfold_handlers.
  all: repeat evolves_step quiet_rooms ltac:(unfold evolves; reflexivity).
Qed.

Lemma rooms_create a key nickname avatar config mode st :
  rooms (messages_create a key nickname avatar config mode st) = rooms st
  \/ rooms (messages_create a key nickname avatar config mode st)
     = rooms st ++ [length (rheap st)].
Proof.
  unfold messages_create. destruct (cheap st !! a); [|by left].
  destruct (negb _); [by left|]. right. cbv zeta. by rewrite sendl_eq.
Qed.

Lemma rooms_owned_fresh st : rooms_owned st -> length (rheap st) ∉ rooms st.
Proof.
  intros Hown Hin. destruct (Hown _ Hin) as (R & _ & HR & _).
  apply lookup_lt_Some in HR. lia.
Qed.

Lemma handleClose_rooms ws st :
  exists p, rooms (handleClose ws st) = List.filter p (rooms st).
Proof.
  assert (Hid : rooms st = List.filter (fun _ => true) (rooms st)).
  { induction (rooms st) as [|r l IH]; simpl; [done|]. by rewrite <- IH. }
  unfold handleClose.
  destruct (resolve ws st) as [a|]; [|by eexists].
  destruct (cheap st !! a) as [c|]; [|by eexists].
  destruct (close_rooms_spec a (rooms st) st) as (Hkept & _ & _).
  destruct (close_rooms a (rooms st) st) as [kept st1]. simpl in Hkept.
  exists (fun r => negb (owned_by st a r)). rewrite <- Hkept.
  set (st3 := match Client.owner c with Some o => _ | None => _ end).
  assert (H3 : rooms (cleanupClient a st3) = kept).
  { unfold cleanupClient, st3.
    destruct (Client.owner c), (cheap _ !! a); by rewrite ?sendl_eq. }
  destruct (Client.room c).
  - by rewrite (quiet_rooms _ _ (quiet_updaterooms _)).
  - by rewrite (quiet_rooms _ _ (quiet_updateclients _)).
Qed.

Lemma filter_sublist {X} (p : X -> bool) (l : list X) :
  List.filter p l `sublist_of` l.
Proof.
  induction l as [|x l IH]; simpl; [done|].
  destruct (p x); [by apply sublist_skip | by apply sublist_cons].
Qed.

Lemma directory_wf_handle st c : directory_wf st -> directory_wf (handle st c).
Proof.
  intros [Hnd Hown]. split; [|by apply rooms_owned_handle].
  destruct c; simpl.
  - assert (H : evolves eq rooms st (onConnect now wsid ws clientIp st)).
    { by apply evolves_onConnect; [apply _|apply quiet_rooms|..]. }
    unfold evolves in H. by rewrite <- H.
  - apply (invariant_webSocketMessage directory_wf); [| | |done].
    + intros s s' Hq [Hnd' Hown']. split.
      * by rewrite (quiet_rooms _ _ Hq).
      * apply (rooms_owned_directory s); [by apply directory_quiet|done].
    + by intros a f s _ [Hnd' Hown'].
    + intros a type args s [Hnd' Hown'].
      split; [|by apply rooms_owned_dispatch].
      destruct (String.eqb (to_string type) "create") eqn:Hcreate.
      * unfold dispatch. rewrite Hcreate.
        destruct (rooms_create a (arg 0 args) (arg 1 args) (arg 2 args)
                               (arg 3 args) (arg 4 args) s) as [-> | ->];
          [done|].
        apply NoDup_app. split; [done|]. split; [|apply NoDup_singleton].
        intros r Hr Hr'. apply list_elem_of_singleton in Hr' as ->.
        by apply (rooms_owned_fresh s).
      * by rewrite rooms_dispatch_other.
  - destruct (handleClose_rooms ws st) as [p ->].
    apply (sublist_NoDup _ _ Hnd), filter_sublist.
  - assert (H : evolves eq rooms st (alarm now sockets remaining st)).
    { by apply evolves_alarm; [apply _|apply quiet_rooms|..]. }
    unfold evolves in H. by rewrite <- H.
Qed.

Lemma listing_from_plain st rs : forall i acc,
  (forall r, r ∈ rs -> exists R, rheap st !! r = Some R
                                 /\ Room.servermode R = false) ->
  listing_from st i rs acc = acc ++ omap (published st) rs.
Proof.
  induction rs as [|r rs IH]; intros i acc Hrs; simpl.
  - by rewrite app_nil_r.
  - destruct (Hrs r) as (R & HR & Hsm); [by left|].
    rewrite IH by (intros q Hq; apply Hrs; by right).
    unfold listing_step, published. rewrite HR, Hsm.
    destruct (Room.owner R) as [o|]; [|done].
    destruct (truthy (Room.config R)); [|done].
    by rewrite <- app_assoc.
Qed.

(** X13.  After any run of calls on a constructed object the directory
    holds distinct rooms, and the room list is the list of tuples
    [[ownerNickname, ownerAvatar, config, liveMemberCount, key]] of the
    rooms whose config is truthy, in the order of the directory: it has
    no ["server"] marker and no hole. *)
Theorem roomlist_of_running_lobby lingering calls :
  let st := run lingering calls in
  NoDup (rooms st) /\
  (getroomlist st).1 = omap (published st) (rooms st).
Proof.
  intros st.
  assert (H : directory_wf st).
  { apply (run_invariant directory_wf); [|apply directory_wf_handle].
    destruct (construct_fields lingering) as (Hr & _).
    split; [rewrite Hr; apply NoDup_nil_2|].
    intros r Hin. rewrite Hr in Hin. by apply elem_of_nil in Hin. }
  destruct H as [Hnd Hown]. split; [done|].
  rewrite getroomlist_listing; [|done|].
  - unfold listing. apply (listing_from_plain st (rooms st) 0 []).
    intros r Hr. destruct (Hown r Hr) as (R & o & HR & _ & Hsm). by exists R.
  - intros r Hr. destruct (Hown r Hr) as (R & o & HR & _). by exists R.
Qed.

(** *** Announcing a profile change *)




(** *** Creating an event and leaving it *)





(** *** Keys that do not authenticate *)

(** X16.  A [key] command whose argument is falsy or not an object is
    answered [denied, "key"] and the socket is closed, with no change to
    the lobby.  An argument that is an object whose element 0 is falsy
    (an empty array, for one) and not a banned key is stored without any
    reply; the session still counts as unauthenticated, and once it has
    been connected for more than 2000 ms the sweep that reaches it sends
    [denied, "key"] and closes it. *)
Theorem keys_that_do_not_authenticate a id st c :
  cheap st !! a = Some c ->
  let st1 := messages_key a id st in
  (truthy id = false \/ typeof_object id = false ->
     quiet st st1 /\
     news st st1
     = Send (Client.ws c) (FJson [VStr "denied"; VStr "key"])
       :: (if send_throws (Client.ws c) (FJson [VStr "denied"; VStr "key"])
           then [Close (Client.ws c)] else [])
       ++ [Close (Client.ws c)]) /\
  (truthy id = true -> typeof_object id = true ->
   existsb (fun k => strict_eq k (prop_idx id 0)) (bannedKeys st) = false ->
   truthy (prop_idx id 0) = false ->
     news st st1 = [] /\ clients st1 = clients st /\
     forall now ws,
       resolve ws st = Some a -> Client.banned c = false ->
       now - Client.connectTime c > 2000 ->
       news st1 (alarm_socket now st1 ws)
       = Send (Client.ws c) (FJson [VStr "denied"; VStr "key"])
         :: (if send_throws (Client.ws c) (FJson [VStr "denied"; VStr "key"])
             then [Close (Client.ws c)] else [])
         ++ [Close (ws_id ws)]).
Proof.
  intros Hc st1. subst st1. unfold messages_key. split.
  - intros Hbad.
    assert (negb (truthy id) || negb (typeof_object id) = true) as ->.
    { destruct Hbad as [-> | ->]; simpl; by rewrite ?orb_true_r. }
    split.
    + eapply quiet_trans; [apply quiet_sendl | apply quiet_closeClient].
    + unfold closeClient. rewrite sendl_eq. simpl. rewrite Hc.
      unfold news, sendl_effects. simpl. rewrite Hc.
      by rewrite <- app_assoc, drop_app_length.
  - intros Hid Hobj Hfree Hfalsy. rewrite Hid, Hobj, Hfree. simpl.
    split; [exact (news_refl st)|]. split; [done|].
    intros now ws Hres Hmark Hlate.
    set (st1 := upd_client a (Client.set_onlineKey (prop_idx id 0)) st).
    assert (Hc1 : cheap st1 !! a
                  = Some (Client.set_onlineKey (prop_idx id 0) c)).
    { unfold st1. by rewrite upd_client_lookup, Hc. }
    destruct (turn_auth_timeout now st1 ws a _ Hres Hc1 Hfalsy Hmark Hlate)
      as [Hout _].
    unfold news. rewrite Hout. by rewrite drop_app_length.
Qed.

(** *** Nicknames *)









(** *** What can ban an address *)

Lemma bannedIps_dispatch_other time fresh_id a type args st :
  String.eqb (to_string type) "key" = false ->
  String.eqb (to_string type) "events" = false ->
  bannedIps (dispatch time fresh_id a type args st) = bannedIps st.
Proof.
  intros Hkey Hevents. symmetry.
  change (evolves eq bannedIps st (dispatch time fresh_id a type args st)).
  unfold dispatch. rewrite Hkey, Hevents.
  repeat (destruct (String.eqb _ _); [|]).
  all: unfold_handlers.
  all: repeat evolves_step bannedIps_quiet ltac:(unfold evolves; reflexivity).
Qed.

(** X18.  The list of banned addresses changes only through a frame that
    parses to an array starting with ["server"] and naming the command
    [key] or [events].  No connection, close event or sweep bans an
    address, and neither does the frame that is not a JSON array, although
    it is answered [denied, "banned"]. *)
Theorem only_two_commands_ban st c :
  bannedIps (handle st c) <> bannedIps st ->
  exists now fresh_id ws message arr,
    c = Message now fresh_id ws message /\
    JSON_parse message = Some (VArr arr) /\
    arg 0 arr = VStr "server" /\
    (to_string (arg 1 arr) = "key" \/ to_string (arg 1 arr) = "events").
Proof.
  intros Hchg. destruct c; simpl in Hchg.
  - destruct Hchg. symmetry.
    by apply (evolves_onConnect eq bannedIps bannedIps_quiet).
  - exists now, fresh_id, ws, message.
    unfold webSocketMessage, touch in Hchg.
    destruct (resolve ws st) as [a|]; [|done].
    destruct (cheap st !! a) as [c|]; [|done].
    destruct (String.eqb message "heartbeat"); [done|].
    destruct (Client.owner c); [by rewrite sendl_eq in Hchg|].
    destruct (JSON_parse message) as [v|]; [|by rewrite sendl_eq in Hchg].
    destruct v as [| | | | | |arr|]; try (by rewrite sendl_eq in Hchg).
    exists arr. split; [done|]. split; [done|].
    destruct (strict_eq (arg 0 arr) (VStr "server")) eqn:Hserver; [|done].
    split.
    { destruct (arg 0 arr); try done. simpl in Hserver.
      by apply String.eqb_eq in Hserver as ->. }
    destruct (String.eqb (to_string (arg 1 arr)) "key") eqn:Hkey;
      [left; by apply String.eqb_eq|].
    destruct (String.eqb (to_string (arg 1 arr)) "events") eqn:Hevents;
      [right; by apply String.eqb_eq|].
    destruct Hchg. by rewrite bannedIps_dispatch_other.
  - destruct Hchg. symmetry.
    by apply (evolves_handleClose eq bannedIps bannedIps_quiet).
  - destruct Hchg. symmetry.
    by apply (evolves_alarm eq bannedIps bannedIps_quiet).
Qed.

(** *** Links between clients and rooms *)

Section LinksOk.
Context (RL : list (option caddr * bool))
        (CL : list (option raddr * option caddr * option caddr)).

Lemma alter_is_Some {X} (f : X -> X) (l : list X) i j :
  is_Some (alter f i l !! j) <-> is_Some (l !! j).
Proof. by rewrite !lookup_lt_is_Some, length_alter. Qed.

Lemma ok_enter_room a r :
  links_ok (RL, CL) -> (forall x, CL !! a = Some x -> x.1.2 = None) ->
  is_Some (RL !! r) -> links_ok (RL, alter (enter_room r) a CL).
Proof.
  intros (L1 & L2 & L3 & L4) Hfree Hr. unfold links_ok in *. simpl in *.
  split_and!.
  - intros q o s Hq. destruct (L1 q o s Hq) as (-> & b & -> & Hb).
    split; [done|]. exists b. split; [done|]. by apply alter_is_Some.
  - intros b q ow oc Hb. rewrite list_lookup_alter in Hb.
    case_decide as Hab; [|by eapply L2].
    subst b. destruct (CL !! a) as [[[rm ow'] oc']|]; [|done].
    simpl in Hb. by injection Hb as <- _ _.
  - intros b rm o oc Hb. rewrite list_lookup_alter in Hb.
    case_decide as Hab; [|by eapply L3].
    subst b. destruct (CL !! a) as [[[rm' ow'] oc']|] eqn:Ha; [|done].
    simpl in Hb. injection Hb as <- -> <-.
    by specialize (Hfree _ eq_refl).
  - intros b rm ow oc Hb. rewrite list_lookup_alter in Hb.
    case_decide as Hab; [|by eapply L4].
    subst b. destruct (CL !! a) as [[[rm' ow'] oc']|] eqn:Ha; [|done].
    simpl in Hb. injection Hb as <- <- <-. by eapply L4.
Qed.

Lemma ok_follow a r o s :
  links_ok (RL, CL) -> (forall x, CL !! a = Some x -> x.1.1 = Some r) ->
  RL !! r = Some (Some o, s) -> links_ok (RL, alter (follow o) a CL).
Proof.
  intros (L1 & L2 & L3 & L4) Hin Hr. unfold links_ok in *. simpl in *.
  split_and!.
  - intros q o' s' Hq. destruct (L1 q o' s' Hq) as (-> & b & -> & Hb).
    split; [done|]. exists b. split; [done|]. by apply alter_is_Some.
  - intros b q ow oc Hb. rewrite list_lookup_alter in Hb.
    case_decide as Hab; [|by eapply L2].
    subst b. destruct (CL !! a) as [[[rm ow'] oc']|] eqn:Ha; [|done].
    simpl in Hb. injection Hb as -> _ _. by eapply L2.
  - intros b rm o' oc Hb. rewrite list_lookup_alter in Hb.
    case_decide as Hab; [|by eapply L3].
    subst b. destruct (CL !! a) as [[[rm' ow'] oc']|] eqn:Ha; [|done].
    simpl in Hb. injection Hb as <- <- <-.
    specialize (Hin _ eq_refl). simpl in Hin. subst rm'. by exists r, s.
  - intros b rm ow oc Hb. rewrite list_lookup_alter in Hb.
    case_decide as Hab; [|by eapply L4].
    subst b. destruct (CL !! a) as [[[rm' ow'] oc']|] eqn:Ha; [|done].
    simpl in Hb. injection Hb as <- <- <-. by eapply L4.
Qed.

Lemma ok_push a :
  links_ok (RL, CL) -> is_Some (CL !! a) ->
  links_ok (RL ++ [(Some a, false)], CL).
Proof.
  intros (L1 & L2 & L3 & L4) Ha. unfold links_ok in *. simpl in *.
  split_and!; [| | |done].
  - intros q o s Hq. apply lookup_app_Some in Hq as [Hq|[_ Hq]].
    + by eapply L1.
    + apply list_lookup_singleton_Some in Hq as [_ [= <- <-]].
      split; [done|]. by exists a.
  - intros b q ow oc Hb. destruct (L2 b q ow oc Hb) as [x Hx].
    exists x. by apply lookup_app_l_Some.
  - intros b rm o oc Hb. destruct (L3 b rm o oc Hb) as (q & s & -> & Hq).
    exists q, s. split; [done|]. by apply lookup_app_l_Some.
Qed.

Lemma ok_connect :
  links_ok (RL, CL) -> links_ok (RL, CL ++ [(None, None, None)]).
Proof.
  intros (L1 & L2 & L3 & L4). unfold links_ok in *. simpl in *.
  split_and!.
  - intros q o s Hq. destruct (L1 q o s Hq) as (-> & b & -> & [x Hb]).
    split; [done|]. exists b. split; [done|]. exists x.
    by apply lookup_app_l_Some.
  - intros b q ow oc Hb. apply lookup_app_Some in Hb as [Hb|[_ Hb]].
    + by eapply L2.
    + by apply list_lookup_singleton_Some in Hb as [_ ?].
  - intros b rm o oc Hb. apply lookup_app_Some in Hb as [Hb|[_ Hb]].
    + by eapply L3.
    + by apply list_lookup_singleton_Some in Hb as [_ ?].
  - intros b rm ow oc Hb. apply lookup_app_Some in Hb as [Hb|[_ Hb]].
    + by eapply L4.
    + by apply list_lookup_singleton_Some in Hb as [_ [= _ _ <-]].
Qed.
End LinksOk.

Lemma fmap_alter_same {X Y} (p : X -> Y) (f : X -> X) (l : list X) i :
  (forall x, p (f x) = p x) -> p <$> alter f i l = p <$> l.
Proof.
  intros Hf. revert i. induction l as [|x l IH]; intros [|i]; simpl; try done.
  - by rewrite Hf.
  - f_equal. apply IH.
Qed.

Lemma alter_last {X} (f : X -> X) (l : list X) x :
  alter f (length l) (l ++ [x]) = l ++ [f x].
Proof.
  rewrite <- (Nat.add_0_r (length l)) at 1. by rewrite alter_app_r.
Qed.

Lemma room_links_erased h h' :
  erase_nums h' = erase_nums h -> room_link <$> h' = room_link <$> h.
Proof.
  intros He.
  assert (Hsame : forall l, room_link <$> l = room_link <$> erase_nums l).
  { intros l. unfold erase_nums. rewrite <- list_fmap_compose.
    apply list_fmap_ext. by intros _ [] _. }
  by rewrite (Hsame h'), (Hsame h), He.
Qed.

Lemma links_quiet st st' : quiet st st' -> links st' = links st.
Proof.
  intros Hq. unfold links.
  by rewrite (room_links_erased _ _ (quiet_rheap _ _ Hq)), (quiet_cheap _ _ Hq).
Qed.

Lemma links_upd_client a f st :
  (forall c, client_link (f c) = client_link c) ->
  links (upd_client a f st) = links st.
Proof. intros Hf. unfold links. simpl. by rewrite fmap_alter_same. Qed.

Lemma links_upd_room r f st :
  (forall R, room_link (f R) = room_link R) ->
  links (upd_room r f st) = links st.
Proof. intros Hf. unfold links. simpl. by rewrite fmap_alter_same. Qed.

Ltac links_write :=
  unfold evolves; symmetry;
  first [ reflexivity
        | apply links_upd_client; intros []; reflexivity
        | apply links_upd_room; intros []; reflexivity ].

Ltac links_steps := repeat evolves_step links_quiet ltac:(links_write).

Lemma links_dispatch_plain time fresh_id a type args st :
  String.eqb (to_string type) "create" = false ->
  String.eqb (to_string type) "enter" = false ->
  String.eqb (to_string type) "server" = false ->
  String.eqb (to_string type) "config" = false ->
  links (dispatch time fresh_id a type args st) = links st.
Proof.
  intros H1 H2 H3 H4. symmetry.
  change (evolves eq links st (dispatch time fresh_id a type args st)).
  unfold dispatch. rewrite H1, H2, H3, H4.
  repeat (destruct (String.eqb _ _); [|]).
  all: unfold_handlers.
  all: links_steps.
Qed.

Lemma client_link_lookup st a c x :
  cheap st !! a = Some c -> (client_link <$> cheap st) !! a = Some x ->
  x = client_link c.
Proof. rewrite list_lookup_fmap. intros ->. by intros [= <-]. Qed.

Lemma links_wf_create a key nickname avatar config mode st c :
  links_wf st -> cheap st !! a = Some c -> Client.owner c = None ->
  links_wf (messages_create a key nickname avatar config mode st).
Proof.
  intros Hwf Hc Hfree. unfold messages_create. rewrite Hc.
  destruct (negb _); [done|]. cbv zeta.
  unfold links_wf. rewrite (links_quiet _ _ (quiet_sendl _ _ _)).
  set (r := length (rheap st)).
  assert (Hlinks :
    links (upd_room r (Room.set_key key)
             (upd_room r (Room.set_owner (Some a))
                (upd_client a (Client.set_status VUndef)
                   (upd_client a (Client.set_room (Some r))
                      (set_rooms (rooms st ++ [r])
                         (set_rheap (rheap st ++ [Room.empty])
                            (upd_client a (set_identity nickname avatar)
                                        st)))))))
    = ((room_link <$> rheap st) ++ [(Some a, false)],
       alter (enter_room (length (room_link <$> rheap st))) a
             (client_link <$> cheap st))).
  { unfold links. simpl. f_equal.
    - unfold r. rewrite !alter_last, fmap_app. done.
    - rewrite (fmap_alter_same client_link (Client.set_status VUndef))
        by by intros [].
      rewrite (list_fmap_alter client_link _ (enter_room r)).
      2: { apply Forall_forall. by intros [] _. }
      rewrite (fmap_alter_same client_link (set_identity nickname avatar))
        by by intros [].
      unfold r. by rewrite length_fmap. }
  simpl in Hlinks |- *. fold r. rewrite Hlinks.
  apply ok_enter_room.
  - apply ok_push; [done|]. rewrite list_lookup_fmap, Hc. by eexists.
  - intros x Hx. rewrite (client_link_lookup st a c x Hc Hx). done.
  - rewrite lookup_app_r by done. rewrite Nat.sub_diag. by eexists.
Qed.

Lemma find_room_elem key st r :
  find_room key st = Some r ->
  r ∈ rooms st /\ exists R, rheap st !! r = Some R.
Proof.
  unfold find_room. intros H. apply find_some in H as [Hin Hp].
  split; [by apply list_elem_of_In|].
  destruct (rheap st !! r) as [R|]; [by exists R | done].
Qed.

Lemma links_wf_enter a key nickname avatar config mode st c :
  links_wf st -> cheap st !! a = Some c -> Client.owner c = None ->
  links_wf (messages_enter a key nickname avatar config mode st).
Proof.
  intros Hwf Hc Hfree. unfold messages_enter. cbv zeta.
  change (find_room key (upd_client a (set_identity nickname avatar) st))
    with (find_room key st).
  destruct (find_room key st) as [r|] eqn:Hfind.
  2: { unfold links_wf. rewrite (links_quiet _ _ (quiet_sendl _ _ _)).
       rewrite links_upd_client by by intros []. done. }
  destruct (find_room_elem _ _ _ Hfind) as [_ [R HR]].
  set (st3 := upd_client a (Client.set_status VUndef) _).
  change (rheap st3) with (rheap st). rewrite HR.
  assert (Hlinks3 : links st3 = ((room_link <$> rheap st),
                                 alter (enter_room r) a
                                       (client_link <$> cheap st))).
  { unfold links, st3. simpl. f_equal.
    rewrite (fmap_alter_same client_link (Client.set_status VUndef))
      by by intros [].
    rewrite (list_fmap_alter client_link _ (enter_room r)).
    2: { apply Forall_forall. by intros [] _. }
    by rewrite (fmap_alter_same client_link (set_identity nickname avatar))
      by by intros []. }
  assert (Hok3 : links_ok (links st3)).
  { rewrite Hlinks3. apply ok_enter_room; [done| |].
    - intros x Hx. by rewrite (client_link_lookup st a c x Hc Hx).
    - rewrite list_lookup_fmap, HR. by eexists. }
  assert (HRl : (room_link <$> rheap st) !! r
                = Some (Room.owner R, Room.servermode R)).
  { by rewrite list_lookup_fmap, HR. }
  destruct Hwf as (L1 & _).
  destruct (L1 r _ _ HRl) as (Hsm & o & Ho & _). simpl in Hsm, Ho.
  rewrite Ho.
  assert (is_claim st3 R o config mode = false) as ->.
  { unfold is_claim. by rewrite Hsm. }
  unfold links_wf. rewrite (links_quiet _ _ (quiet_updaterooms _)).
  destruct (not_enterable _).
  { by rewrite (links_quiet _ _ (quiet_sendl _ _ _)). }
  assert (Hc3 : is_Some (cheap st3 !! a)).
  { unfold st3. rewrite !upd_client_lookup, Hc. by eexists. }
  set (s1 := upd_client a (Client.set_owner (Some o)) st3).
  assert (Hc1 : is_Some (cheap s1 !! a)).
  { unfold s1. rewrite upd_client_lookup. by apply fmap_is_Some. }
  destruct Hc1 as [c1 ->].
  rewrite (links_quiet _ _ (quiet_sendl _ _ _)).
  assert (Hlinks1 : links s1 = ((links st3).1,
                                alter (follow o) a (links st3).2)).
  { unfold links, s1. simpl. f_equal.
    rewrite (list_fmap_alter client_link _ (follow o)); [done|].
    apply Forall_forall. by intros [] _. }
  rewrite Hlinks1, Hlinks3. simpl.
  apply (ok_follow _ _ a r o (Room.servermode R)).
  - by rewrite <- Hlinks3.
  - intros x Hx. rewrite list_lookup_alter_eq in Hx.
    destruct ((client_link <$> cheap st) !! a) as [y|]; [|done].
    by injection Hx as <-.
  - by rewrite HRl, Ho.
Qed.

Lemma links_wf_config a config st :
  links_wf st -> links_wf (messages_config a config st).
Proof.
  intros Hwf. unfold messages_config. cbv zeta.
  unfold links_wf. rewrite (links_quiet _ _ (quiet_updaterooms _)).
  destruct (cheap st !! a) as [c|]; [|done].
  destruct (Client.room c) as [r|]; [|done].
  destruct (rheap st !! r) as [R|] eqn:HR; [|done].
  destruct (bool_decide _); [|done].
  assert (Hsm : Room.servermode R = false).
  { destruct Hwf as (L1 & _).
    destruct (L1 r (Room.owner R) (Room.servermode R)) as [Hsm _]; [|done].
    simpl. by rewrite list_lookup_fmap, HR. }
  rewrite Hsm. by rewrite links_upd_room by by intros [].
Qed.

Lemma links_wf_dispatch time fresh_id a type args st c :
  rooms_owned st -> links_wf st ->
  cheap st !! a = Some c -> Client.owner c = None ->
  links_wf (dispatch time fresh_id a type args st).
Proof.
  intros Hown Hwf Hc Hfree.
  destruct (String.eqb (to_string type) "create") eqn:H1.
  { unfold dispatch. rewrite H1. by eapply links_wf_create. }
  destruct (String.eqb (to_string type) "enter") eqn:H2.
  { unfold dispatch. rewrite H1, H2. by eapply links_wf_enter. }
  destruct (String.eqb (to_string type) "server") eqn:H3.
  { unfold dispatch. rewrite H1, H2.
    destruct (String.eqb _ "changeAvatar") eqn:H0.
    { apply String.eqb_eq in H0. rewrite H0 in H3. done. }
    rewrite H3. rewrite server_finds_no_slot by done.
    unfold links_wf. destruct (truthy _).
    - rewrite (links_quiet _ _ (quiet_sendl _ _ _)).
      by rewrite links_upd_client by by intros [].
    - by rewrite (links_quiet _ _ (quiet_updaterooms _)). }
  destruct (String.eqb (to_string type) "config") eqn:H4.
  { unfold dispatch. rewrite H1, H2, H3.
    destruct (String.eqb _ "changeAvatar") eqn:H0.
    { apply String.eqb_eq in H0. rewrite H0 in H4. done. }
    destruct (String.eqb _ "key") eqn:H5.
    { apply String.eqb_eq in H5. rewrite H5 in H4. done. }
    destruct (String.eqb _ "events") eqn:H6.
    { apply String.eqb_eq in H6. rewrite H6 in H4. done. }
    rewrite H4. by apply links_wf_config. }
  unfold links_wf. by rewrite links_dispatch_plain.
Qed.

Lemma links_wf_handle st c :
  rooms_owned st -> links_wf st -> links_wf (handle st c).
Proof.
  intros Hown Hwf. destruct c; simpl.
  - destruct (onConnect_registry now wsid ws clientIp st) as [_ Hch].
    assert (Hr : evolves eq (fun s => room_link <$> rheap s) st
                         (onConnect now wsid ws clientIp st)).
    { apply evolves_onConnect; [apply _| |done..].
      intros s s' Hq. apply room_links_erased. by apply quiet_rheap. }
    unfold evolves in Hr. unfold links_wf, links. rewrite <- Hr, Hch.
    rewrite fmap_app. by apply ok_connect.
  - unfold webSocketMessage.
    destruct (resolve ws st) as [a|]; [|done].
    destruct (cheap st !! a) as [c|] eqn:Hc; [|done].
    assert (Ht : links (touch now a st) = links st).
    { unfold touch. by rewrite !links_upd_client by by intros []. }
    assert (Hct : cheap (touch now a st) !! a
                  = Some (Client.set_beatWaiting false
                            (Client.set_lastActivity now c))).
    { unfold touch. by rewrite !upd_client_lookup, Hc. }
    assert (Hwft : links_wf (touch now a st)).
    { unfold links_wf. by rewrite Ht. }
    destruct (String.eqb message "heartbeat"); [done|].
    destruct (Client.owner c) eqn:Ho.
    { unfold links_wf. by rewrite (links_quiet _ _ (quiet_sendl _ _ _)). }
    destruct (JSON_parse message) as [[]|];
      try (unfold links_wf; by rewrite (links_quiet _ _ (quiet_sendl _ _ _))).
    destruct (strict_eq _ _); [|done].
    eapply links_wf_dispatch; [|done|exact Hct|done].
    apply (rooms_owned_evolves st); [|done]. unfold touch. directory_steps.
  - unfold links_wf.
    assert (H : evolves eq links st (handleClose ws st)).
    { apply evolves_handleClose; [apply _|apply links_quiet|done..]. }
    unfold evolves in H. by rewrite <- H.
  - unfold links_wf.
    assert (H : evolves eq links st (alarm now sockets remaining st)).
    { apply evolves_alarm; [apply _|apply links_quiet|].
      intros a f s Hf. apply links_upd_client. by destruct Hf; intros []. }
    unfold evolves in H. by rewrite <- H.
Qed.

Lemma run_links lingering calls :
  directory_wf (run lingering calls) /\ links_wf (run lingering calls).
Proof.
  apply (run_invariant (fun st => directory_wf st /\ links_wf st)).
  - destruct (construct_fields lingering) as (Hr & _ & _ & _ & _ & _ & Hch & Hrh).
    split; [split|].
    + rewrite Hr. apply NoDup_nil_2.
    + intros r Hin. rewrite Hr in Hin. by apply elem_of_nil in Hin.
    + unfold links_wf, links. rewrite Hch, Hrh. simpl.
      unfold links_ok. simpl. split_and!; intros; done.
  - intros st c [Hdir Hwf].
    split; [by apply directory_wf_handle|].
    apply links_wf_handle; [by destruct Hdir | done].
Qed.

Lemma links_wf_state st :
  links_wf st ->
  (forall b c o, cheap st !! b = Some c -> Client.owner c = Some o ->
     exists r R, Client.room c = Some r /\ rheap st !! r = Some R /\
                 Room.owner R = Some o) /\
  (forall r R, rheap st !! r = Some R ->
     Room.servermode R = false /\
     exists o oc, Room.owner R = Some o /\ cheap st !! o = Some oc) /\
  (forall b c r, cheap st !! b = Some c -> Client.room c = Some r ->
     is_Some (rheap st !! r)) /\
  (forall b c, cheap st !! b = Some c -> Client._onconfig c = None).
Proof.
  intros (L1 & L2 & L3 & L4). unfold links in *. simpl in *. split_and!.
  - intros b c o Hc Ho.
    destruct (L3 b (Client.room c) o (Client._onconfig c))
      as (r & s & Hroom & Hr).
    { by rewrite list_lookup_fmap, Hc, <- Ho. }
    apply list_lookup_fmap_Some in Hr as (R & HR & Hlook).
    exists r, R. injection HR as HR _. done.
  - intros r R HR.
    destruct (L1 r (Room.owner R) (Room.servermode R))
      as (Hsm & o & Ho & Hoc).
    { by rewrite list_lookup_fmap, HR. }
    split; [done|]. rewrite list_lookup_fmap in Hoc.
    apply fmap_is_Some in Hoc as [oc Hoc]. by exists o, oc.
  - intros b c r Hc Hroom.
    destruct (L2 b r (Client.owner c) (Client._onconfig c)) as [x Hx].
    { by rewrite list_lookup_fmap, Hc, <- Hroom. }
    rewrite list_lookup_fmap in Hx.
    destruct (rheap st !! r) as [R|]; [by exists R | done].
  - intros b c Hc.
    apply (L4 b (Client.room c) (Client.owner c)).
    by rewrite list_lookup_fmap, Hc.
Qed.


(** X20.  After any run of calls, a frame other than a heartbeat that
    arrives from a session with an owner link is delivered, as
    [onmessage] with the session's id and the text, to the owner of the
    room that the session is in. *)
Theorem relayed_frames_reach_room_owner
        lingering calls now fresh_id ws message a c o :
  let st := run lingering calls in
  resolve ws st = Some a -> cheap st !! a = Some c ->
  Client.owner c = Some o -> message <> "heartbeat" ->
  exists r R oc,
    Client.room c = Some r /\ rheap st !! r = Some R /\
    Room.owner R = Some o /\ cheap st !! o = Some oc /\
    news st (webSocketMessage now fresh_id ws message st)
    = Send (Client.ws oc)
           (FJson [VStr "onmessage"; VStr (Client.wsid c); VStr message])
      :: (if send_throws (Client.ws oc)
            (FJson [VStr "onmessage"; VStr (Client.wsid c); VStr message])
          then [Close (Client.ws oc)] else []).
Proof.
  intros st Hres Hc Ho Hmsg.
  destruct (run_links lingering calls) as [_ Hwf]. fold st in Hwf.
  destruct (links_wf_state st Hwf) as (Hlink & Hroom & _).
  destruct (Hlink a c o Hc Ho) as (r & R & Hr & HR & HRo).
  destruct (Hroom r R HR) as (_ & o' & oc & Ho' & Hoc).
  assert (o' = o) as -> by congruence.
  exists r, R, oc. split_and!; try done.
  unfold webSocketMessage. rewrite Hres, Hc, Ho.
  rewrite (proj2 (String.eqb_neq message "heartbeat") Hmsg).
  rewrite sendl_eq. unfold news. simpl.
  change (out st ++ ?x) with (out st ++ x). rewrite drop_app_length.
  unfold sendl_effects, touch. simpl.
  destruct (decide (a = o)) as [->|Hne].
  - rewrite !list_lookup_alter_eq, Hoc. done.
  - by rewrite !list_lookup_alter_ne, Hoc.
Qed.

(** *** The client list *)

(** X21.  In a consistent registry the client list has one entry per
    registered session, in the order of registration, and the id shown in
    an entry is the id the session is registered under.  After the close
    event of a session no entry of the client list shows its id. *)
Theorem clientlist_shows_registry st :
  registry_wf st ->
  (fun entry => prop_idx entry 4) <$> getclientlist st
  = VStr <$> (clients st).*1 /\
  forall ws a c,
    resolve ws st = Some a -> cheap st !! a = Some c ->
    forall entry, entry ∈ getclientlist (handleClose ws st) ->
                  prop_idx entry 4 <> VStr (Client.wsid c).
Proof.
  intros Hwf.
  assert (Hlist : forall s, registry_wf s ->
            (fun entry => prop_idx entry 4) <$> getclientlist s
            = VStr <$> (clients s).*1).
  { intros s (_ & _ & Hreg). unfold getclientlist.
    induction (clients s) as [|[k a] l IH]; simpl; [done|].
    destruct (Hreg k a) as (c & Hc & Hid); [by left|].
    rewrite Hc. simpl. rewrite Hid. f_equal.
    apply IH. intros k' a' Hin. apply Hreg. by right. }
  split; [by apply Hlist|].
  intros ws a c Hres Hc entry Hentry.
  assert (Hwf' : registry_wf (handleClose ws st))
    by by apply registry_wf_handleClose.
  destruct (handleClose_registry ws st a c Hres Hc) as [Hcl _].
  assert (Hin : prop_idx entry 4
                ∈ (fun entry => prop_idx entry 4)
                    <$> getclientlist (handleClose ws st)).
  { by apply (list_elem_of_fmap_2 (fun e => prop_idx e 4)). }
  rewrite (Hlist _ Hwf'), Hcl in Hin.
  apply list_elem_of_fmap in Hin as (k & -> & Hk).
  intros [= ->]. destruct Hwf as (Hnd & _).
  by apply (map_delete_gone (Client.wsid c) (clients st)).
Qed.

(** *** Entering a room that is not there *)

(** X22.  An [enter] whose key is the key of no room of the directory
    (in particular a key that is not a primitive value) is answered
    [enterroomfailed]; the caller's nickname and avatar have been
    overwritten all the same, while its room, owner and status, every
    other client, the rooms and the registry stay as they were, and no
    room list is broadcast. *)
Theorem enter_unknown_key a key nickname avatar config mode st c :
  cheap st !! a = Some c ->
  (forall r R, r ∈ rooms st -> rheap st !! r = Some R ->
               strict_eq (Room.key R) key = false) ->
  let st' := messages_enter a key nickname avatar config mode st in
  cheap st' !! a
  = Some (Client.set_avatar avatar
            (Client.set_nickname (getNickname nickname) c)) /\
  (forall b, b <> a -> cheap st' !! b = cheap st !! b) /\
  rooms st' = rooms st /\ rheap st' = rheap st /\
  clients st' = clients st /\
  news st st'
  = Send (Client.ws c) (FJson [VStr "enterroomfailed"])
    :: (if send_throws (Client.ws c) (FJson [VStr "enterroomfailed"])
        then [Close (Client.ws c)] else []).
Proof.
  intros Hc Hnone st'.
  assert (Hfind : find_room key st = None).
  { unfold find_room. destruct (List.find _ _) as [r|] eqn:Hf; [|done].
    apply find_some in Hf as [Hin Hp]. apply list_elem_of_In in Hin.
    destruct (rheap st !! r) as [R|] eqn:HR; [|done].
    by rewrite (Hnone r R Hin HR) in Hp. }
  subst st'. unfold messages_enter. cbv zeta.
  change (find_room key (upd_client a (set_identity nickname avatar) st))
    with (find_room key st).
  rewrite Hfind, sendl_eq. simpl. split_and!; try done.
  - by rewrite list_lookup_alter_eq, Hc.
  - intros b Hb. by rewrite list_lookup_alter_ne.
  - unfold news, sendl_effects. simpl.
    rewrite list_lookup_alter_eq, Hc. simpl. by rewrite drop_app_length.
Qed.

(** *** The reload notices of the room list *)

Lemma roomlist_loop_news st0 rs : forall i acc s,
  NoDup rs -> cheap s = cheap st0 ->
  (forall r, r ∈ rs ->
     exists R0, rheap st0 !! r = Some R0 /\
                rheap s !! r
                = Some (Room.set_num (VNum (liveMemberCount st0 r)) R0)) ->
  news s (roomlist_loop i rs acc s).2 = concat (reload_effects st0 <$> rs).
Proof.
  induction rs as [|r rs IH]; intros i acc s Hnd Hch Hrooms; simpl.
  { apply news_refl. }
  apply NoDup_cons in Hnd as [Hnotin Hnd].
  destruct (Hrooms r) as (R0 & H0 & Hs); [by left|].
  rewrite Hs. unfold reload_effects at 1. rewrite H0.
  assert (Hrest : forall s', cheap s' = cheap s -> rheap s' = rheap s ->
            forall q, q ∈ rs ->
              exists Q0, rheap st0 !! q = Some Q0 /\
                rheap (upd_room r (Room.set_num VUndef) s') !! q
                = Some (Room.set_num (VNum (liveMemberCount st0 q)) Q0)).
  { intros s' _ Hrh q Hq. destruct (Hrooms q) as (Q0 & HQ0 & HQ); [by right|].
    exists Q0. split; [done|].
    rewrite upd_room_lookup_ne by (intros ->; done). by rewrite Hrh. }
  assert (Hskip : forall acc',
            news s (roomlist_loop (S i) rs acc'
                      (upd_room r (Room.set_num VUndef) s)).2
            = concat (reload_effects st0 <$> rs)).
  { intros acc'.
    rewrite <- (IH (S i) acc' (upd_room r (Room.set_num VUndef) s));
      [done | done | done | by apply Hrest]. }
  change (Room.servermode (Room.set_num (VNum (liveMemberCount st0 r)) R0))
    with (Room.servermode R0).
  change (Room.owner (Room.set_num (VNum (liveMemberCount st0 r)) R0))
    with (Room.owner R0).
  change (Room.config (Room.set_num (VNum (liveMemberCount st0 r)) R0))
    with (Room.config R0).
  change (Room._num (Room.set_num (VNum (liveMemberCount st0 r)) R0))
    with (VNum (liveMemberCount st0 r)).
  destruct (Room.servermode R0); [apply Hskip|].
  destruct (Room.owner R0) as [o|]; [|apply Hskip].
  destruct (truthy (Room.config R0)); [|apply Hskip].
  simpl. destruct (liveMemberCount st0 r =? 0)%Z; [|apply Hskip].
  set (s' := sendl o [VStr "reloadroom"] s).
  assert (Hs' : cheap s' = cheap s /\ rheap s' = rheap s).
  { unfold s'. by rewrite sendl_eq. }
  destruct Hs' as [Hc' Hr'].
  rewrite (news_trans s s').
  - f_equal.
    + unfold s'. rewrite news_sendl. unfold sendl_effects. by rewrite Hch.
    + change (news s' ?x) with (news (upd_room r (Room.set_num VUndef) s') x).
      apply IH; [done | simpl; congruence | by apply Hrest].
  - apply quiet_prefix, quiet_sendl.
  - change (out s') with (out (upd_room r (Room.set_num VUndef) s')).
    apply quiet_prefix, quiet_roomlist_loop.
Qed.

Lemma getroomlist_news st :
  NoDup (rooms st) -> (forall r, r ∈ rooms st -> is_Some (rheap st !! r)) ->
  news st (getroomlist st).2 = concat (reload_effects st <$> rooms st).
Proof.
  intros Hnd Halloc. unfold getroomlist.
  pose proof (quiet_reset_nums st) as Hq1.
  pose proof (quiet_count_members (reset_nums st)) as Hq2.
  set (st1 := count_members (reset_nums st)) in *.
  assert (Hout : out st1 = out st).
  { unfold st1, count_members, reset_nums.
    assert (forall (l : list raddr) s,
              out (foldl (fun s r => upd_room r (Room.set_num (VNum 0)) s) s l)
              = out s) as Hreset.
    { induction l as [|q l IHl]; intros s; simpl; [done|]. by rewrite IHl. }
    assert (forall (l : list (string * caddr)) s,
              out (foldl count_step s l) = out s) as Hcount.
    { induction l as [|q l IHl]; intros s; simpl; [done|].
      rewrite IHl. unfold count_step.
      destruct (cheap s !! q.2) as [c|]; [|done].
      destruct (Client.room c); [|done]. by destruct (Client.servermode c). }
    by rewrite Hcount, Hreset. }
  assert (Hnews : forall x, news st x = news st1 x).
  { intros x. unfold news. by rewrite Hout. }
  rewrite Hnews.
  replace (rooms st1) with (rooms st)
    by by rewrite (quiet_rooms _ _ Hq2), (quiet_rooms _ _ Hq1).
  apply roomlist_loop_news; [done | |].
  - by rewrite (quiet_cheap _ _ Hq2), (quiet_cheap _ _ Hq1).
  - intros r Hin. destruct (Halloc r Hin) as [R HR]. exists R.
    split; [done|]. by apply counted_rooms.
Qed.

(** X23.  After any run of calls on a constructed object, computing the
    room list sends [reloadroom] to the owner of every listed room that
    counts no live member, in the order of the directory, each failed send
    followed by the close of that owner's socket, and has no other
    effect. *)
Theorem reload_notices_of_running_lobby lingering calls :
  let st := run lingering calls in
  news st (getroomlist st).2 = concat (reload_effects st <$> rooms st).
Proof.
  intros st.
  assert (H : directory_wf st).
  { apply (run_invariant directory_wf); [|apply directory_wf_handle].
    destruct (construct_fields lingering) as (Hr & _).
    split; [rewrite Hr; apply NoDup_nil_2|].
    intros r Hin. rewrite Hr in Hin. by apply elem_of_nil in Hin. }
  destruct H as [Hnd Hown].
  apply getroomlist_news; [done|].
  intros r Hr. destruct (Hown r Hr) as (R & o & HR & _). by exists R.
Qed.

End Lobby.

(** * The statements on the scenarios *)


(** C5 on [lobby_banning]: the effects of a connection from the banned
    address. *)
Lemma banned_ip_denied_and_closed_witness :
  "6.6.6.6" ∈ bannedIps lobby_banning /\
  out (onConnect never_throws 5 "1000000007" (mkWs 7 AttNull) "6.6.6.6"
                 lobby_banning)
  = [Attach 7 "1000000007"; Send 7 (FJson [VStr "denied"; VStr "banned"]);
     Close 7].
Proof.
  assert (Hin : "6.6.6.6" ∈ bannedIps lobby_banning) by (apply list_elem_of_here).
  split; [exact Hin|].
  exact (proj1 (banned_ip_denied_and_closed never_throws 5 "1000000007"
                  (mkWs 7 AttNull) "6.6.6.6" lobby_banning Hin)).
Defined.

(** C5, as stated, fails on [lobby_banning]: the banned actor is sent a
    reply. *)
Lemma banned_ip_gets_a_reply :
  ~ (forall f, Send 7 f ∉ out (onConnect never_throws 5 "1000000007"
                                         (mkWs 7 AttNull) "6.6.6.6"
                                         lobby_banning)).
Proof.
  intros H. apply (H (FJson [VStr "denied"; VStr "banned"])).
  apply list_elem_of_In. vm_compute. auto.
Qed.

(** C1 on an empty registry and on the initial lobby. *)
Lemma rehydration_only_when_absent_witness :
  map_get "1000000001" (Hibernation.clients (Hibernation.mkRegistry [] []))
    = None /\
  Hibernation.clients
    (Hibernation.webSocketMessage_client
       1 (Hibernation.mkMeta "1000000001" "10.0.0.1" 0 false)
       (Hibernation.mkRegistry [] [])).2
    = [("1000000001", 0%nat)] /\
  resolve socket1 initial = None /\
  webSocketMessage never_throws no_json 5 "1000000009" socket1 "hello" initial
    = initial.
Proof.
  destruct (rehydration_only_when_absent never_throws no_json) as [Hhib Hlobby].
  pose proof (Hhib 1%nat (Hibernation.mkMeta "1000000001" "10.0.0.1" 0 false)
                   (Hibernation.mkRegistry [] [])) as H.
  cbv zeta in H. destruct H as (_ & H & _).
  split; [reflexivity|]. split; [exact (proj1 (proj2 (H eq_refl)))|].
  split; [reflexivity|].
  exact (Hlobby 5 "1000000009" socket1 "hello" initial eq_refl).
Defined.

(** C1, as stated, fails on the lobby object of [index.js]: after a
    message on a socket whose id has no live session, the registry still
    has no session for that id. *)
Lemma lobby_does_not_rehydrate :
  map_get "1000000001" (clients initial) = None /\
  map_get "1000000001"
    (clients (webSocketMessage never_throws no_json 5 "1000000009" socket1
                               "hello" initial)) = None /\
  out (webSocketMessage never_throws no_json 5 "1000000009" socket1 "hello"
                        initial) = [].
Proof. vm_compute. auto. Qed.

Lemma no_other_socket (st : State) (a : nat) :
  forall ws' : Ws, ws' ∈ @nil Ws ++ [] -> resolve ws' st <> Some a.
Proof. intros ws' H. simpl in H. by apply elem_of_nil in H. Qed.

(** C3 on [lobby_fresh]: the sweep at 3000 denies and marks the client that
    has sent no key. *)
Lemma auth_timeout_sweep_witness :
  resolve socket1 lobby_fresh = Some 0%nat /\
  cheap lobby_fresh !! 0%nat = Some fresh1 /\
  truthy (Client.onlineKey fresh1) = false /\
  Client.banned fresh1 = false /\ 3000 - Client.connectTime fresh1 > 2000 /\
  out (alarm_socket never_throws 3000 lobby_fresh socket1)
  = [Send 1 (FJson [VStr "denied"; VStr "key"]); Close 1] /\
  cheap (alarm never_throws 3000 [socket1] 1 lobby_fresh) !! 0%nat
  = Some (Client.set_banned true fresh1).
Proof.
  pose proof (auth_timeout_sweep never_throws 3000 [] socket1 [] 1 lobby_fresh
                0%nat fresh1 eq_refl eq_refl (no_other_socket lobby_fresh 0%nat))
    as H.
  cbv zeta in H. destruct H as (_ & Hsame & Hfire & _).
  assert (Htime : 3000 - Client.connectTime fresh1 > 2000) by (simpl; lia).
  destruct (Hfire eq_refl eq_refl Htime) as [Hout Hmark].
  split; [reflexivity|]. split; [reflexivity|]. split; [reflexivity|].
  split; [reflexivity|]. split; [exact Htime|].
  split; [exact Hout|].
  exact (eq_trans Hsame Hmark).
Defined.

(** C3, as stated, fails at the sweep that follows: the client is still
    tracked, still has no key and connected more than 2000 ms ago, and the
    sweep at 13000 neither sends the denial nor closes the socket. *)
Lemma marked_session_not_denied_again :
  let st1 := alarm never_throws 3000 [socket1] 1 lobby_fresh in
  let st2 := alarm never_throws 13000 [socket1] 1 st1 in
  resolve socket1 st1 = Some 0%nat /\
  (truthy ∘ Client.onlineKey) <$> cheap st1 !! 0%nat = Some false /\
  Client.connectTime <$> cheap st1 !! 0%nat = Some 0 /\
  news st1 st2 = [SetAlarm 23000].
Proof. vm_compute. auto. Qed.



(** C6 on [lobby_playing]: the owner disconnects. *)
Lemma owner_disconnect_witness :
  resolve socket1 lobby_playing = Some 0%nat /\
  cheap lobby_playing !! 0%nat = Some owner1 /\
  rooms (handleClose never_throws socket1 lobby_playing) = [] /\
  clients (handleClose never_throws socket1 lobby_playing)
  = [("1000000002", 1%nat); ("1000000003", 2%nat)] /\
  Send 2 (FJson [VStr "selfclose"])
    ∈ news lobby_playing (handleClose never_throws socket1 lobby_playing).
Proof.
  pose proof (owner_disconnect never_throws socket1 lobby_playing 0%nat owner1
                eq_refl eq_refl) as H.
  cbv zeta in H. destruct H as (Hrooms & Hclients & _ & Hself & _).
  split; [reflexivity|]. split; [reflexivity|].
  split; [exact Hrooms|]. split; [exact Hclients|].
  apply (Hself 0%nat "1000000002" 1%nat guest2).
  - apply list_elem_of_here.
  - reflexivity.
  - apply list_elem_of_further, list_elem_of_here.
  - reflexivity.
  - reflexivity.
  - discriminate.
Defined.

(** C6, as stated, fails on [lobby_playing]: after the owner's disconnect
    the room is gone from the directory, and the guest that was sent
    [selfclose] still has it as its room and still has the owner as its
    owner link. *)
Lemma guest_not_detached :
  let st' := handleClose never_throws socket1 lobby_playing in
  rooms st' = [] /\
  Client.room <$> cheap st' !! 1%nat = Some (Some 0%nat) /\
  Client.owner <$> cheap st' !! 1%nat = Some (Some 0%nat).
Proof. vm_compute. auto. Qed.

(** C7 on [lobby_handoff]. *)
Lemma roomlist_snapshot_witness :
  NoDup (rooms lobby_handoff) /\
  (forall r, r ∈ rooms lobby_handoff -> is_Some (rheap lobby_handoff !! r)) /\
  (getroomlist never_throws lobby_handoff).1 = listing lobby_handoff /\
  (getroomlist never_throws (getroomlist never_throws lobby_handoff).2).1
  = (getroomlist never_throws lobby_handoff).1.
Proof.
  assert (Hnd : NoDup (rooms lobby_handoff)).
  { apply (bool_decide_unpack _). reflexivity. }
  assert (Halloc : forall r, r ∈ rooms lobby_handoff ->
                             is_Some (rheap lobby_handoff !! r)).
  { intros r Hr. apply elem_of_cons in Hr as [->|Hr]; [by eexists|].
    apply list_elem_of_singleton in Hr as ->. by eexists. }
  pose proof (roomlist_snapshot never_throws lobby_handoff Hnd Halloc) as H.
  cbv zeta in H. destruct H as (Hlist & Hagain & _).
  split; [exact Hnd|]. split; [exact Halloc|].
  split; [exact Hlist | exact Hagain].
Defined.

(** C7, as stated, fails on [lobby_handoff]: the second room is in
    servermode with a handoff pending, so it is not a servermode room with
    no active handoff; it has an owner and a published config; yet the
    snapshot shows it as ["server"] and not as its tuple. *)
Lemma pending_handoff_still_server :
  Room.servermode room_claimed = true /\
  Room.owner room_claimed = Some 2%nat /\
  Client._onconfig relay3 = Some 1%nat /\
  truthy (Room.config room_claimed) = true /\
  liveMemberCount lobby_handoff 1 = 1 /\
  (getroomlist never_throws lobby_handoff).1
  = [VArr [VStr "Alice"; VStr "av1"; VObj [("mode", VStr "identity")];
           VNum 1; VStr "K1"];
     VStr "server"] /\
  VArr [VStr "Bob"; VStr "av2"; VObj [("mode", VStr "guozhan")]; VNum 1;
        VStr "slot1"] ∉ (getroomlist never_throws lobby_handoff).1.
Proof.
  do 6 (split; [reflexivity|]).
  intros H. apply list_elem_of_In in H. vm_compute in H.
  intuition discriminate.
Qed.



(** C10 on [lobby_unpublished]: the visitor enters a room without config. *)
Lemma failed_enter_keeps_room_witness :
  cheap lobby_unpublished !! 1%nat = Some visitor2 /\
  find_room (VStr "K1") lobby_unpublished = Some 0%nat /\
  rheap lobby_unpublished !! 0%nat = Some room_unpublished /\
  is_claim lobby_unpublished room_unpublished 0 VUndef VUndef = false /\
  not_enterable (Room.config room_unpublished) = true /\
  Client.room <$> cheap (messages_enter never_throws 1 (VStr "K1") (VStr "Bob")
                           (VStr "av2") VUndef VUndef lobby_unpublished)
                  !! 1%nat = Some (Some 0%nat) /\
  ("1000000002", 1%nat)
    ∈ List.filter
        (is_member (messages_enter never_throws 1 (VStr "K1") (VStr "Bob")
                      (VStr "av2") VUndef VUndef lobby_unpublished) 0)
        (clients (messages_enter never_throws 1 (VStr "K1") (VStr "Bob")
                    (VStr "av2") VUndef VUndef lobby_unpublished)).
Proof.
  pose proof (failed_enter_keeps_room never_throws 1%nat (VStr "K1")
                (VStr "Bob") (VStr "av2") VUndef VUndef lobby_unpublished
                visitor2 0%nat room_unpublished 0%nat
                eq_refl eq_refl eq_refl eq_refl eq_refl eq_refl) as H.
  cbv zeta in H. destruct H as (Hc & _ & _ & _ & _ & _ & _ & _ & Hmember & _).
  split; [reflexivity|]. split; [reflexivity|]. split; [reflexivity|].
  split; [reflexivity|]. split; [reflexivity|].
  split.
  - rewrite Hc. reflexivity.
  - apply Hmember; [|reflexivity].
    apply list_elem_of_further, list_elem_of_here.
Defined.

(** C2 on [lobby_free_slot]: the host claims the free slot, the visitor
    enters it with config and mode, and the host's [config] finishes the
    handoff. *)
Lemma handoff_finalized_witness :
  let st1 := messages_server never_throws 0 VUndef lobby_free_slot in
  let st2 := messages_enter never_throws 1 (VStr "slot0") (VStr "Bob")
               (VStr "av2") (VObj []) (VStr "identity") st1 in
  let st3 := messages_config never_throws 0
               (VObj [("mode", VStr "identity")]) st2 in
  first_unowned lobby_free_slot = Some 0%nat /\
  find_room (VStr "slot0") lobby_free_slot = Some 0%nat /\
  (forall b bc, cheap st3 !! b = Some bc ->
                (Client.owner bc = Some 0%nat <-> b = 1%nat)) /\
  Client._onconfig <$> cheap st2 !! 0%nat = Some (Some 1%nat) /\
  Client._onconfig <$> cheap st3 !! 0%nat = Some None /\
  Send 1 (FJson [VStr "onconnection"; VStr "1000000002"]) ∈ news st2 st3.
Proof.
  cbv zeta.
  destruct (handoff_finalized never_throws) as [Hstep Hseq].
  assert (Ho : cheap lobby_free_slot !! 0%nat = Some host1) by reflexivity.
  assert (Hg : cheap lobby_free_slot !! 1%nat = Some visitor2) by reflexivity.
  assert (Hne : 0%nat <> 1%nat) by discriminate.
  assert (Hfree : first_unowned lobby_free_slot = Some 0%nat) by reflexivity.
  assert (HR : rheap lobby_free_slot !! 0%nat = Some room_free) by reflexivity.
  assert (Hfind : find_room (VStr "slot0") lobby_free_slot = Some 0%nat)
    by reflexivity.
  assert (Hon : Client._onconfig host1 = None) by reflexivity.
  assert (Hcfg : truthy (VObj []) = true) by reflexivity.
  assert (Hmode : truthy (VStr "identity") = true) by reflexivity.
  assert (Hlive : map_has (Client.wsid visitor2) (clients lobby_free_slot)
                  = true) by reflexivity.
  assert (Hnone : forall b bc, cheap lobby_free_slot !! b = Some bc ->
                               Client.owner bc <> Some 0%nat).
  { intros [|[|b]] bc Hb; simpl in Hb; try discriminate;
      injection Hb as <-; discriminate. }
  pose proof (Hseq 0%nat 1%nat (VStr "slot0") (VStr "Bob") (VStr "av2")
                (VObj []) (VStr "identity") (VObj [("mode", VStr "identity")])
                lobby_free_slot host1 visitor2 0%nat room_free
                Ho Hg Hne Hfree HR Hfind Hon Hcfg Hmode Hlive Hnone) as H.
  cbv zeta in H. destruct H as [Honly _].
  set (st2 := messages_enter never_throws 1 (VStr "slot0") (VStr "Bob")
                (VStr "av2") (VObj []) (VStr "identity")
                (messages_server never_throws 0 VUndef lobby_free_slot)) in *.
  assert (H0 : exists c R gc,
             cheap st2 !! 0%nat = Some c /\ Client.room c = Some 0%nat /\
             rheap st2 !! 0%nat = Some R /\ Room.owner R = Some 0%nat /\
             Room.servermode R = true /\ Client._onconfig c = Some 1%nat /\
             cheap st2 !! 1%nat = Some gc /\
             Client.ws c = 1%nat /\ Client.wsid gc = "1000000002" /\
             map_has (Client.wsid gc) (clients st2) = true).
  { vm_compute. do 3 eexists. repeat split; reflexivity. }
  destruct H0 as (c & R & gc & Hc & Hroom & HR2 & Ho2 & Hsm & Hon2 & Hg2 & Hws & Hid
                  & Hlive2).
  pose proof (Hstep 0%nat (VObj [("mode", VStr "identity")]) st2 c 0%nat R
                    1%nat gc Hc Hroom HR2 Ho2 Hsm Hon2 Hg2) as H.
  cbv zeta in H. destruct H as (_ & Hclear & Hlink & _).
  destruct (Hlink Hlive2) as [_ Hsent]. rewrite Hws, Hid in Hsent.
  split; [exact Hfree|]. split; [exact Hfind|].
  split; [exact Honly|]. split; [rewrite Hc; simpl; by rewrite Hon2|].
  split; [exact Hclear | exact Hsent].
Defined.

(** * The further properties on the scenarios *)

Lemma lobby_playing_registry : registry_wf lobby_playing.
Proof.
  split; [|split].
  - apply (bool_decide_unpack _). reflexivity.
  - apply (bool_decide_unpack _). reflexivity.
  - intros k a Hin. simpl in Hin.
    rewrite !elem_of_cons, elem_of_nil in Hin.
    destruct Hin as [[= -> ->]|[[= -> ->]|[[= -> ->]|[]]]];
      eexists; split; reflexivity.
Qed.

(** X4 on [lobby_playing]: after the owner's close event its socket
    resolves to nothing, and the guest's socket resolves as before. *)
Lemma closed_session_is_gone_witness :
  resolve socket1 lobby_playing = Some 0%nat /\
  resolve socket1 (handleClose never_throws socket1 lobby_playing) = None /\
  resolve socket2 (handleClose never_throws socket1 lobby_playing)
  = Some 1%nat.
Proof.
  pose proof (closed_session_is_gone never_throws no_json socket1
                lobby_playing 0%nat lobby_playing_registry eq_refl) as H.
  cbv zeta in H. destruct H as (Hgone & _ & _ & Hother & _).
  split; [reflexivity|]. split; [exact Hgone|].
  apply Hother; [reflexivity|discriminate].
Defined.

(** X6 on [lobby_playing]: the owner relays a text to its guest and then
    closes it; the same commands naming the third client, which is not its
    guest, do nothing. *)
Lemma relay_commands_reach_own_guests_witness :
  news lobby_playing
       (messages_send never_throws 0 (VStr "1000000002") (VStr "hi")
                      lobby_playing)
  = [Send 2 (FRaw (VStr "hi"))] /\
  news lobby_playing
       (messages_close 0 (VStr "1000000002") lobby_playing)
  = [Close 2] /\
  messages_send never_throws 0 (VStr "1000000003") (VStr "hi") lobby_playing
  = lobby_playing /\
  messages_close 0 (VStr "1000000003") lobby_playing
  = lobby_playing.
Proof.
  pose proof (relay_commands_reach_own_guests never_throws 0%nat
                (VStr "1000000002") (VStr "hi") lobby_playing) as H.
  pose proof (relay_commands_reach_own_guests never_throws 0%nat
                (VStr "1000000003") (VStr "hi") lobby_playing) as H3.
  cbv zeta in H, H3.
  destruct H as (_ & _ & _ & _ & Hown), H3 as (_ & _ & _ & Hnot & _).
  destruct (Hown 1%nat guest2 eq_refl eq_refl eq_refl) as [Hsent Hclosed].
  split; [exact Hsent|]. split; [exact Hclosed|].
  apply Hnot. intros t tc Ht Htc.
  injection Ht as <-. injection Htc as <-. discriminate.
Defined.


(** X8 on [lobby_playing]: the third client enters the published room and
    its next frame, although it spells a command, goes to the owner. *)
Lemma admitted_guest_is_relayed_witness :
  let st1 := messages_enter never_throws 2 (VStr "K1") (VStr "Carol")
               (VStr "av3") VUndef VUndef lobby_playing in
  Send 1 (FJson [VStr "onconnection"; VStr "1000000003"])
    ∈ news lobby_playing st1 /\
  news st1 (webSocketMessage never_throws no_json 5 "1000000009" socket3
                             "[1,2]" st1)
  = [Send 1 (FJson [VStr "onmessage"; VStr "1000000003"; VStr "[1,2]"])].
Proof.
  pose proof (admitted_guest_is_relayed never_throws no_json 2%nat (VStr "K1")
                (VStr "Carol") (VStr "av3") VUndef VUndef lobby_playing idle3
                0%nat room_K1 0%nat owner1 socket3
                eq_refl eq_refl eq_refl eq_refl eq_refl eq_refl eq_refl
                eq_refl) as H.
  cbv zeta in H. destruct H as (_ & Hconn & Hrelay).
  assert (Hmsg : "[1,2]" <> "heartbeat") by discriminate.
  split; [exact Hconn|].
  exact (proj1 (Hrelay 5 "1000000009" "[1,2]" Hmsg)).
Defined.

(** X9 on [lobby_keyed]: the client's key is ["K1"], and an [events]
    command under the id ["K2"] gets its address banned; the next
    connection from that address is turned away. *)
Lemma forged_event_bans_address_witness :
  let st1 := messages_events never_throws 5 "1000000009" 0 VNull (VStr "K2")
               VUndef lobby_keyed in
  cheap lobby_keyed !! 0%nat = Some keyed1 /\
  bannedIps st1 = ["10.0.0.1"] /\
  news lobby_keyed st1 = [Close 1] /\
  news st1 (onConnect never_throws 6 "1000000002" (mkWs 2 AttNull) "10.0.0.1"
                      st1)
  = [Attach 2 "1000000002"; Send 2 (FJson [VStr "denied"; VStr "banned"]);
     Close 2].
Proof.
  pose proof (forged_event_bans_address never_throws 5 "1000000009" 0%nat
                VNull (VStr "K2") VUndef lobby_keyed keyed1 eq_refl
                (or_intror eq_refl)) as H.
  cbv zeta in H. destruct H as (_ & _ & _ & _ & Hip & Hnews & Hnext).
  split; [reflexivity|]. split; [exact Hip|]. split; [exact Hnews|].
  exact (Hnext 6 "1000000002" (mkWs 2 AttNull)).
Defined.




(** X16 on [lobby_fresh]: a key that is a string is refused at once; an
    empty array is taken without a word, and the sweep at 3000 denies the
    session all the same. *)
Lemma keys_that_do_not_authenticate_witness :
  cheap lobby_fresh !! 0%nat = Some fresh1 /\
  news lobby_fresh (messages_key never_throws 0 (VStr "K1") lobby_fresh)
  = [Send 1 (FJson [VStr "denied"; VStr "key"]); Close 1] /\
  news lobby_fresh (messages_key never_throws 0 (VArr []) lobby_fresh) = [] /\
  news (messages_key never_throws 0 (VArr []) lobby_fresh)
       (alarm_socket never_throws 3000
          (messages_key never_throws 0 (VArr []) lobby_fresh) socket1)
  = [Send 1 (FJson [VStr "denied"; VStr "key"]); Close 1].
Proof.
  pose proof (keys_that_do_not_authenticate never_throws 0%nat (VStr "K1")
                lobby_fresh fresh1 eq_refl) as H1.
  pose proof (keys_that_do_not_authenticate never_throws 0%nat (VArr [])
                lobby_fresh fresh1 eq_refl) as H2.
  cbv zeta in H1, H2. destruct H1 as [Hbad _], H2 as [_ Hempty].
  destruct (Hbad (or_intror eq_refl)) as [_ Hdenied].
  destruct (Hempty eq_refl eq_refl eq_refl eq_refl) as (Hsilent & _ & Hsweep).
  assert (Hlate : 3000 - Client.connectTime fresh1 > 2000) by (simpl; lia).
  split; [reflexivity|]. split; [exact Hdenied|]. split; [exact Hsilent|].
  exact (Hsweep 3000 socket1 eq_refl eq_refl Hlate).
Defined.


(** X18 on [lobby_keyed]: an [events] command without arguments bans the
    sender's address. *)
Lemma only_two_commands_ban_witness :
  bannedIps (handle never_throws parse_events_frame lobby_keyed
                    (Message 5 "1000000009" socket1 events_frame))
  = ["10.0.0.1"] /\
  exists arr,
    parse_events_frame events_frame = Some (VArr arr) /\
    arg 0 arr = VStr "server" /\ to_string (arg 1 arr) = "events".
Proof.
  assert (Hchg : bannedIps (handle never_throws parse_events_frame lobby_keyed
                              (Message 5 "1000000009" socket1 events_frame))
                 <> bannedIps lobby_keyed) by (vm_compute; discriminate).
  destruct (only_two_commands_ban never_throws parse_events_frame lobby_keyed
              (Message 5 "1000000009" socket1 events_frame) Hchg)
    as (now & fresh_id & ws & message & arr & Hc & Hparse & Hserver & Hname).
  split; [reflexivity|].
  injection Hc as <- <- <- <-. exists arr.
  split; [exact Hparse|]. split; [exact Hserver|].
  destruct Hname as [Hname|Hname]; [|exact Hname].
  assert (Hval : parse_events_frame events_frame
                 = Some (VArr [VStr "server"; VStr "events"])) by reflexivity.
  rewrite Hval in Hparse. injection Hparse as <-. discriminate Hname.
Defined.

(** X20 on the short session: the guest's next frame goes to the owner of
    the room it entered. *)
Lemma relayed_frames_reach_room_owner_witness :
  let st := run never_throws parse_session [] session_calls in
  resolve socket2 st = Some 1%nat /\
  cheap st !! 1%nat = Some guest_entered /\
  news st (webSocketMessage never_throws parse_session 6 "1000000016" socket2
                            "hello" st)
  = [Send 1 (FJson [VStr "onmessage"; VStr "1000000002"; VStr "hello"])].
Proof.
  cbv zeta.
  assert (Hres : resolve socket2 (run never_throws parse_session [] session_calls)
                 = Some 1%nat) by (vm_compute; reflexivity).
  assert (Hc : cheap (run never_throws parse_session [] session_calls) !! 1%nat
               = Some guest_entered) by (vm_compute; reflexivity).
  assert (Hmsg : "hello" <> "heartbeat") by discriminate.
  destruct (relayed_frames_reach_room_owner never_throws parse_session []
              session_calls 6 "1000000016" socket2 "hello" 1%nat guest_entered
              0%nat Hres Hc eq_refl Hmsg)
    as (r & R & oc & _ & _ & _ & Hoc & Hnews).
  split; [exact Hres|]. split; [exact Hc|].
  rewrite Hnews.
  assert (Hoc' : cheap (run never_throws parse_session [] session_calls) !! 0%nat
                 = Some oc) by exact Hoc.
  vm_compute in Hoc'. injection Hoc' as <-. reflexivity.
Defined.

(** X21 on [lobby_playing]: the ids of the client list, before and after
    the owner's close event. *)
Lemma clientlist_shows_registry_witness :
  (fun entry => prop_idx entry 4) <$> getclientlist lobby_playing
  = [VStr "1000000001"; VStr "1000000002"; VStr "1000000003"] /\
  forall entry,
    entry ∈ getclientlist (handleClose never_throws socket1 lobby_playing) ->
    prop_idx entry 4 <> VStr "1000000001".
Proof.
  destruct (clientlist_shows_registry never_throws lobby_playing
              lobby_playing_registry) as [Hids Hgone].
  split; [exact Hids|].
  exact (Hgone socket1 0%nat owner1 eq_refl eq_refl).
Defined.

(** X22 on [lobby_playing]: the third client tries a key that no room
    has. *)
Lemma enter_unknown_key_witness :
  let st' := messages_enter never_throws 2 (VStr "K9") (VStr "Carol")
               (VStr "av3") VUndef VUndef lobby_playing in
  cheap lobby_playing !! 2%nat = Some idle3 /\
  Client.nickname <$> cheap st' !! 2%nat = Some "Carol" /\
  Client.room <$> cheap st' !! 2%nat = Some None /\
  news lobby_playing st' = [Send 3 (FJson [VStr "enterroomfailed"])].
Proof.
  assert (Hnone : forall r R, r ∈ rooms lobby_playing ->
                    rheap lobby_playing !! r = Some R ->
                    strict_eq (Room.key R) (VStr "K9") = false).
  { intros r R Hr HR. apply list_elem_of_singleton in Hr as ->.
    injection HR as <-. reflexivity. }
  pose proof (enter_unknown_key never_throws 2%nat (VStr "K9") (VStr "Carol")
                (VStr "av3") VUndef VUndef lobby_playing idle3 eq_refl Hnone)
    as H.
  cbv zeta in H. destruct H as (Hc & _ & _ & _ & _ & Hnews).
  split; [reflexivity|]. split; [by rewrite Hc|]. split; [by rewrite Hc|].
  exact Hnews.
Defined.
